(** * pandas-ai: generated-code execution engine

    A shallow embedding of the parts of the repository that decide the
    behaviour of the security screen ([pandasai/agent/base.py]), the
    Postgres-backed cache ([pandasai/helpers/pgcache.py]), the code
    execution stage ([pandasai/pipelines/chat/code_execution.py]) and the
    pipeline context ([pandasai/pipelines/pipeline_context.py]).

    Python strings are [string], Python integers are [Z], lists are [list],
    insertion-ordered dictionaries are association lists, and code that can
    raise returns an [outcome]. *)

From Stdlib Require Import String Ascii List ZArith Lia Bool Arith DecimalString
  Sorted Permutation.
Import ListNotations.
Open Scope string_scope.

(** ** Python string primitives used by the sources *)

Module PyStr.

(** [sub in s] on Python strings: [sub] occurs somewhere in [s]. *)
Fixpoint py_in (sub s : string) : bool :=
  prefix sub s ||
  match s with
  | EmptyString => false
  | String _ s' => py_in sub s'
  end.

(** [str(i)] for a Python integer. *)
Definition str_of_Z (z : Z) : string := NilZero.string_of_int (Z.to_int z).

(** [str(i)] for an index produced by [enumerate]. *)
Definition str_of_nat (n : nat) : string := str_of_Z (Z.of_nat n).

(** [s.split(sep)] for a one-character separator. *)
Fixpoint split (sep : ascii) (s : string) : list string :=
  match s with
  | EmptyString => [EmptyString]
  | String c s' =>
      if Ascii.eqb c sep then EmptyString :: split sep s'
      else match split sep s' with
           | [] => [String c EmptyString]
           | h :: t => String c h :: t
           end
  end.

(** [s.replace(old, new)] for a non-empty [old]: occurrences are replaced
    left to right without overlap.  [skip] counts the characters of a
    matched occurrence that are still to be dropped. *)
Fixpoint replace_from (old new : string) (skip : nat) (s : string) : string :=
  match s with
  | EmptyString => EmptyString
  | String c s' =>
      match skip with
      | S k => replace_from old new k s'
      | O =>
          if prefix old s
          then new ++ replace_from old new (String.length old - 1) s'
          else String c (replace_from old new 0 s')
      end
  end.

Definition replace (old new s : string) : string := replace_from old new 0 s.

Definition newline : string := String (ascii_of_nat 10) EmptyString.

End PyStr.

(** Outcome of a Python call: a returned value or a raised exception. *)
Inductive outcome (E A : Type) : Type :=
| Return (a : A)
| Raise (e : E).
Arguments Return {E A} a.
Arguments Raise {E A} e.

(** ** Column labels of a pandas table *)

Module Pandas.

(** A column label: a string, or another object, known by the text [str]
    gives for it. *)
Inductive label : Type :=
| LStr (s : string)
| LObj (text : string).

(** [str(col)] *)
Definition str (col : label) : string :=
  match col with
  | LStr s => s
  | LObj text => text
  end.

(** [a == b] on labels; a string is never equal to another object. *)
Definition label_eqb (a b : label) : bool :=
  match a, b with
  | LStr x, LStr y => String.eqb x y
  | LObj x, LObj y => String.eqb x y
  | _, _ => false
  end.

(** The columns of [df.pandas_df], in order, each with its dtype. *)
Definition frame : Type := list (label * string).

(** What [frame[key].dtype] gives.  With one column labelled [key] the
    selection is that column and the value is its dtype; with none the
    selection raises [KeyError]; with several it is a table, which has no
    attribute [dtype]. *)
Inductive selection : Type :=
| Dtype (d : string)
| NoColumn
| SeveralColumns.

Definition dtype_of (f : frame) (key : label) : selection :=
  match filter (fun c => label_eqb (fst c) key) f with
  | [] => NoColumn
  | [c] => Dtype (snd c)
  | _ => SeveralColumns
  end.

End Pandas.

(** ** Security screen and chat entry point ([pandasai/agent/base.py]) *)

Module Agent.
Import PyStr Pandas.

(** Exceptions seen by [BaseAgent.chat].  Exceptions of collaborators are
    kept by the text [str(exception)], the only thing [chat] uses. *)
Inductive exn : Type :=
| MaliciousQueryError (msg : string)
| KeyError (key : string)
| AttributeError (msg : string)
| CollaboratorError (msg : string).

(** [str(exception)]; the text of a [KeyError] is the [repr] of its key. *)
Definition exn_str (e : exn) : string :=
  match e with
  | MaliciousQueryError m => m
  | KeyError key => "'" ++ key ++ "'"
  | AttributeError m => m
  | CollaboratorError m => m
  end.

Definition dangerous_modules : list string :=
  [ " os"; " io"; ".os"; ".io"; "'os'"; "'io'";
    String (ascii_of_nat 34) ("os" ++ String (ascii_of_nat 34) EmptyString);
    String (ascii_of_nat 34) ("io" ++ String (ascii_of_nat 34) EmptyString);
    "chr("; "chr)"; "chr "; "(chr"; "b64decode" ].

(** [any(module in query for module in dangerous_modules)] *)
Definition check_malicious_keywords_in_query (query : string) : bool :=
  existsb (fun module => py_in module query) dangerous_modules.

(** Observable actions of [chat], in the order they happen. *)
Inductive event : Type :=
| Log (msg : string)
| AssignPromptId (id : string)
| SecurityEvaluate (query : string)
| SetEnforceGrouping (b : bool)
| PipelineRun (query : string) (output_type : option string).

Definition is_pipeline_run (e : event) : bool :=
  match e with PipelineRun _ _ => true | _ => false end.

Definition pipeline_runs (t : list event) : nat :=
  List.length (filter is_pipeline_run t).

Section Chat.

(** What [pipeline.run] returns on success. *)
Variable response : Type.

(** The value [chat] returns: one of its own messages or the pipeline's
    response. *)
Inductive chat_value : Type :=
| Message (s : string)
| Response (r : response).

(** The chat pipeline, a collaborator: it returns a response or raises. *)
Definition pipeline_t : Type := string -> option string -> outcome exn response.

Record agent : Type := {
  pipeline : option pipeline_t;
  security : option (string -> bool);
  (* per dataframe, the columns of [df.pandas_df] with their dtype *)
  dfs : list frame;
  llm_type : string
}.

Definition no_pipeline_message : string :=
  "Unfortunately, I was not able to get your answers, " ++
  "because of the following error: No pipeline exists".

Definition failure_message (e : exn) : string :=
  "Unfortunately, I was not able to get your answers, " ++
  "because of the following error:" ++ newline ++
  newline ++ exn_str e ++ newline.

Definition keyword_message : string :=
  "The query contains references to io or os modules or b64decode method which can be used to execute or access system resources in unsafe ways.".

Definition evaluator_message : string := "Query can result in a malicious code".

Definition no_dtype_message : string :=
  "'DataFrame' object has no attribute 'dtype'".

(** The inner loop of the [columns] text of [chat], over the labels [cols]
    of the table [df]: [col = str(col)], then [df.pandas_df[col].dtype]. *)
Fixpoint describe_frame (df : frame) (cols : list (label * string))
    (columns : string) : outcome exn string :=
  match cols with
  | [] => Return columns
  | c :: rest =>
      let col := str (fst c) in
      match dtype_of df (LStr col) with
      | Dtype coltype =>
          describe_frame df rest (columns ++ col ++ " (" ++ coltype ++ "), ")
      | NoColumn => Raise (KeyError col)
      | SeveralColumns => Raise (AttributeError no_dtype_message)
      end
  end.

(** The outer loop; [i] is the number of dataframes already described. *)
Fixpoint describe_columns (i : nat) (l : list frame) (columns : string)
  : outcome exn string :=
  match l with
  | [] => Return columns
  | df :: rest =>
      match describe_frame df df
              (columns ++ "Dataframe " ++ str_of_nat (S i) ++ ": ") with
      | Return columns => describe_columns (S i) rest columns
      | Raise e => Raise e
      end
  end.

(** The body of the [try] block of [chat].  [prompt_id] is the identifier
    drawn by [assign_prompt_id].  The [columns] text is built first and
    used nowhere; building it can raise. *)
Definition chat_body (a : agent) (run : pipeline_t) (prompt_id : string)
    (query : string) (enforce_grouping : bool) (output_type : option string)
  : outcome exn response * list event :=
  let t0 := [ Log ("Question: " ++ query) ] in
  match describe_columns 0 (dfs a) EmptyString with
  | Raise e => (Raise e, t0)
  | Return columns =>
      let t :=
        (t0 ++
         [ Log ("Running PandasAI with " ++ llm_type a ++ " LLM...");
           AssignPromptId prompt_id;
           Log ("Prompt ID: " ++ prompt_id) ])%list in
      if check_malicious_keywords_in_query query
      then (Raise (MaliciousQueryError keyword_message), t)
      else
        let continue (t : list event) :=
          let t := (t ++ [SetEnforceGrouping enforce_grouping;
                          PipelineRun query output_type])%list in
          (run query output_type, t) in
        match security a with
        | Some evaluate =>
            let t := (t ++ [SecurityEvaluate query])%list in
            if evaluate query
            then (Raise (MaliciousQueryError evaluator_message), t)
            else continue t
        | None => continue t
        end
  end.

(** [BaseAgent.chat]: every exception of the body is turned into a
    message. *)
Definition chat (a : agent) (prompt_id : string)
    (query : string) (enforce_grouping : bool) (output_type : option string)
  : outcome exn chat_value * list event :=
  match pipeline a with
  | None => (Return (Message no_pipeline_message), [])
  | Some run =>
      match chat_body a run prompt_id query enforce_grouping output_type with
      | (Return r, t) => (Return (Response r), t)
      | (Raise e, t) => (Return (Message (failure_message e)), t)
      end
  end.

End Chat.

Arguments Message {response} s.
Arguments Response {response} r.
Arguments pipeline {response} a.
Arguments security {response} a.
Arguments dfs {response} a.
Arguments llm_type {response} a.
Arguments chat_body {response}.
Arguments chat {response}.

End Agent.

(** ** Query cache ([pandasai/helpers/pgcache.py]) *)

Module PgCache.
Import PyStr.

Inductive exn : Type :=
| IndexError.

(** One row of the table [promptmaster]; [None] is SQL [NULL]. *)
Record row : Type := {
  data_source : string;
  dataframe_hash : string;
  normalized_question : string;
  code_executed : option string;
  bad_code : option string
}.

(** The database the cache reads: the rows of [promptmaster], in the order
    the server returns them. *)
Definition table : Type := list row.

Definition versioned_key (key : string) : string := key.

(** [Cache.set]: the body is [pass]. *)
Definition set (db : table) (key value : string) : table := db.

(** [Cache.delete] and [Cache.clear]: the bodies are [pass]. *)
Definition delete (db : table) (key : string) : table := db.
Definition clear (db : table) : table := db.

Definition query_prefix : string := "### QUERY" ++ newline ++ " ".

(** The [WHERE] clause of [check_query]. *)
Definition selected (p0 p1 question : string) (r : row) : bool :=
  String.eqb (data_source r) p0 &&
  String.eqb (dataframe_hash r) p1 &&
  String.eqb (normalized_question r) question &&
  match bad_code r with None => true | Some _ => false end.

(** [Cache.get]: [cursor.fetchone()] is the first selected row. *)
Definition get (db : table) (key : string) : outcome exn (option string) :=
  let parts := split "~" key in
  match nth_error parts 2 with
  | None => Raise IndexError
  | Some question =>
      let question := replace query_prefix EmptyString question in
      let question_exists :=
        find (selected (nth 0 parts EmptyString) (nth 1 parts EmptyString) question) db in
      match question_exists with
      | None => Return None
      | Some r => Return (code_executed r)
      end
  end.

(** [Cache.get_column_hash] over the [column_hash] of each dataframe. *)
Definition get_column_hash (column_hashes : list string) : string :=
  fold_left (fun column_hash h => column_hash ++ h) column_hashes EmptyString.

(** [Cache.get_cache_key] *)
Definition get_cache_key (data_source : string) (column_hashes : list string)
    (last_message : string) : string :=
  data_source ++ "~" ++ get_column_hash column_hashes ++ "~" ++ last_message.

End PgCache.

(** ** Python syntax trees, as far as the execution stage reads them *)

Module PyAst.

Set Warnings "-register-all".
Local Open Scope list_scope.

(** Values of [ast.Constant] nodes. *)
Inductive constant : Type :=
| CInt (n : Z)
| CStr (s : string)
| CBool (b : bool)
| CNone
| CFloat (repr : string).

(** Comparison operators, the keys of [_ast_comparator_map].  They live in
    a module of their own because [Eq], [Lt], [Gt] and [In] are names of
    the standard library. *)
Module Op.
Inductive cmpop : Type :=
| Eq | NotEq | Lt | LtE | Gt | GtE | Is | IsNot | In | NotIn.
End Op.

Definition cmpop : Type := Op.cmpop.

(** Nodes of the tree.  [Other] stands for every node kind that has none
    of the fields the stage reads ([value], [slice], [id], [attr], [func],
    [targets]), such as [BinOp], [BoolOp], [List], [If] or [For]; its
    children are listed in field order.  Operator and expression-context
    nodes, which are leaves without fields, are left out. *)
Inductive node : Type :=
| Module_ (body : list node)
| Assign (lineno : Z) (targets : list node) (value : node)
| Expr (value : node)
| Compare (lineno : Z) (left : node) (ops : list cmpop) (comparators : list node)
| Subscript (value : node) (slice : node)
| Call (func : node) (args : list node)
| Attribute (value : node) (attr : string)
| Name (id : string)
| Constant (value : constant)
| Other (children : list node).

(** A Python object met while reading a tree: a plain value or a node. *)
Inductive pyval : Type :=
| VConst (c : constant)
| VNode (n : node).

(** [ast.iter_child_nodes] *)
Definition iter_child_nodes (n : node) : list node :=
  match n with
  | Module_ body => body
  | Assign _ targets value => targets ++ [value]
  | Expr value => [value]
  | Compare _ lhs _ comparators => lhs :: comparators
  | Subscript value slice => [value; slice]
  | Call func args => func :: args
  | Attribute value _ => [value]
  | Name _ => []
  | Constant _ => []
  | Other children => children
  end.

(** Number of nodes of a tree. *)
Fixpoint size (n : node) : nat :=
  let sizes := fix sizes (l : list node) : nat :=
    match l with
    | [] => 0
    | x :: r => size x + sizes r
    end in
  match n with
  | Module_ body => S (sizes body)
  | Assign _ targets value => S (sizes targets + size value)
  | Expr value => S (size value)
  | Compare _ lhs _ comparators => S (size lhs + sizes comparators)
  | Subscript value slice => S (size value + size slice)
  | Call func args => S (size func + sizes args)
  | Attribute value _ => S (size value)
  | Name _ => 1
  | Constant _ => 1
  | Other children => S (sizes children)
  end.

(** The loop of [ast.walk]: take the first node of the queue, put its
    children at the end of the queue, yield the node. *)
Fixpoint walk_queue (fuel : nat) (todo : list node) : list node :=
  match fuel, todo with
  | S fuel', n :: rest => n :: walk_queue fuel' (rest ++ iter_child_nodes n)
  | _, _ => []
  end.

(** [ast.walk]: breadth-first order. *)
Definition walk (tree : node) : list node := walk_queue (size tree) [tree].

(** The attribute [value] of a node; [None] when the node has none. *)
Definition attr_value (n : node) : option pyval :=
  match n with
  | Assign _ _ value => Some (VNode value)
  | Expr value => Some (VNode value)
  | Subscript value _ => Some (VNode value)
  | Attribute value _ => Some (VNode value)
  | Constant c => Some (VConst c)
  | _ => None
  end.

(** The attribute [id] of a Python object. *)
Definition attr_id (v : pyval) : option string :=
  match v with
  | VNode (Name id) => Some id
  | _ => None
  end.

(** An [ast.Assign] node as the visitor hands it over. *)
Record assign : Type := {
  lineno : Z;
  targets : list node;
  value : node
}.

(** Modelled from the spec: [AssignmentVisitor] of
    [pandasai/helpers/node_visitors.py], which is not among the sources;
    it collects all simple-assignment nodes, ordered by source position. *)
Fixpoint assignment_nodes (n : node) : list assign :=
  let visit_all := fix visit_all (l : list node) : list assign :=
    match l with
    | [] => []
    | x :: r => assignment_nodes x ++ visit_all r
    end in
  match n with
  | Module_ body => visit_all body
  | Assign ln tg v =>
      {| lineno := ln; targets := tg; value := v |}
        :: visit_all tg ++ assignment_nodes v
  | Expr v => assignment_nodes v
  | Compare _ l _ comparators => assignment_nodes l ++ visit_all comparators
  | Subscript v s => assignment_nodes v ++ assignment_nodes s
  | Call f args => assignment_nodes f ++ visit_all args
  | Attribute v _ => assignment_nodes v
  | Name _ => []
  | Constant _ => []
  | Other children => visit_all children
  end.

(** [sorted(assignments, key=lambda node: node.lineno)]: a stable sort. *)
Fixpoint insert_by_lineno (a : assign) (l : list assign) : list assign :=
  match l with
  | [] => [a]
  | b :: r =>
      if (lineno a <=? lineno b)%Z then a :: b :: r
      else b :: insert_by_lineno a r
  end.

Fixpoint sorted_by_lineno (l : list assign) : list assign :=
  match l with
  | [] => []
  | a :: r => insert_by_lineno a (sorted_by_lineno r)
  end.

(** The nodes of a tree in source order: a node before its children, the
    children from left to right. *)
Fixpoint preorder (n : node) : list node :=
  let visit_all := fix visit_all (l : list node) : list node :=
    match l with
    | [] => []
    | x :: r => preorder x ++ visit_all r
    end in
  n ::
  match n with
  | Module_ body => visit_all body
  | Assign _ tg v => visit_all tg ++ preorder v
  | Expr v => preorder v
  | Compare _ l _ comparators => preorder l ++ visit_all comparators
  | Subscript v s => preorder v ++ preorder s
  | Call f args => preorder f ++ visit_all args
  | Attribute v _ => preorder v
  | Name _ => []
  | Constant _ => []
  | Other children => visit_all children
  end.

(** The number of (operator, right operand) pairs of the comparisons among
    [nodes] whose left operand is a subscript. *)
Fixpoint pair_count (nodes : list node) : nat :=
  match nodes with
  | [] => 0
  | Compare _ (Subscript _ _) ops comparators :: rest =>
      List.length (combine ops comparators) + pair_count rest
  | _ :: rest => pair_count rest
  end.

End PyAst.

(** ** Code execution stage ([pandasai/pipelines/chat/code_execution.py]) *)

Module CodeExecution.
Import PyStr Pandas PyAst.
Local Open Scope list_scope.

(** Exceptions of the stage; all of them derive from [Exception]. *)
Inductive exn : Type :=
| SyntaxError
| AttributeError
| ValueError
| IndexError
| TypeError
| KeyError (key : label)
| ImportError (msg : string)
| NoResultFoundError (msg : string)
| InvalidLLMOutputType (validation_errors : list string)
| InvalidOutputValueMismatch (msg : string)
| Exception (msg : string)
| RuntimeFailure (class_name msg : string).

Definition bind {A B : Type} (m : outcome exn A) (k : A -> outcome exn B)
  : outcome exn B :=
  match m with
  | Return a => k a
  | Raise e => Raise e
  end.

Notation "x <- m ;; k" := (bind m (fun x => k))
  (at level 61, m at next level, right associativity).

(** A filter: (left operand, operator, right operand). *)
Definition predicate : Type := pyval * string * pyval.

(** [defaultdict(list)], in insertion order. *)
Definition comparisons_t : Type := list (string * list predicate).

(** [comparisons[key].append(p)] *)
Fixpoint dd_append (key : string) (p : predicate) (d : comparisons_t) : comparisons_t :=
  match d with
  | [] => [(key, [p])]
  | (k, l) :: rest =>
      if String.eqb k key then (k, l ++ [p]) :: rest
      else (k, l) :: dd_append key p rest
  end.

(** [d.get(key, [])] *)
Fixpoint dict_get (key : string) (d : comparisons_t) : list predicate :=
  match d with
  | [] => []
  | (k, l) :: rest => if String.eqb k key then l else dict_get key rest
  end.

(** [_ast_comparator_map.get(type(op), "Unknown")] *)
Definition _ast_comparator_map (op : cmpop) : string :=
  match op with
  | Op.Eq => "="
  | Op.NotEq => "!="
  | Op.Lt => "<"
  | Op.LtE => "<="
  | Op.Gt => ">"
  | Op.GtE => ">="
  | Op.Is => "is"
  | Op.IsNot => "is not"
  | Op.In => "in"
  | Op.NotIn => "not in"
  end.

(** [_tokenize_operand], with the generator run to its end. *)
Fixpoint _tokenize_operand (operand_node : node) : outcome exn (list pyval) :=
  match operand_node with
  | Call func _ =>
      match func with
      | Attribute _ attr => Return [VConst (CStr attr)]
      | _ => Raise AttributeError
      end
  | Subscript v s =>
      match attr_value s with
      | None => Raise AttributeError
      | Some slice_ =>
          tokens <- _tokenize_operand v ;;
          Return (tokens ++ [slice_])
      end
  | Name id => Return [VConst (CStr id)]
  | Constant c => Return [VConst c]
  | _ => Return []
  end.

(** [name, *slices = tokens] *)
Definition unpack (tokens : list pyval) : outcome exn (pyval * list pyval) :=
  match tokens with
  | [] => Raise ValueError
  | name :: slices => Return (name, slices)
  end.

(** [slices[-1] if slices else name] *)
Definition last_token (name : pyval) (slices : list pyval) : pyval :=
  last slices name.

Section Extractor.

(** [ast.parse]: [None] when the text is not a Python program. *)
Variable ast_parse : string -> option node.

(** The text Python prints for a node object inside an f-string. *)
Variable node_repr : node -> string.

(** [f"{v}"] *)
Definition format_value (v : pyval) : string :=
  match v with
  | VConst (CInt n) => str_of_Z n
  | VConst (CStr s) => s
  | VConst (CBool true) => "True"
  | VConst (CBool false) => "False"
  | VConst CNone => "None"
  | VConst (CFloat r) => r
  | VNode n => node_repr n
  end.

(** [id == target_name] for the string [id]. *)
Definition str_eq_pyval (id : string) (v : pyval) : bool :=
  match v with
  | VConst (CStr s) => String.eqb id s
  | _ => false
  end.

Definition is_subscript_node (n : node) : bool :=
  match n with
  | Subscript _ _ => true
  | _ => false
  end.

(** The [try] block in the loop of [_get_df_id_by_nearest_assignment]:
    [Return (Some label)] when [nearest_assignment] is set to [label],
    [Return None] when it is left as it was. *)
Definition assignment_label (assignment : assign) (target_name : pyval)
  : outcome exn (option string) :=
  let is_subscript := is_subscript_node (value assignment) in
  match attr_value (value assignment) with
  | None => Raise AttributeError
  | Some vv =>
      match attr_id vv with
      | None => Raise AttributeError
      | Some right_id =>
          let dfs_on_the_right := String.eqb right_id "dfs" in
          match targets assignment with
          | [] => Raise IndexError
          | target0 :: _ =>
              match attr_id (VNode target0) with
              | None => Raise AttributeError
              | Some target_id =>
                  let assign_to_target := str_eq_pyval target_id target_name in
                  if is_subscript && dfs_on_the_right && assign_to_target
                  then
                    match value assignment with
                    | Subscript _ s =>
                        match attr_value s with
                        | None => Raise AttributeError
                        | Some sv => Return (Some ("dfs[" ++ format_value sv ++ "]")%string)
                        end
                    | _ => Return None
                    end
                  else Return None
              end
          end
      end
  end.

(** The loop of [_get_df_id_by_nearest_assignment] over the sorted
    assignments.  The function has no [return] after the loop, so the end
    of the list yields [None]. *)
Fixpoint nearest_assignment_loop (current_lineno : Z) (target_name : pyval)
    (assignments : list assign) (nearest_assignment : option string)
  : outcome exn (option string) :=
  match assignments with
  | [] => Return None
  | assignment :: rest =>
      if (lineno assignment >? current_lineno)%Z then Return nearest_assignment
      else
        match assignment_label assignment target_name with
        | Return (Some label) =>
            nearest_assignment_loop current_lineno target_name rest (Some label)
        | Return None =>
            nearest_assignment_loop current_lineno target_name rest nearest_assignment
        | Raise AttributeError =>
            nearest_assignment_loop current_lineno target_name rest nearest_assignment
        | Raise e => Raise e
        end
  end.

Definition _get_df_id_by_nearest_assignment (current_lineno : Z)
    (assignments : list assign) (target_name : pyval)
  : outcome exn (option string) :=
  nearest_assignment_loop current_lineno target_name
    (sorted_by_lineno assignments) None.

(** The inner loop of [_extract_comparisons] over [zip(ops, comparators)]. *)
Fixpoint append_pairs (current_df : string) (left_str : pyval)
    (pairs : list (cmpop * node)) (comparisons : comparisons_t)
  : outcome exn comparisons_t :=
  match pairs with
  | [] => Return comparisons
  | (op, rhs) :: rest =>
      let op_str := _ast_comparator_map op in
      tokens <- _tokenize_operand rhs ;;
      name_slices <- unpack tokens ;;
      let right_str := last_token (fst name_slices) (snd name_slices) in
      append_pairs current_df left_str rest
        (dd_append current_df (left_str, op_str, right_str) comparisons)
  end.

(** The body of the loop of [_extract_comparisons] for one comparison node
    whose left operand is a subscript: the new [current_df] and the new
    dictionary. *)
Definition handle_compare (assignments : list assign) (current_lineno : Z)
    (lhs : node) (ops : list cmpop) (comparators : list node)
    (comparisons : comparisons_t) (current_df : string)
  : outcome exn (comparisons_t * string) :=
  tokens <- _tokenize_operand lhs ;;
  name_slices <- unpack tokens ;;
  found <- _get_df_id_by_nearest_assignment current_lineno assignments (fst name_slices) ;;
  let current_df := match found with Some d => d | None => current_df end in
  let left_str := last_token (fst name_slices) (snd name_slices) in
  comparisons <- append_pairs current_df left_str (combine ops comparators) comparisons ;;
  Return (comparisons, current_df).

(** The loop of [_extract_comparisons] over the nodes [ast.walk] yields. *)
Fixpoint comparisons_loop (assignments : list assign) (nodes : list node)
    (comparisons : comparisons_t) (current_df : string)
  : outcome exn comparisons_t :=
  match nodes with
  | [] => Return comparisons
  | Compare ln (Subscript v s) ops comparators :: rest =>
      st <- handle_compare assignments ln (Subscript v s) ops comparators
              comparisons current_df ;;
      comparisons_loop assignments rest (fst st) (snd st)
  | _ :: rest => comparisons_loop assignments rest comparisons current_df
  end.

(** [_extract_comparisons]; the source also runs a [CallVisitor], whose
    result it does not use. *)
Definition _extract_comparisons (tree : node) : outcome exn comparisons_t :=
  let assignments := assignment_nodes tree in
  comparisons_loop assignments (walk tree) [] "dfs[0]".

Definition _extract_filters (code : string) : outcome exn comparisons_t :=
  match ast_parse code with
  | None => Raise SyntaxError
  | Some parsed_tree =>
      match _extract_comparisons parsed_tree with
      | Return filters => Return filters
      | Raise _ => Return []
      end
  end.

(** *** The attribution rule and the extraction, stated on lists *)

(** The slot an assignment binds [target_name] to, when it has the form
    [name = dfs[<i>]]. *)
Definition bound_slot (target_name : pyval) (a : assign) : option string :=
  match targets a, value a with
  | Name id :: _, Subscript (Name base) s =>
      if String.eqb base "dfs" && str_eq_pyval id target_name
      then
        match attr_value s with
        | Some sv => Some ("dfs[" ++ format_value sv ++ "]")%string
        | None => None
        end
      else None
  | _, _ => None
  end.

(** The last [Some] of a list, [default] when there is none. *)
Fixpoint last_some (l : list (option string)) (default : option string)
  : option string :=
  match l with
  | [] => default
  | Some x :: r => last_some r (Some x)
  | None :: r => last_some r default
  end.

(** The slot of the nearest assignment [name = dfs[<i>]] at or before the
    line [current_lineno]; among the assignments in line order the most
    recent one wins. *)
Definition nearest_binding (current_lineno : Z) (target_name : pyval)
    (assignments : list assign) : option string :=
  last_some
    (map (bound_slot target_name)
       (filter (fun a => (lineno a <=? current_lineno)%Z)
          (sorted_by_lineno assignments)))
    None.

(** The predicates of one comparison, in the order of its operators. *)
Fixpoint pair_predicates (left_str : pyval) (pairs : list (cmpop * node))
  : outcome exn (list predicate) :=
  match pairs with
  | [] => Return []
  | (op, rhs) :: rest =>
      tokens <- _tokenize_operand rhs ;;
      name_slices <- unpack tokens ;;
      more <- pair_predicates left_str rest ;;
      Return ((left_str, _ast_comparator_map op,
               last_token (fst name_slices) (snd name_slices)) :: more)
  end.

(** The predicates of one node: those of a comparison whose left operand
    is a subscript, none for any other node. *)
Definition predicates_of_node (n : node) : list predicate :=
  match n with
  | Compare _ (Subscript v s) ops comparators =>
      match _tokenize_operand (Subscript v s) with
      | Return (name :: slices) =>
          match pair_predicates (last_token name slices)
                  (combine ops comparators) with
          | Return predicates => predicates
          | Raise _ => []
          end
      | _ => []
      end
  | _ => []
  end.

(** The predicates of the comparisons among [nodes] whose left operand is
    a subscript, each with the slot it is attributed to, in the order of
    [nodes]. *)
Fixpoint emitted_loop (assignments : list assign) (nodes : list node)
    (current_df : string) : outcome exn (list (string * predicate)) :=
  match nodes with
  | [] => Return []
  | Compare ln (Subscript v s) ops comparators :: rest =>
      tokens <- _tokenize_operand (Subscript v s) ;;
      name_slices <- unpack tokens ;;
      found <- _get_df_id_by_nearest_assignment ln assignments (fst name_slices) ;;
      let current_df := match found with Some d => d | None => current_df end in
      let left_str := last_token (fst name_slices) (snd name_slices) in
      predicates <- pair_predicates left_str (combine ops comparators) ;;
      more <- emitted_loop assignments rest current_df ;;
      Return (map (pair current_df) predicates ++ more)
  | _ :: rest => emitted_loop assignments rest current_df
  end.

(** The attributed predicates of a tree in the order of [ast.walk]. *)
Definition emitted_predicates (tree : node) : outcome exn (list (string * predicate)) :=
  emitted_loop (assignment_nodes tree) (walk tree) "dfs[0]".

(** The attributed predicates of a tree in source order. *)
Definition source_order_predicates (tree : node)
  : outcome exn (list (string * predicate)) :=
  emitted_loop (assignment_nodes tree) (preorder tree) "dfs[0]".

End Extractor.

(** *** The stage itself *)

Record Config : Type := {
  max_retries : Z;
  use_error_correction_framework : bool;
  direct_sql : bool
}.

Section Stage.

(** Dataset handles ([BaseConnector] objects) and materialized tables. *)
Variable connector : Type.
Variable dataframe : Type.

(** Everything outside the stage that calls can read and change: the data
    behind the connectors, the language model behind the repair callback,
    the objects a snippet touches. *)
Variable world : Type.

Variable ast_parse : string -> option node.
Variable node_repr : node -> string.

(** The value bound to [result] by a snippet: a dictionary with the keys
    [type] and [value]. *)
Inductive value_t : Type :=
| VInt (n : Z)
| VFloat (repr : string)
| VStr (s : string)
| VDataFrame (d : dataframe)
| VObject (class_name : string).

Record result_t : Type := {
  type : string;
  value : value_t
}.

(** [f"{type(v)}"] *)
Definition type_repr (v : value_t) : string :=
  ("<class '" ++
   match v with
   | VInt _ => "int"
   | VFloat _ => "float"
   | VStr _ => "str"
   | VDataFrame _ => "pandas.core.frame.DataFrame"
   | VObject c => c
   end ++ "'>")%string.

(** What a name of the namespace handed to [exec] is bound to: an object
    that [get_environment] has put there, the list of tables, one table,
    the direct query method of a connector, or the skill the skills
    manager gives for a function name. *)
Inductive env_value : Type :=
| EObject (name : string)
| EDfs (tables : list (option dataframe))
| EDf (table : option dataframe)
| EExecuteSqlQuery (df : connector)
| ESkill (func_name : string).

(** The namespace handed to [exec]: a dictionary, in insertion order. *)
Definition environment : Type := list (string * env_value).

(** [environment[key] = v] *)
Fixpoint env_set (key : string) (v : env_value) (env : environment)
  : environment :=
  match env with
  | [] => [(key, v)]
  | (k0, v0) :: rest =>
      if String.eqb k0 key then (k0, v) :: rest
      else (k0, v0) :: env_set key v rest
  end.

(** [environment.get(key)] *)
Fixpoint env_get (key : string) (env : environment) : option env_value :=
  match env with
  | [] => None
  | (k0, v0) :: rest => if String.eqb k0 key then Some v0 else env_get key rest
  end.

(** The loop that adds the used skills to the namespace. *)
Definition add_skills (used_skills : list string) (env : environment)
  : environment :=
  fold_left (fun env skill_func_name =>
               env_set skill_func_name (ESkill skill_func_name) env)
    used_skills env.

(** [get_environment] of [pandasai/helpers/optional.py], which is not
    among the sources: the base namespace for the additional
    dependencies; importing a dependency can fail. *)
Variable get_environment : list string -> outcome exn environment.

(** Columns of [df.pandas_df] with their dtype. *)
Variable columns : connector -> frame.

(** [df.execute()] followed by [df.pandas_df], under the filters set on the
    connector. *)
Variable materialize :
  connector -> list predicate -> world -> outcome exn dataframe * world.

(** [exec(code, environment)]: raises, or leaves [environment["result"]]
    bound ([Some]) or unbound ([None]). *)
Variable exec :
  string -> environment -> world -> outcome exn (option result_t) * world.

(** [OutputValidator.validate] and [OutputValidator.validate_result] of
    [pandasai/helpers/output_validator.py], which is not among the
    sources. *)
Variable validate : string -> result_t -> bool * list string.
Variable validate_result : result_t -> bool.

(** [ResponseSerializer.serialize] of
    [pandasai/responses/response_serializer.py], which is not among the
    sources; it can read files and can raise. *)
Variable serialized : Type.
Variable serialize : option result_t -> world -> outcome exn serialized * world.

(** [traceback.format_exc()] while the exception is handled. *)
Variable format_exc : exn -> string.

Record PipelineContext : Type := {
  dfs : list connector;
  enforce_grouping : bool;
  config : Config;
  (* intermediate values read by the stage *)
  additional_dependencies : list string;
  current_code_executed : string;
  output_type : option string;
  used_skills : list string
}.

(** The stage object: the two callbacks and the context of the call.
    [on_failure] tells whether the notification hook is supplied; the hook
    only observes. *)
Record CodeExecution : Type := {
  on_failure : bool;
  on_retry : option (string -> exn -> world -> outcome exn string * world);
  context : PipelineContext
}.

(** What the stage does, in order. *)
Inductive event : Type :=
| EvGroupingCheckFailed (code : string)
| EvExecuteCode (code : string)
| EvExtractFilters (code : string)
| EvSetAdditionalFilters (index : nat) (df : connector) (filters : list predicate)
| EvExecute (index : nat) (df : connector)
| EvExec (code : string) (env : environment)
| EvLogFailure (code : string) (e : exn)
| EvOnFailure (code : string) (traceback_errors : string)
| EvLogRetry (retry_count : Z)
| EvOnRetry (code : string) (e : exn).

(** Computations of the stage: they change the world, leave a trace and
    return or raise. *)
Definition M (A : Type) : Type := world -> outcome exn A * world * list event.

Definition ret {A : Type} (a : A) : M A := fun w => (Return a, w, []).

Definition raise {A : Type} (e : exn) : M A := fun w => (Raise e, w, []).

Definition emit (ev : event) : M unit := fun w => (Return tt, w, [ev]).

Definition lift {A : Type} (o : outcome exn A) : M A := fun w => (o, w, []).

Definition bindM {A B : Type} (m : M A) (k : A -> M B) : M B :=
  fun w =>
    match m w with
    | (Return a, w1, t1) =>
        match k a w1 with
        | (r, w2, t2) => (r, w2, t1 ++ t2)
        end
    | (Raise e, w1, t1) => (Raise e, w1, t1)
    end.

Notation "x <~ m ;; k" := (bindM m (fun x => k))
  (at level 61, m at next level, right associativity).
Notation "m ;;; k" := (bindM m (fun _ => k))
  (at level 61, right associativity).

Definition slot_label (index : nat) : string :=
  ("dfs[" ++ str_of_nat index ++ "]")%string.

(** The loop of [_required_dfs]. *)
Fixpoint required_loop (code : string) (i : nat) (l : list connector)
  : list (option connector) :=
  match l with
  | [] => []
  | df :: rest =>
      (if py_in (slot_label i) code then Some df else None)
        :: required_loop code (S i) rest
  end.

Definition _required_dfs (self : CodeExecution) (code : string)
  : list (option connector) :=
  let _dfs := dfs (context self) in
  if py_in "for df in dfs" code || py_in "pd.concat(dfs" code
  then map Some _dfs
  else
    match required_loop code 0 _dfs with
    | [] => map Some _dfs
    | required_dfs => required_dfs
    end.

(** The loop of [_get_originals]; [index] is the position [enumerate]
    gives to the head of [l]. *)
Fixpoint originals_loop (self : CodeExecution) (index : nat)
    (l : list (option connector)) : M (list (option dataframe)) :=
  match l with
  | [] => ret []
  | None :: rest =>
      original_dfs <~ originals_loop self (S index) rest ;;
      ret (None :: original_dfs)
  | Some df :: rest =>
      let code := current_code_executed (context self) in
      emit (EvExtractFilters code) ;;;
      extracted_filters <~ lift (_extract_filters ast_parse node_repr code) ;;
      let filters := dict_get (slot_label index) extracted_filters in
      emit (EvSetAdditionalFilters index df filters) ;;;
      emit (EvExecute index df) ;;;
      pandas_df <~ (fun w => let (o, w1) := materialize df filters w in (o, w1, [])) ;;
      original_dfs <~ originals_loop self (S index) rest ;;
      ret (Some pandas_df :: original_dfs)
  end.

Definition _get_originals (self : CodeExecution) (l : list (option connector))
  : M (list (option dataframe)) :=
  originals_loop self 0 l.

(** The namespace with [dfs] and, for a single table, [df]. *)
Definition with_tables (originals : list (option dataframe))
    (env : environment) : environment :=
  let env := env_set "dfs" (EDfs originals) env in
  match originals with
  | [d] => env_set "df" (EDf d) env
  | _ => env
  end.

Definition execute_code (self : CodeExecution) (code : string) : M result_t :=
  emit (EvExecuteCode code) ;;;
  let required := _required_dfs self code in
  environment <~ lift (get_environment (additional_dependencies (context self))) ;;
  originals <~ _get_originals self required ;;
  let environment := with_tables originals environment in
  environment <~ (if direct_sql (config (context self))
                  then match dfs (context self) with
                       | [] => raise IndexError
                       | df0 :: _ =>
                           ret (env_set "execute_sql_query"
                                  (EExecuteSqlQuery df0) environment)
                       end
                  else ret environment) ;;
  let environment := add_skills (used_skills (context self)) environment in
  emit (EvExec code environment) ;;;
  bound <~ (fun w => let (o, w1) := exec code environment w in (o, w1, [])) ;;
  match bound with
  | None => raise (NoResultFoundError "No result returned")
  | Some result => ret result
  end.

(** The inner loop of the grouping check, over the labels [cols] of the
    table [f]: [df.pandas_df[col].dtype == 'object'], and then
    ["'" + col + "'" in code_to_run], which needs a string. *)
Fixpoint grouping_columns (code_to_run : string) (f : frame)
    (cols : list (label * string)) (exc : string) : outcome exn string :=
  match cols with
  | [] => Return exc
  | c :: rest =>
      match dtype_of f (fst c) with
      | NoColumn => Raise (KeyError (fst c))
      | SeveralColumns => Raise AttributeError
      | Dtype d =>
          if String.eqb d "object" then
            match fst c with
            | LStr col =>
                grouping_columns code_to_run f rest
                  (if py_in ("'" ++ col ++ "'")%string code_to_run
                   then (exc ++ "'" ++ col ++ "', ")%string
                   else exc)
            | LObj _ => Raise TypeError
            end
          else grouping_columns code_to_run f rest exc
      end
  end.

(** The outer loop, over the datasets. *)
Fixpoint grouping_datasets (code_to_run : string) (l : list connector)
    (exc : string) : outcome exn string :=
  match l with
  | [] => Return exc
  | df :: rest =>
      exc <- grouping_columns code_to_run (columns df) (columns df) exc ;;
      grouping_datasets code_to_run rest exc
  end.

(** The message of the grouping check, or the error of building it. *)
Definition grouping_message (self : CodeExecution) (code_to_run : string)
  : outcome exn string :=
  grouping_datasets code_to_run (dfs (context self))
    "groupby() statement is missing. Group the data by "%string.

Definition mismatch_message (result : result_t) : string :=
  ("Value type " ++ type_repr (value result) ++
   " must match with type " ++ type result)%string.

(** The body of the [try] block of [execute]: one attempt. *)
Definition attempt (self : CodeExecution) (code_to_run : string) : M result_t :=
  if enforce_grouping (context self) && negb (py_in ".groupby" code_to_run)
  then
    emit (EvGroupingCheckFailed code_to_run) ;;;
    exc <~ lift (grouping_message self code_to_run) ;;
    raise (Exception exc)
  else
    result <~ execute_code self code_to_run ;;
    (match output_type (context self) with
     | Some output_helper =>
         if String.eqb output_helper "" then ret tt
         else
           let (validation_ok, validation_errors) := validate output_helper result in
           if validation_ok then ret tt
           else raise (InvalidLLMOutputType validation_errors)
     | None => ret tt
     end) ;;;
    if validate_result result then ret result
    else raise (InvalidOutputValueMismatch (mismatch_message result)).

Definition _retry_run_code (self : CodeExecution) (code : string) (e : exn)
  : M string :=
  match on_retry self with
  | Some callback =>
      emit (EvOnRetry code e) ;;;
      (fun w => let (o, w1) := callback code e w in (o, w1, []))
  | None => raise e
  end.

(** The start of the [except] block of [execute]: logging and the
    notification hook. *)
Definition report_failure (self : CodeExecution) (code_to_run : string) (e : exn)
  : list event :=
  EvLogFailure code_to_run e ::
  (if on_failure self then [EvOnFailure code_to_run (format_exc e)] else []).

(** The [while] loop of [execute].  Each turn of the loop uses one unit of
    [fuel]; [None] means the fuel ran out.  A result [Return None] is the
    loop left without any attempt, with [result] still [None]. *)
Fixpoint execute_loop (self : CodeExecution) (fuel : nat) (retry_count : Z)
    (code_to_run : string) (w : world)
  : option (outcome exn (option result_t) * world * list event) :=
  match fuel with
  | O => None
  | S fuel' =>
      let cfg := config (context self) in
      if (retry_count <=? max_retries cfg)%Z then
        match attempt self code_to_run w with
        | (Return result, w1, t1) => Some (Return (Some result), w1, t1)
        | (Raise e, w1, t1) =>
            let t2 := t1 ++ report_failure self code_to_run e in
            if negb (use_error_correction_framework cfg)
               || (retry_count >=? max_retries cfg)%Z
            then Some (Raise e, w1, t2)
            else
              let retry_count := (retry_count + 1)%Z in
              let t3 := t2 ++ [EvLogRetry retry_count] in
              match _retry_run_code self code_to_run e w1 with
              | (Raise e', w2, t4) => Some (Raise e', w2, t3 ++ t4)
              | (Return code', w2, t4) =>
                  match execute_loop self fuel' retry_count code' w2 with
                  | None => None
                  | Some (r, w3, t5) => Some (r, w3, t3 ++ t4 ++ t5)
                  end
              end
        end
      else Some (Return None, w, [])
  end.

(** What [execute] returns: the arguments of [LogicUnitOutput], the
    dictionary of the fourth one with its two keys. *)
Record LogicUnitOutput : Type := {
  output : option result_t;
  success : bool;
  message : string;
  metadata_content_type : string;
  metadata_value : serialized;
  final_track_output : bool
}.

Definition logic_unit_output (result : option result_t) (v : serialized)
  : LogicUnitOutput :=
  {| output := result;
     success := true;
     message := "Code Executed Successfully";
     metadata_content_type := "response";
     metadata_value := v;
     final_track_output := true |}.

(** The end of [execute], after the loop: the result is serialized and
    wrapped; this is outside the [try], so an error of the serializer
    leaves the stage. *)
Definition finish
    (run : option (outcome exn (option result_t) * world * list event))
  : option (outcome exn LogicUnitOutput * world * list event) :=
  match run with
  | None => None
  | Some (Raise e, w1, t) => Some (Raise e, w1, t)
  | Some (Return result, w1, t) =>
      match serialize result w1 with
      | (Return v, w2) => Some (Return (logic_unit_output result v), w2, t)
      | (Raise e, w2) => Some (Raise e, w2, t)
      end
  end.

(** [CodeExecution.execute]; the fuel is enough for every turn the loop can
    take. *)
Definition execute (self : CodeExecution) (input : string) (w : world)
  : option (outcome exn LogicUnitOutput * world * list event) :=
  finish
    (execute_loop self (S (Z.to_nat (max_retries (config (context self)) + 1)))
       0 input w).

(** Calls of the sandbox: [execute_code], or the grouping check that
    stands in front of it. *)
Definition is_sandbox_invocation (ev : event) : bool :=
  match ev with
  | EvGroupingCheckFailed _ => true
  | EvExecuteCode _ => true
  | _ => false
  end.

Definition sandbox_invocations (t : list event) : nat :=
  List.length (filter is_sandbox_invocation t).

(** The exception of the last failure the stage logged. *)
Fixpoint last_failure (t : list event) : option exn :=
  match t with
  | [] => None
  | ev :: rest =>
      match last_failure rest with
      | Some e => Some e
      | None =>
          match ev with
          | EvLogFailure _ e => Some e
          | _ => None
          end
      end
  end.

End Stage.

Arguments VInt {dataframe} n.
Arguments VFloat {dataframe} repr.
Arguments VStr {dataframe} s.
Arguments VDataFrame {dataframe} d.
Arguments VObject {dataframe} class_name.
Arguments type {dataframe} r.
Arguments value {dataframe} r.
Arguments type_repr {dataframe} v.
Arguments mismatch_message {dataframe} result.
Arguments dfs {connector} p.
Arguments enforce_grouping {connector} p.
Arguments config {connector} p.
Arguments additional_dependencies {connector} p.
Arguments current_code_executed {connector} p.
Arguments output_type {connector} p.
Arguments used_skills {connector} p.
Arguments on_failure {connector world} c.
Arguments on_retry {connector world} c.
Arguments context {connector world} c.
Arguments EvGroupingCheckFailed {connector dataframe} code.
Arguments EvExecuteCode {connector dataframe} code.
Arguments EvExtractFilters {connector dataframe} code.
Arguments EvSetAdditionalFilters {connector dataframe} index df filters.
Arguments EvExecute {connector dataframe} index df.
Arguments EvExec {connector dataframe} code env.
Arguments EvLogFailure {connector dataframe} code e.
Arguments EvOnFailure {connector dataframe} code traceback_errors.
Arguments EvLogRetry {connector dataframe} retry_count.
Arguments EvOnRetry {connector dataframe} code e.
Arguments ret {connector dataframe world A} a _.
Arguments raise {connector dataframe world A} e _.
Arguments emit {connector dataframe world} ev _.
Arguments lift {connector dataframe world A} o _.
Arguments bindM {connector dataframe world A B} m k _.
Arguments required_loop {connector} code i l.
Arguments _required_dfs {connector world} self code.
Arguments originals_loop {connector dataframe world} ast_parse node_repr materialize self index l _.
Arguments _get_originals {connector dataframe world} ast_parse node_repr materialize self l _.
Arguments EObject {connector dataframe} name.
Arguments EDfs {connector dataframe} tables.
Arguments EDf {connector dataframe} table.
Arguments EExecuteSqlQuery {connector dataframe} df.
Arguments ESkill {connector dataframe} func_name.
Arguments env_set {connector dataframe} key v env.
Arguments env_get {connector dataframe} key env.
Arguments add_skills {connector dataframe} used_skills env.
Arguments with_tables {connector dataframe} originals env.
Arguments execute_code {connector dataframe world} ast_parse node_repr get_environment materialize exec self code _.
Arguments grouping_datasets {connector} columns code_to_run l exc.
Arguments grouping_message {connector world} columns self code_to_run.
Arguments attempt {connector dataframe world} ast_parse node_repr get_environment columns materialize exec validate validate_result self code_to_run _.
Arguments _retry_run_code {connector dataframe world} self code e _.
Arguments report_failure {connector dataframe world} format_exc self code_to_run e.
Arguments execute_loop {connector dataframe world} ast_parse node_repr get_environment columns materialize exec validate validate_result format_exc self fuel retry_count code_to_run w.
Arguments output {dataframe serialized} l.
Arguments success {dataframe serialized} l.
Arguments message {dataframe serialized} l.
Arguments metadata_content_type {dataframe serialized} l.
Arguments metadata_value {dataframe serialized} l.
Arguments final_track_output {dataframe serialized} l.
Arguments logic_unit_output {dataframe serialized} result v.
Arguments finish {connector dataframe world serialized} serialize run.
Arguments execute {connector dataframe world} ast_parse node_repr get_environment columns materialize exec validate validate_result {serialized} serialize format_exc self input w.
Arguments is_sandbox_invocation {connector dataframe} ev.
Arguments sandbox_invocations {connector dataframe} t.
Arguments last_failure {connector dataframe} t.

(** *** Output validator *)

(** Modelled from the spec: [OutputValidator.validate_result] of
    [pandasai/helpers/output_validator.py], which is not among the
    sources; the value of a result must be shape-consistent with its own
    type tag: a number is a numeric scalar, a string is text, a dataframe
    carries a table, a plot is the reference to a file. *)
Definition validate_result_spec {dataframe : Type} (result : result_t dataframe)
  : bool :=
  if String.eqb (type result) "number" then
    match value result with VInt _ | VFloat _ => true | _ => false end
  else if String.eqb (type result) "string" then
    match value result with VStr _ => true | _ => false end
  else if String.eqb (type result) "dataframe" then
    match value result with VDataFrame _ => true | _ => false end
  else if String.eqb (type result) "plot" then
    match value result with VStr _ => true | _ => false end
  else false.

(** Modelled from the spec: [OutputValidator.validate] of the same file;
    the type tag of the result must be compatible with the hint: a numeric
    hint requires a scalar numeric result, a dataframe hint a table-shaped
    result, a plot hint a file reference, and a string hint accepts any
    result. *)
Definition validate_spec {dataframe : Type} (expected_type : string)
    (result : result_t dataframe) : bool * list string :=
  let ok :=
    if String.eqb expected_type "number" then
      String.eqb (type result) "number" &&
      match value result with VInt _ | VFloat _ => true | _ => false end
    else if String.eqb expected_type "dataframe" then
      String.eqb (type result) "dataframe" &&
      match value result with VDataFrame _ => true | _ => false end
    else if String.eqb expected_type "plot" then
      String.eqb (type result) "plot" &&
      match value result with VStr _ => true | _ => false end
    else true in
  (ok,
   if ok then []
   else [("The result does not match the expected type '" ++ expected_type ++ "'.")%string]).

End CodeExecution.

(** * Properties *)

(** ** Strings *)

Module PyStrFacts.
Import PyStr.

(** [sub] occurs in [s]. *)
Definition occurs (sub s : string) : Prop :=
  exists pre post, s = pre ++ sub ++ post.

Lemma prefix_app (p s : string) :
  prefix p s = true <-> exists t, s = p ++ t.
Proof.
  revert s; induction p as [|c p IH]; intros s; simpl.
  - split; [intros _; exists s; reflexivity | destruct s; reflexivity].
  - destruct s as [|d s]; simpl.
    + split; [discriminate | intros [t H]; discriminate].
    + destruct (ascii_dec c d) as [->|Hne].
      * rewrite IH. split; intros [t H]; exists t.
        -- now rewrite H.
        -- now inversion H.
      * split; [discriminate | intros [t H]; inversion H; congruence].
Qed.

(** [py_in] decides the substring relation. *)
Lemma py_in_spec (sub s : string) : py_in sub s = true <-> occurs sub s.
Proof.
  unfold occurs. induction s as [|c s IH]; cbn [py_in].
  - rewrite orb_false_r. rewrite prefix_app. split.
    + intros [t H]. exists EmptyString, t. exact H.
    + intros [pre [post H]]. destruct pre; simpl in H.
      * exists post; exact H.
      * discriminate.
  - rewrite orb_true_iff, IH. split.
    + intros [H | [pre [post H]]].
      * destruct (proj1 (prefix_app sub (String c s)) H) as [t Ht].
        exists EmptyString, t. exact Ht.
      * exists (String c pre), post. simpl. now rewrite H.
    + intros [pre [post H]]. destruct pre as [|d pre]; simpl in H.
      * left. apply prefix_app. exists post. exact H.
      * right. inversion H. exists pre, post. reflexivity.
Qed.

Lemma append_nil_r (s : string) : s ++ EmptyString = s.
Proof. induction s as [|c s IH]; simpl; [|rewrite IH]; reflexivity. Qed.

Lemma append_assoc (a b c : string) : (a ++ b) ++ c = a ++ (b ++ c).
Proof. induction a as [|x a IH]; simpl; [|rewrite IH]; reflexivity. Qed.

Lemma occurs_suffix (a sub : string) : occurs sub (a ++ sub).
Proof. exists a, EmptyString. now rewrite append_nil_r. Qed.

Lemma occurs_app_r (a sub s : string) : occurs sub s -> occurs sub (a ++ s).
Proof.
  intros [pre [post H]]. exists (a ++ pre), post.
  now rewrite H, append_assoc.
Qed.

Lemma occurs_prefix (sub b : string) : occurs sub (sub ++ b).
Proof. exists EmptyString, b. reflexivity. Qed.

Lemma py_in_false_spec (sub s : string) : py_in sub s = false <-> ~ occurs sub s.
Proof.
  rewrite <- py_in_spec. destruct (py_in sub s); split; congruence.
Qed.

End PyStrFacts.

(** ** Security screen *)

Module AgentFacts.
Import PyStr PyStrFacts Pandas Agent.

Lemma check_malicious_spec (query : string) :
  check_malicious_keywords_in_query query = true <->
  exists module, In module dangerous_modules /\ occurs module query.
Proof.
  unfold check_malicious_keywords_in_query. rewrite existsb_exists.
  split; intros [m [Hin H]]; exists m; split; auto; now apply py_in_spec.
Qed.

(** A query is rejected by the screen when a denylist entry occurs in it or
    the supplied policy evaluator calls it unsafe. *)
Definition rejected {R : Type} (a : agent R) (query : string) : Prop :=
  (exists module, In module dangerous_modules /\ occurs module query) \/
  (exists evaluate, security a = Some evaluate /\ evaluate query = true).

(** The column scan at the start of [chat]. *)
Definition column_scan {R : Type} (a : agent R) : outcome exn string :=
  describe_columns 0 (dfs a) EmptyString.

Lemma chat_body_rejects {R : Type} (a : agent R) (run : pipeline_t R)
    (prompt_id query : string) (enforce_grouping : bool)
    (output_type : option string) :
  rejected a query ->
  exists e t,
    chat_body a run prompt_id query enforce_grouping output_type
      = (Raise e, t) /\
    pipeline_runs t = 0 /\
    (forall columns, column_scan a = Return columns ->
       exists msg, e = MaliciousQueryError msg) /\
    (forall e', column_scan a = Raise e' -> e = e').
Proof.
  intros Hrej. unfold chat_body, column_scan.
  destruct (describe_columns 0 (dfs a) EmptyString) as [columns|e0].
  - destruct (check_malicious_keywords_in_query query) eqn:Hk.
    + eexists _, _. split; [reflexivity|]. split; [reflexivity|].
      split; [intros _ _; eexists; reflexivity | intros e' H; discriminate].
    + destruct Hrej as [Hd | [ev [Hs He]]].
      * apply check_malicious_spec in Hd. congruence.
      * rewrite Hs, He. eexists _, _. split; [reflexivity|].
        split; [reflexivity|].
        split; [intros _ _; eexists; reflexivity | intros e' H; discriminate].
  - exists e0, [Log ("Question: " ++ query)]. split; [reflexivity|].
    split; [reflexivity|].
    split; [intros c H; discriminate | intros e' H; now inversion H].
Qed.


(** An agent with a pipeline that answers every query, and no evaluator. *)
Definition plain_agent : agent unit :=
  {| pipeline := Some (fun _ _ => Return tt);
     security := None;
     dfs := [[(LStr "loan_status", "object"); (LStr "age", "int64")]];
     llm_type := "openai" |}.

Lemma import_os_rejected : rejected plain_agent "import os".
Proof.
  left. exists " os". split.
  - simpl. auto.
  - exists "import", EmptyString. reflexivity.
Qed.



End AgentFacts.

(** ** Query cache *)

Module PgCacheFacts.
Import PyStr PgCache.

(** A row answers a key: the key has at least three parts between its
    ["~"], the row has [bad_code] null, and its data source, dataframe
    hash and normalized question are the first three parts, the third
    without its [### QUERY] prefix. *)
Definition answers (key : string) (r : row) : Prop :=
  exists p0 p1 p2 rest,
    split "~" key = p0 :: p1 :: p2 :: rest /\
    data_source r = p0 /\
    dataframe_hash r = p1 /\
    normalized_question r = replace query_prefix EmptyString p2 /\
    bad_code r = None.

Lemma selected_spec (p0 p1 question : string) (r : row) :
  selected p0 p1 question r = true <->
  data_source r = p0 /\ dataframe_hash r = p1 /\
  normalized_question r = question /\ bad_code r = None.
Proof.
  unfold selected. rewrite !andb_true_iff, !String.eqb_eq.
  destruct (bad_code r); intuition congruence.
Qed.


Definition one_row : table :=
  [ {| data_source := "loans"; dataframe_hash := "h1";
       normalized_question := "how many loans";
       code_executed := Some "result = 1"; bad_code := None |} ].



End PgCacheFacts.

(** ** Code execution stage *)

Module StageFacts.
Import PyStr PyStrFacts Pandas PyAst CodeExecution.
Local Open Scope list_scope.

(** The snippet uses all datasets: a loop over the collection or a
    concatenation of it. *)
Definition all_datasets_idiom (code : string) : Prop :=
  occurs "for df in dfs" code \/ occurs "pd.concat(dfs" code.

Section Facts.

Context {connector dataframe world serialized : Type}.
Variable ast_parse : string -> option node.
Variable node_repr : node -> string.
Variable get_environment :
  list string -> outcome exn (environment connector dataframe).
Variable columns : connector -> frame.
Variable materialize :
  connector -> list predicate -> world -> outcome exn dataframe * world.
Variable exec :
  string -> environment connector dataframe -> world ->
  outcome exn (option (result_t dataframe)) * world.
Variable validate : string -> result_t dataframe -> bool * list string.
Variable validate_result : result_t dataframe -> bool.
Variable serialize :
  option (result_t dataframe) -> world -> outcome exn serialized * world.
Variable format_exc : exn -> string.

Local Abbreviation stage := (CodeExecution connector world).
Local Abbreviation trace := (list (event connector dataframe)).
Local Abbreviation get_originals := (_get_originals ast_parse node_repr materialize).
Local Abbreviation loop_originals := (originals_loop ast_parse node_repr materialize).
Local Abbreviation run_code :=
  (execute_code ast_parse node_repr get_environment materialize exec).
Local Abbreviation run_attempt :=
  (attempt ast_parse node_repr get_environment columns materialize exec
     validate validate_result).
Local Abbreviation report :=
  (report_failure (dataframe := dataframe) format_exc).
Local Abbreviation retry_run_code :=
  (_retry_run_code (dataframe := dataframe)).
Local Abbreviation run_loop :=
  (execute_loop ast_parse node_repr get_environment columns materialize exec
     validate validate_result format_exc).
Local Abbreviation run_execute :=
  (execute ast_parse node_repr get_environment columns materialize exec
     validate validate_result serialize format_exc).
Local Abbreviation finished := (finish (connector := connector) serialize).

(** *** Traces of monadic computations *)

Lemma bindM_trace_in {A B : Type} (m : M connector dataframe world A)
    (k : A -> M connector dataframe world B) (w : world)
    (ev : event connector dataframe) :
  In ev (snd (bindM m k w)) ->
  In ev (snd (m w)) \/
  exists a w1 t1, m w = (Return a, w1, t1) /\ In ev (snd (k a w1)).
Proof.
  unfold bindM. destruct (m w) as [[[a|e] w1] t1]; simpl.
  - destruct (k a w1) as [[r w2] t2] eqn:Hk. simpl. intros H.
    apply in_app_or in H. destruct H as [H|H]; [left; exact H|].
    right. exists a, w1, t1. split; [reflexivity|]. rewrite Hk. exact H.
  - intros H. left. exact H.
Qed.

Lemma idiom_spec (code : string) :
  py_in "for df in dfs" code || py_in "pd.concat(dfs" code = true
  <-> all_datasets_idiom code.
Proof.
  unfold all_datasets_idiom. rewrite orb_true_iff, !py_in_spec. reflexivity.
Qed.

(** *** Required datasets *)

Lemma required_loop_length (code : string) (l : list connector) (i0 : nat) :
  List.length (required_loop code i0 l) = List.length l.
Proof.
  revert i0; induction l as [|df l IH]; intros i0; simpl; [reflexivity|].
  now rewrite IH.
Qed.

Lemma required_loop_nth (code : string) (l : list connector) (i0 i : nat)
    (df : connector) :
  nth_error l i = Some df ->
  nth_error (required_loop code i0 l) i
    = Some (if py_in (slot_label (i0 + i)) code then Some df else None).
Proof.
  revert i0 i; induction l as [|d l IH]; intros i0 i H.
  - destruct i; discriminate.
  - destruct i as [|i]; simpl in *.
    + inversion H; subst. now rewrite Nat.add_0_r.
    + rewrite (IH (S i0) i H). now rewrite Nat.add_succ_r.
Qed.

Lemma required_dfs_no_idiom (self : stage) (code : string) :
  py_in "for df in dfs" code || py_in "pd.concat(dfs" code = false ->
  _required_dfs self code = required_loop code 0 (dfs (context self)).
Proof.
  intros H. unfold _required_dfs. rewrite H.
  destruct (dfs (context self)) as [|d l]; reflexivity.
Qed.

(** *** Materialization *)

Lemma originals_loop_execute (self : stage) (l : list (option connector))
    (index : nat) (w : world) (i : nat) (df : connector) :
  In (EvExecute i df) (snd (loop_originals self index l w)) ->
  index <= i /\ nth_error l (i - index) = Some (Some df).
Proof.
  revert index w; induction l as [|[d|] l IH]; intros index w H.
  - simpl in H. contradiction.
  - cbn [originals_loop] in H.
    apply bindM_trace_in in H. destruct H as [H | (a & w1 & t1 & _ & H)].
    { simpl in H. destruct H as [H|[]]. discriminate. }
    apply bindM_trace_in in H. destruct H as [H | (a2 & w2 & t2 & _ & H)].
    { unfold lift in H. simpl in H. contradiction. }
    apply bindM_trace_in in H. destruct H as [H | (a3 & w3 & t3 & _ & H)].
    { simpl in H. destruct H as [H|[]]. discriminate. }
    apply bindM_trace_in in H. destruct H as [H | (a4 & w4 & t4 & _ & H)].
    { simpl in H. destruct H as [H|[]]. inversion H; subst.
      split; [lia|]. now rewrite Nat.sub_diag. }
    apply bindM_trace_in in H. destruct H as [H | (a5 & w5 & t5 & _ & H)].
    { destruct (materialize d _ w4) as [o w']. simpl in H. contradiction. }
    apply bindM_trace_in in H. destruct H as [H | (a6 & w6 & t6 & _ & H)].
    { apply IH in H. destruct H as [Hle Hn]. split; [lia|].
      replace (i - index) with (S (i - S index)) by lia. exact Hn. }
    simpl in H. contradiction.
  - cbn [originals_loop] in H.
    apply bindM_trace_in in H. destruct H as [H | (a & w1 & t1 & _ & H)].
    { apply IH in H. destruct H as [Hle Hn]. split; [lia|].
      replace (i - index) with (S (i - S index)) by lia. exact Hn. }
    simpl in H. contradiction.
Qed.

(** Without the idiom the list is the full one exactly when every slot
    is named in the snippet. *)
Lemma required_loop_full (code : string) (l : list connector) (i0 : nat) :
  required_loop code i0 l = map Some l <->
  forall i, i < List.length l -> occurs (slot_label (i0 + i)) code.
Proof.
  revert i0; induction l as [|df l IH]; intros i0; simpl.
  - split; [intros _ i Hi; lia | reflexivity].
  - split.
    + intros H. destruct (py_in (slot_label i0) code) eqn:Hin; [|discriminate].
      inversion H as [Hrest]. intros i Hi. destruct i as [|i].
      * rewrite Nat.add_0_r. now apply py_in_spec.
      * rewrite Nat.add_succ_r.
        apply (proj1 (IH (S i0)) Hrest i). lia.
    + intros H.
      assert (H0 : py_in (slot_label i0) code = true).
      { apply py_in_spec. rewrite <- (Nat.add_0_r i0). apply H. lia. }
      rewrite H0. f_equal. apply IH. intros i Hi.
      replace (S i0 + i) with (i0 + S i) by lia. apply H. lia.
Qed.

(** C6, as the code has it: the required-dataset computation returns the
    full dataset list when the snippet contains the all-datasets idiom (a
    loop over the collection or a concatenation of it); without the idiom
    it returns a list of the same length in which position [i] holds the
    dataset handle if the token [dfs[i]] occurs in the snippet text and
    the null placeholder if it does not.  So the full list is returned
    exactly when the idiom occurs or every token [dfs[i]] of the list
    occurs, not only under the idiom.  Materialization only ever executes
    connectors that are present in the list it is given, never a null
    placeholder. *)
Theorem required_dfs_scoping (self : stage) (code : string) :
  (all_datasets_idiom code ->
     _required_dfs self code = map Some (dfs (context self))) /\
  (~ all_datasets_idiom code ->
     List.length (_required_dfs self code) = List.length (dfs (context self)) /\
     forall i df, nth_error (dfs (context self)) i = Some df ->
       (occurs (slot_label i) code ->
          nth_error (_required_dfs self code) i = Some (Some df)) /\
       (~ occurs (slot_label i) code ->
          nth_error (_required_dfs self code) i = Some None)) /\
  (_required_dfs self code = map Some (dfs (context self)) <->
   all_datasets_idiom code \/
   forall i, i < List.length (dfs (context self)) ->
     occurs (slot_label i) code) /\
  (forall l w i df,
     In (EvExecute i df) (snd (get_originals self l w)) ->
     nth_error l i = Some (Some df)).
Proof.
  assert (Hfull : all_datasets_idiom code ->
            _required_dfs self code = map Some (dfs (context self))).
  { intros H. apply idiom_spec in H. unfold _required_dfs. now rewrite H. }
  split; [exact Hfull|]. split; [|split].
  - intros H.
    assert (Hb : py_in "for df in dfs" code || py_in "pd.concat(dfs" code = false).
    { destruct (py_in "for df in dfs" code || py_in "pd.concat(dfs" code) eqn:E;
        [|reflexivity].
      exfalso. apply H. now apply idiom_spec. }
    rewrite (required_dfs_no_idiom self code Hb). split.
    + apply required_loop_length.
    + intros i df Hn. rewrite (required_loop_nth code _ 0 i df Hn). simpl. split.
      * intros Ho. apply py_in_spec in Ho. now rewrite Ho.
      * intros Ho. apply py_in_false_spec in Ho. now rewrite Ho.
  - destruct (py_in "for df in dfs" code || py_in "pd.concat(dfs" code) eqn:E.
    + apply idiom_spec in E. split; [intros _; left; exact E | intros _; auto].
    + rewrite (required_dfs_no_idiom self code E).
      rewrite (required_loop_full code (dfs (context self)) 0). simpl.
      split; [intros H; right; exact H|].
      intros [H|H]; [|exact H].
      apply idiom_spec in H. congruence.
  - intros l w i df H. unfold _get_originals in H.
    apply originals_loop_execute in H. destruct H as [_ H].
    now rewrite Nat.sub_0_r in H.
Qed.

(** *** Counting sandbox invocations *)

Lemma sandbox_invocations_app (t1 t2 : trace) :
  sandbox_invocations (t1 ++ t2)
    = sandbox_invocations t1 + sandbox_invocations t2.
Proof.
  unfold sandbox_invocations. now rewrite filter_app, length_app.
Qed.

(** A computation that never calls the sandbox. *)
Definition quiet {A : Type} (m : M connector dataframe world A) : Prop :=
  forall w, sandbox_invocations (snd (m w)) = 0.

Lemma quiet_ret {A : Type} (a : A) : quiet (ret a).
Proof. intros w. reflexivity. Qed.

Lemma quiet_raise {A : Type} (e : exn) : quiet (raise (A := A) e).
Proof. intros w. reflexivity. Qed.

Lemma quiet_lift {A : Type} (o : outcome exn A) : quiet (lift o).
Proof. intros w. reflexivity. Qed.

Lemma quiet_call {A : Type} (f : world -> outcome exn A * world) :
  quiet (fun w => let (o, w1) := f w in (o, w1, [])).
Proof. intros w. destruct (f w). reflexivity. Qed.

Lemma quiet_emit (ev : event connector dataframe) :
  is_sandbox_invocation ev = false -> quiet (emit ev).
Proof. intros H w. unfold emit, sandbox_invocations. simpl. now rewrite H. Qed.

Lemma bindM_invocations {A B : Type} (m : M connector dataframe world A)
    (k : A -> M connector dataframe world B) (w : world) :
  sandbox_invocations (snd (bindM m k w))
    = sandbox_invocations (snd (m w)) +
      match m w with
      | (Return a, w1, _) => sandbox_invocations (snd (k a w1))
      | _ => 0
      end.
Proof.
  unfold bindM. destruct (m w) as [[[a|e] w1] t1]; simpl.
  - destruct (k a w1) as [[r w2] t2]. simpl. apply sandbox_invocations_app.
  - lia.
Qed.

Lemma quiet_bind {A B : Type} (m : M connector dataframe world A)
    (k : A -> M connector dataframe world B) :
  quiet m -> (forall a, quiet (k a)) -> quiet (bindM m k).
Proof.
  intros Hm Hk w. rewrite bindM_invocations, Hm.
  destruct (m w) as [[[a|e] w1] t1]; [apply Hk | reflexivity].
Qed.

Lemma originals_loop_quiet (self : stage) (l : list (option connector))
    (index : nat) : quiet (loop_originals self index l).
Proof.
  revert index; induction l as [|[d|] l IH]; intros index; cbn [originals_loop].
  - apply quiet_ret.
  - repeat (apply quiet_bind; [|intros ?]);
      try apply quiet_ret; try apply quiet_lift; try apply quiet_call;
      try (apply quiet_emit; reflexivity); apply IH.
  - apply quiet_bind; [apply IH | intros ?; apply quiet_ret].
Qed.

Lemma execute_code_quiet_tail (self : stage) (code : string) :
  quiet
    (bindM (lift (get_environment (additional_dependencies (context self))))
       (fun environment =>
          bindM (get_originals self (_required_dfs self code))
            (fun originals =>
               bindM
                 (if direct_sql (config (context self))
                  then match dfs (context self) with
                       | [] => raise IndexError
                       | df0 :: _ =>
                           ret (env_set "execute_sql_query"
                                  (EExecuteSqlQuery df0)
                                  (with_tables originals environment))
                       end
                  else ret (with_tables originals environment))
                 (fun environment =>
                    bindM
                      (emit (EvExec code
                               (add_skills (used_skills (context self))
                                  environment)))
                      (fun _ =>
                         bindM
                           (fun w =>
                              let (o, w1) :=
                                exec code
                                  (add_skills (used_skills (context self))
                                     environment) w in
                              (o, w1, []))
                           (fun bound =>
                              match bound with
                              | None =>
                                  raise (NoResultFoundError "No result returned")
                              | Some result => ret result
                              end)))))).
Proof.
  apply quiet_bind; [apply quiet_lift | intros environment].
  apply quiet_bind; [apply originals_loop_quiet | intros originals].
  apply quiet_bind.
  - destruct (direct_sql _); [destruct (dfs _)|];
      try apply quiet_ret; apply quiet_raise.
  - intros env. apply quiet_bind; [apply quiet_emit; reflexivity | intros _].
    apply quiet_bind; [apply quiet_call | intros bound].
    destruct bound; [apply quiet_ret | apply quiet_raise].
Qed.

Lemma execute_code_invocations (self : stage) (code : string) (w : world) :
  sandbox_invocations (snd (run_code self code w)) = 1.
Proof.
  unfold execute_code. rewrite bindM_invocations. simpl emit. cbn [snd].
  match goal with
  | |- _ + ?x = 1 => assert (Hq : x = 0); [|rewrite Hq; reflexivity]
  end.
  cbv beta iota zeta.
  apply (execute_code_quiet_tail self code w).
Qed.

(** Every attempt calls the sandbox once. *)
Lemma attempt_invocations (self : stage) (code : string) (w : world) :
  sandbox_invocations (snd (run_attempt self code w)) = 1.
Proof.
  unfold attempt.
  destruct (enforce_grouping (context self) && negb (py_in ".groupby" code)).
  - unfold bindM, emit, lift, raise.
    destruct (grouping_message columns self code); reflexivity.
  - rewrite bindM_invocations, execute_code_invocations.
    destruct (run_code self code w) as [[[result|e] w1] t1]; [|reflexivity].
    assert (Hq : forall k : M connector dataframe world (result_t dataframe),
               quiet k -> 1 + sandbox_invocations (snd (k w1)) = 1)
      by (intros k Hk; rewrite Hk; reflexivity).
    apply Hq.
    apply quiet_bind.
    + destruct (output_type (context self)) as [h|]; [|apply quiet_ret].
      destruct (String.eqb h ""); [apply quiet_ret|].
      destruct (validate h result) as [ok errs].
      destruct ok; [apply quiet_ret | apply quiet_raise].
    + intros _. destruct (validate_result result);
        [apply quiet_ret | apply quiet_raise].
Qed.

Lemma report_failure_invocations (self : stage) (code : string) (e : exn) :
  sandbox_invocations (report self code e) = 0.
Proof.
  unfold report_failure. destruct (on_failure self); reflexivity.
Qed.

Lemma retry_run_code_invocations (self : stage) (code : string) (e : exn)
    (w : world) :
  sandbox_invocations (snd (retry_run_code self code e w)) = 0.
Proof.
  unfold _retry_run_code. destruct (on_retry self) as [cb|]; [|reflexivity].
  rewrite bindM_invocations. simpl. destruct (cb code e w). reflexivity.
Qed.

Lemma retry_run_code_supplied (self : stage) (code : string) (e : exn)
    (w : world) callback :
  on_retry self = Some callback ->
  retry_run_code self code e w
    = (fst (callback code e w), snd (callback code e w), [EvOnRetry code e]).
Proof.
  intros H. unfold _retry_run_code. rewrite H. unfold bindM, emit.
  destruct (callback code e w). reflexivity.
Qed.

(** *** The last failure in a trace *)

Lemma last_failure_app (t1 t2 : trace) :
  last_failure (t1 ++ t2)
    = match last_failure t2 with
      | Some e => Some e
      | None => last_failure t1
      end.
Proof.
  induction t1 as [|ev t1 IH]; simpl.
  - destruct (last_failure t2); reflexivity.
  - rewrite IH. destruct (last_failure t2); reflexivity.
Qed.

Lemma last_failure_report (self : stage) (code : string) (e : exn) :
  last_failure (report self code e) = Some e.
Proof.
  unfold report_failure. destruct (on_failure self); reflexivity.
Qed.

(** *** The retry loop *)

(** The loop always comes to an end within the fuel [execute] gives it. *)
Lemma execute_loop_total (self : stage) (fuel : nat) (retry_count : Z)
    (code : string) (w : world) :
  Z.to_nat (max_retries (config (context self)) + 1 - retry_count) < fuel ->
  exists r, run_loop self fuel retry_count code w = Some r.
Proof.
  revert retry_count code w; induction fuel as [|fuel IH];
    intros rc code w Hf; [lia|].
  cbn [execute_loop].
  destruct (rc <=? max_retries (config (context self)))%Z eqn:Hle;
    [|eexists; reflexivity].
  apply Z.leb_le in Hle.
  destruct (run_attempt self code w) as [[[result|e] w1] t1];
    [eexists; reflexivity|].
  destruct (negb _ || _); [eexists; reflexivity|].
  destruct (retry_run_code self code e w1) as [[[code'|e'] w2] t4];
    [|eexists; reflexivity].
  destruct (IH (rc + 1)%Z code' w2) as [[[r w3] t5] Hr]; [lia|].
  rewrite Hr. eexists; reflexivity.
Qed.

(** The end of [execute] keeps the trace of the loop. *)
Lemma finish_trace (o : outcome exn (option (result_t dataframe)))
    (w1 : world) (t : trace) :
  exists o' w', finished (Some (o, w1, t)) = Some (o', w', t).
Proof.
  unfold finish. destruct o as [result|e]; [|eexists _, _; reflexivity].
  destruct (serialize result w1) as [[v|e] w2]; eexists _, _; reflexivity.
Qed.

Lemma execute_total (self : stage) (input : string) (w : world) :
  exists r, run_execute self input w = Some r.
Proof.
  unfold execute.
  destruct (execute_loop_total self
              (S (Z.to_nat (max_retries (config (context self)) + 1))) 0
              input w) as [[[o w1] t] Hl]; [lia|].
  rewrite Hl. destruct (finish_trace o w1 t) as (o' & w' & Hf).
  rewrite Hf. eexists; reflexivity.
Qed.

Lemma execute_loop_exhausts (self : stage)
    (callback : string -> exn -> world -> outcome exn string * world)
    (P : string -> world -> Prop) :
  use_error_correction_framework (config (context self)) = true ->
  on_retry self = Some callback ->
  (forall code w0, P code w0 ->
     exists e w1 t, run_attempt self code w0 = (Raise e, w1, t) /\
     exists code' w2, callback code e w1 = (Return code', w2) /\ P code' w2) ->
  forall (n : nat) (rc : Z) (code : string) (w : world) (fuel : nat),
    (0 <= rc <= max_retries (config (context self)))%Z ->
    Z.to_nat (max_retries (config (context self)) - rc) = n ->
    n < fuel ->
    P code w ->
    exists e w' t,
      run_loop self fuel rc code w = Some (Raise e, w', t) /\
      sandbox_invocations t = S n /\
      last_failure t = Some e /\
      exists code0 w0 t0,
        P code0 w0 /\ run_attempt self code0 w0 = (Raise e, w', t0).
Proof.
  intros Hecf Hcb Hfail.
  induction n as [|n IH]; intros rc code w fuel Hrc Hn Hfuel HP;
    (destruct fuel as [|fuel]; [lia|]); cbn [execute_loop];
    (replace (rc <=? max_retries (config (context self)))%Z with true
       by (symmetry; apply Z.leb_le; lia));
    destruct (Hfail code w HP) as (e & w1 & t1 & Ha & code' & w2 & Hc & HP');
    pose proof (attempt_invocations self code w) as Hinv;
    rewrite Ha in *; simpl in Hinv; rewrite Hecf; simpl negb; rewrite orb_false_l;
    rewrite Z.geb_leb.
  - replace (max_retries (config (context self)) <=? rc)%Z with true
      by (symmetry; apply Z.leb_le; lia).
    exists e, w1, (t1 ++ report self code e). split; [reflexivity|].
    split; [|split].
    + rewrite sandbox_invocations_app, Hinv, report_failure_invocations. reflexivity.
    + rewrite last_failure_app, last_failure_report. reflexivity.
    + exists code, w, t1. split; [exact HP | exact Ha].
  - replace (max_retries (config (context self)) <=? rc)%Z with false
      by (symmetry; apply Z.leb_gt; lia).
    rewrite (retry_run_code_supplied self code e w1 callback Hcb), Hc. simpl fst; simpl snd.
    destruct (IH (rc + 1)%Z code' w2 fuel)
      as (e2 & w3 & t5 & Hl & Hcount & Hlast & Hfrom);
      [lia | lia | lia | exact HP' |].
    rewrite Hl. eexists e2, w3, _. split; [reflexivity|].
    split; [|split].
    + rewrite !sandbox_invocations_app, Hinv, report_failure_invocations, Hcount.
      reflexivity.
    + rewrite !last_failure_app, Hlast. reflexivity.
    + exact Hfrom.
Qed.

(** C1: with error correction enabled, [max_retries = k >= 0] and a repair
    callback that always returns a snippet whose attempt fails again, the
    stage calls the sandbox exactly [k + 1] times and then raises the very
    exception that the last of these attempts raised, as the attempt
    raised it: [execute] raises [e] in the world [w'] in which an attempt
    on a snippet of the run has raised that same [e], and [e] is the
    failure logged last.  [P] holds of the snippets and worlds the run
    goes through. *)
Theorem execute_exhausts_retry_budget (self : stage)
    (callback : string -> exn -> world -> outcome exn string * world)
    (P : string -> world -> Prop) (input : string) (w : world) :
  use_error_correction_framework (config (context self)) = true ->
  (0 <= max_retries (config (context self)))%Z ->
  on_retry self = Some callback ->
  P input w ->
  (forall code w0, P code w0 ->
     exists e w1 t, run_attempt self code w0 = (Raise e, w1, t) /\
     exists code' w2, callback code e w1 = (Return code', w2) /\ P code' w2) ->
  exists e w' t,
    run_execute self input w = Some (Raise e, w', t) /\
    sandbox_invocations t = Z.to_nat (max_retries (config (context self)) + 1) /\
    last_failure t = Some e /\
    exists code0 w0 t0,
      P code0 w0 /\ run_attempt self code0 w0 = (Raise e, w', t0).
Proof.
  intros Hecf Hk Hcb HP Hfail. unfold execute.
  destruct (execute_loop_exhausts self callback P Hecf Hcb Hfail
              (Z.to_nat (max_retries (config (context self)))) 0%Z input w
              (S (Z.to_nat (max_retries (config (context self)) + 1))))
    as (e & w' & t & Hl & Hc & Hlast & Hfrom).
  - lia.
  - now rewrite Z.sub_0_r.
  - lia.
  - exact HP.
  - exists e, w', t. rewrite Hl.
    split; [reflexivity|]. split; [|split; [exact Hlast | exact Hfrom]].
    rewrite Hc. lia.
Qed.

(** A failure ends the loop when correction is disabled, the budget is
    used up or no repair callback is supplied: the exception of the
    attempt is raised after the failure has been reported. *)
Lemma execute_loop_gives_up (self : stage) (fuel : nat) (rc : Z)
    (code : string) (w w1 : world) (e : exn) (t1 : trace) :
  (rc <= max_retries (config (context self)))%Z ->
  use_error_correction_framework (config (context self)) = false
    \/ (max_retries (config (context self)) <= rc)%Z
    \/ on_retry self = None ->
  run_attempt self code w = (Raise e, w1, t1) ->
  exists t,
    run_loop self (S fuel) rc code w = Some (Raise e, w1, t1 ++ t) /\
    sandbox_invocations t = 0 /\
    last_failure (t1 ++ t) = Some e.
Proof.
  intros Hrc Hstop Ha. cbn [execute_loop].
  replace (rc <=? max_retries (config (context self)))%Z with true
    by (symmetry; apply Z.leb_le; lia).
  rewrite Ha.
  destruct (negb (use_error_correction_framework (config (context self)))
            || (rc >=? max_retries (config (context self)))%Z) eqn:Hnow.
  - exists (report self code e). split; [reflexivity|]. split.
    + apply report_failure_invocations.
    + rewrite last_failure_app, last_failure_report. reflexivity.
  - apply orb_false_iff in Hnow. destruct Hnow as [Hecf Hge].
    apply negb_false_iff in Hecf.
    rewrite Z.geb_leb in Hge. apply Z.leb_gt in Hge.
    destruct Hstop as [Hoff|[Hused|Hnone]]; [congruence | lia |].
    unfold _retry_run_code. rewrite Hnone. unfold raise.
    exists (report self code e ++ [EvLogRetry (rc + 1)%Z]).
    split; [now rewrite app_nil_r, <- app_assoc|]. split.
    + rewrite sandbox_invocations_app, report_failure_invocations. reflexivity.
    + rewrite !last_failure_app. cbn [last_failure].
      rewrite last_failure_report. reflexivity.
Qed.

(** C2: whatever [max_retries = k >= 0] is, if error correction is
    disabled or no repair callback is supplied, a failing snippet is
    attempted once and the exception of that first failure is raised at
    once. *)
Theorem execute_fails_once_without_correction (self : stage) (input : string)
    (w w1 : world) (e : exn) (t1 : trace) :
  (0 <= max_retries (config (context self)))%Z ->
  use_error_correction_framework (config (context self)) = false
    \/ on_retry self = None ->
  run_attempt self input w = (Raise e, w1, t1) ->
  exists t,
    run_execute self input w = Some (Raise e, w1, t) /\
    sandbox_invocations t = 1 /\
    last_failure t = Some e.
Proof.
  intros Hk Hoff Ha. unfold execute.
  assert (Hstop :
    use_error_correction_framework (config (context self)) = false
    \/ (max_retries (config (context self)) <= 0)%Z
    \/ on_retry self = None) by (destruct Hoff; auto).
  destruct (execute_loop_gives_up self
              (Z.to_nat (max_retries (config (context self)) + 1)) 0 input
              w w1 e t1 Hk Hstop Ha) as (t & Hrun & Hquiet & Hlast).
  exists (t1 ++ t). rewrite Hrun. split; [reflexivity|]. split; [|exact Hlast].
  pose proof (attempt_invocations self input w) as Hone.
  rewrite Ha in Hone. simpl in Hone.
  now rewrite sandbox_invocations_app, Hone, Hquiet.
Qed.

(** *** Validation failures *)

Lemma mismatch_message_names (result : result_t dataframe) :
  occurs (type_repr (value result)) (mismatch_message result) /\
  occurs (type result) (mismatch_message result).
Proof.
  unfold mismatch_message. split.
  - apply occurs_app_r. apply occurs_prefix.
  - apply occurs_app_r. apply occurs_app_r. apply occurs_suffix.
Qed.

(** One turn of the loop after a failure that the repair callback
    answers with a new snippet. *)
Lemma execute_loop_retries (self : stage) (fuel : nat) (rc : Z)
    (code code' : string) (w w1 w2 : world) (e : exn) (t1 : trace) callback :
  (rc < max_retries (config (context self)))%Z ->
  use_error_correction_framework (config (context self)) = true ->
  on_retry self = Some callback ->
  run_attempt self code w = (Raise e, w1, t1) ->
  callback code e w1 = (Return code', w2) ->
  run_loop self (S fuel) rc code w
    = match run_loop self fuel (rc + 1) code' w2 with
      | None => None
      | Some (r, w3, t5) =>
          Some (r, w3,
                ((t1 ++ report self code e) ++ [EvLogRetry (rc + 1)%Z])
                  ++ [EvOnRetry code e] ++ t5)
      end.
Proof.
  intros Hrc Hecf Hcb Ha Hc. cbn [execute_loop].
  replace (rc <=? max_retries (config (context self)))%Z with true
    by (symmetry; apply Z.leb_le; lia).
  rewrite Ha, Hecf. simpl negb. rewrite orb_false_l, Z.geb_leb.
  replace (max_retries (config (context self)) <=? rc)%Z with false
    by (symmetry; apply Z.leb_gt; lia).
  rewrite (retry_run_code_supplied self code e w1 callback Hcb), Hc.
  reflexivity.
Qed.

(** C8, as the code has it: when an attempt reaches the validator (the
    grouping check lets the snippet through and the sandbox returns a
    result), the output-type hint is absent, empty or satisfied, and the
    value of the result is not consistent with its type tag, the attempt
    raises [InvalidOutputValueMismatch] with a message that names the type
    of the value and the tag; with correction enabled, retries left and a
    repair callback supplied, the loop hands the snippet and this
    exception to the callback and goes on with the snippet it returns:
    [execute] ends with what the loop yields from that snippet on. *)
Theorem value_mismatch_enters_retry_loop (self : stage) (code : string)
    (w w1 : world) (result : result_t dataframe) (t1 : trace) :
  enforce_grouping (context self) && negb (py_in ".groupby" code) = false ->
  run_code self code w = (Return result, w1, t1) ->
  (forall h, output_type (context self) = Some h ->
     h <> EmptyString -> fst (validate h result) = true) ->
  validate_result result = false ->
  run_attempt self code w
    = (Raise (InvalidOutputValueMismatch (mismatch_message result)), w1, t1) /\
  occurs (type_repr (value result)) (mismatch_message result) /\
  occurs (type result) (mismatch_message result) /\
  forall callback code' w2,
    use_error_correction_framework (config (context self)) = true ->
    (0 < max_retries (config (context self)))%Z ->
    on_retry self = Some callback ->
    callback code (InvalidOutputValueMismatch (mismatch_message result)) w1
      = (Return code', w2) ->
    exists r w3 t5,
      run_loop self (Z.to_nat (max_retries (config (context self)) + 1)) 1
        code' w2 = Some (r, w3, t5) /\
      run_execute self code w
        = finished
            (Some (r, w3,
                   ((t1 ++ report self code
                             (InvalidOutputValueMismatch (mismatch_message result)))
                      ++ [EvLogRetry 1%Z])
                     ++ [EvOnRetry code
                           (InvalidOutputValueMismatch (mismatch_message result))]
                     ++ t5)).
Proof.
  intros Hg Hrun Hhint Hval.
  assert (Ha : run_attempt self code w
               = (Raise (InvalidOutputValueMismatch (mismatch_message result)),
                  w1, t1)).
  { unfold attempt. rewrite Hg. unfold bindM at 1. rewrite Hrun.
    assert (Hcheck :
      (match output_type (context self) with
       | Some output_helper =>
           if String.eqb output_helper "" then ret tt
           else let (validation_ok, validation_errors) :=
                  validate output_helper result in
                if validation_ok then ret tt
                else raise (InvalidLLMOutputType validation_errors)
       | None => ret tt
       end : M connector dataframe world unit) = ret tt).
    { destruct (output_type (context self)) as [h|] eqn:Ho; [|reflexivity].
      destruct (String.eqb h "") eqn:Hh; [reflexivity|].
      apply String.eqb_neq in Hh. specialize (Hhint h eq_refl Hh).
      destruct (validate h result) as [ok errs]. simpl in Hhint.
      now rewrite Hhint. }
    rewrite Hcheck. unfold bindM, ret. rewrite Hval. unfold raise. simpl.
    now rewrite app_nil_r. }
  split; [exact Ha|].
  destruct (mismatch_message_names result) as [Hn1 Hn2].
  split; [exact Hn1|]. split; [exact Hn2|].
  intros callback code' w2 Hecf Hk Hcb Hc.
  destruct (execute_loop_total self
              (Z.to_nat (max_retries (config (context self)) + 1)) 1 code' w2)
    as [[[r w3] t5] Hr]; [lia|].
  exists r, w3, t5. split; [exact Hr|].
  unfold execute.
  rewrite (execute_loop_retries self _ 0 code code' w w1 w2 _ t1 callback
             Hk Hecf Hcb Ha Hc).
  simpl Z.add. now rewrite Hr.
Qed.

(** *** Parse failures *)

Lemma originals_loop_parse_failure (self : stage)
    (l : list (option connector)) (index : nat) (w : world) :
  ast_parse (current_code_executed (context self)) = None ->
  (exists i df, nth_error l i = Some (Some df)) ->
  loop_originals self index l w
    = (Raise SyntaxError, w,
       [EvExtractFilters (current_code_executed (context self))]).
Proof.
  intros Hp. revert index; induction l as [|[d|] l IH]; intros index [i [df Hn]].
  - destruct i; discriminate.
  - cbn [originals_loop]. unfold bindM, emit, lift, _extract_filters.
    rewrite Hp. reflexivity.
  - destruct i as [|i]; [discriminate|]. simpl in Hn.
    cbn [originals_loop]. unfold bindM at 1.
    rewrite (IH (S index) (ex_intro _ i (ex_intro _ df Hn))). reflexivity.
Qed.

Lemma execute_code_parse_failure (self : stage) (code : string) (w : world)
    (base : environment connector dataframe) :
  get_environment (additional_dependencies (context self)) = Return base ->
  ast_parse (current_code_executed (context self)) = None ->
  (exists i df, nth_error (_required_dfs self code) i = Some (Some df)) ->
  run_code self code w
    = (Raise SyntaxError, w,
       [EvExecuteCode code;
        EvExtractFilters (current_code_executed (context self))]).
Proof.
  intros Hbase Hp Hreq. unfold execute_code, _get_originals.
  unfold bindM at 1. unfold emit at 1. unfold bindM at 1. unfold lift at 1.
  rewrite Hbase. unfold bindM at 1.
  rewrite (originals_loop_parse_failure self _ 0 w Hp Hreq). reflexivity.
Qed.


(** *** Where the filters come from, and when tables are loaded *)

Definition is_materialization (ev : event connector dataframe) : bool :=
  match ev with
  | EvExecute _ _ => true
  | _ => false
  end.

Definition is_evaluation (ev : event connector dataframe) : bool :=
  match ev with
  | EvExec _ _ => true
  | _ => false
  end.

(** A computation none of whose events satisfies [p]. *)
Definition avoids {A : Type} (p : event connector dataframe -> bool)
    (m : M connector dataframe world A) : Prop :=
  forall w, Forall (fun ev => p ev = false) (snd (m w)).

Lemma bindM_trace {A B : Type} (m : M connector dataframe world A)
    (k : A -> M connector dataframe world B) (w : world) :
  snd (bindM m k w)
    = snd (m w) ++
      match m w with
      | (Return a, w1, _) => snd (k a w1)
      | _ => []
      end.
Proof.
  unfold bindM. destruct (m w) as [[[a|e] w1] t1]; simpl.
  - destruct (k a w1) as [[r w2] t2]. reflexivity.
  - now rewrite app_nil_r.
Qed.

Lemma avoids_bind {A B : Type} (p : event connector dataframe -> bool)
    (m : M connector dataframe world A) (k : A -> M connector dataframe world B) :
  avoids p m -> (forall a, avoids p (k a)) -> avoids p (bindM m k).
Proof.
  intros Hm Hk w. rewrite bindM_trace. apply Forall_app. split; [apply Hm|].
  destruct (m w) as [[[a|e] w1] t1]; [apply Hk | constructor].
Qed.

Lemma avoids_ret {A : Type} p (a : A) : avoids p (ret a).
Proof. intros w. constructor. Qed.

Lemma avoids_raise {A : Type} p (e : exn) : avoids p (raise (A := A) e).
Proof. intros w. constructor. Qed.

Lemma avoids_lift {A : Type} p (o : outcome exn A) : avoids p (lift o).
Proof. intros w. constructor. Qed.

Lemma avoids_call {A : Type} p (f : world -> outcome exn A * world) :
  avoids p (fun w => let (o, w1) := f w in (o, w1, [])).
Proof. intros w. destruct (f w). constructor. Qed.

Lemma avoids_emit p (ev : event connector dataframe) :
  p ev = false -> avoids p (emit ev).
Proof. intros H w. repeat constructor. exact H. Qed.

Lemma originals_loop_avoids_evaluation (self : stage)
    (l : list (option connector)) (index : nat) :
  avoids is_evaluation (loop_originals self index l).
Proof.
  revert index; induction l as [|[d|] l IH]; intros index; cbn [originals_loop].
  - apply avoids_ret.
  - repeat (apply avoids_bind; [|intros ?]);
      try apply avoids_ret; try apply avoids_lift; try apply avoids_call;
      try (apply avoids_emit; reflexivity); apply IH.
  - apply avoids_bind; [apply IH | intros ?; apply avoids_ret].
Qed.

(** In every call of the sandbox the loading of the tables is over before
    the snippet is evaluated: the trace is a part without evaluation
    followed by a part without materialization. *)
Lemma materialization_precedes_evaluation (self : stage) (code : string)
    (w : world) :
  exists t1 t2,
    snd (run_code self code w) = t1 ++ t2 /\
    Forall (fun ev => is_evaluation ev = false) t1 /\
    Forall (fun ev => is_materialization ev = false) t2.
Proof.
  unfold execute_code, _get_originals.
  rewrite bindM_trace. cbn [emit snd]. rewrite bindM_trace.
  unfold lift at 1 2. cbn [snd app].
  destruct (get_environment (additional_dependencies (context self)))
    as [base|e0].
  - rewrite bindM_trace.
    eexists (_ :: snd (loop_originals self 0 (_required_dfs self code) w)), _.
    split; [reflexivity|]. split.
    + constructor; [reflexivity|]. apply originals_loop_avoids_evaluation.
    + destruct (loop_originals self 0 (_required_dfs self code) w)
        as [[[originals|e] w1] t1]; [|constructor].
      assert (Hk : forall k : M connector dataframe world (result_t dataframe),
                 avoids is_materialization k ->
                 Forall (fun ev => is_materialization ev = false) (snd (k w1)))
        by (intros k Hk; apply Hk).
      apply Hk.
      apply avoids_bind.
      * destruct (direct_sql _); [destruct (dfs _)|];
          try apply avoids_ret; apply avoids_raise.
      * intros env. apply avoids_bind; [apply avoids_emit; reflexivity|].
        intros _. apply avoids_bind; [apply avoids_call|].
        intros bound. destruct bound; [apply avoids_ret | apply avoids_raise].
  - exists [EvExecuteCode code], []. split; [reflexivity|].
    split; repeat constructor.
Qed.

(** The filters set on a connector are always those of the text in
    [current_code_executed], whatever snippet the attempt runs. *)
Lemma originals_loop_filters (self : stage) (l : list (option connector))
    (index : nat) (w : world) (i : nat) (df : connector)
    (filters : list predicate) :
  In (EvSetAdditionalFilters i df filters) (snd (loop_originals self index l w)) ->
  exists extracted,
    _extract_filters ast_parse node_repr (current_code_executed (context self))
      = Return extracted /\
    filters = dict_get (slot_label i) extracted.
Proof.
  revert index w; induction l as [|[d|] l IH]; intros index w H.
  - simpl in H. contradiction.
  - cbn [originals_loop] in H.
    apply bindM_trace_in in H. destruct H as [H | (a & w1 & t1 & _ & H)].
    { simpl in H. destruct H as [H|[]]. discriminate. }
    apply bindM_trace_in in H. destruct H as [H | (a2 & w2 & t2 & Hx & H)].
    { unfold lift in H. simpl in H. contradiction. }
    unfold lift in Hx. inversion Hx as [[Hex Hw Ht]].
    apply bindM_trace_in in H. destruct H as [H | (a3 & w3 & t3 & _ & H)].
    { simpl in H. destruct H as [H|[]]. inversion H; subst.
      exists a2. split; [exact Hex | reflexivity]. }
    apply bindM_trace_in in H. destruct H as [H | (a4 & w4 & t4 & _ & H)].
    { simpl in H. destruct H as [H|[]]. discriminate. }
    apply bindM_trace_in in H. destruct H as [H | (a5 & w5 & t5 & _ & H)].
    { destruct (materialize d _ w4) as [o w']. simpl in H. contradiction. }
    apply bindM_trace_in in H. destruct H as [H | (a6 & w6 & t6 & _ & H)].
    { apply IH in H. exact H. }
    simpl in H. contradiction.
  - cbn [originals_loop] in H.
    apply bindM_trace_in in H. destruct H as [H | (a & w1 & t1 & _ & H)].
    { apply IH in H. exact H. }
    simpl in H. contradiction.
Qed.

(** With a negative retry budget the loop is never entered. *)
Lemma execute_negative_budget (self : stage) (input : string) (w : world) :
  (max_retries (config (context self)) < 0)%Z ->
  run_execute self input w = finished (Some (Return None, w, [])).
Proof.
  intros H. unfold execute. cbn [execute_loop].
  replace (0 <=? max_retries (config (context self)))%Z with false
    by (symmetry; apply Z.leb_gt; lia).
  reflexivity.
Qed.

End Facts.

End StageFacts.

(** ** A concrete stage: one loans table *)

Module LoanExample.
Import PyStr PyStrFacts Pandas PyAst CodeExecution StageFacts.
Local Open Scope list_scope.

(** Connectors are known by their name; a materialized table is known by
    the filters it was loaded under; nothing else changes. *)
Definition connector : Type := string.
Definition dataframe : Type := list predicate.
Definition world : Type := unit.

Definition node_repr (n : node) : string := "<ast.AST object>".

Definition columns (df : connector) : frame :=
  [(LStr "loan_status", "object"); (LStr "age", "int64")].

(** No additional dependency: the base namespace is left out. *)
Definition get_environment (additional_dependencies : list string)
  : outcome exn (environment connector dataframe) := Return [].

Definition materialize (df : connector) (filters : list predicate) (w : world)
  : outcome exn dataframe * world := (Return filters, w).

Definition format_exc (e : exn) : string := "Traceback (most recent call last)".

(** A serializer that hands the result on as it is. *)
Definition serialized : Type := option (result_t dataframe).

Definition serialize (result : option (result_t dataframe)) (w : world)
  : outcome exn serialized * world := (Return result, w).

(** What the stage returns for a result. *)
Definition answered (result : result_t dataframe)
  : LogicUnitOutput dataframe serialized :=
  logic_unit_output (Some result) (Some result).

(** [dfs[0]['age']] *)
Definition age_column : node :=
  Subscript (Subscript (Name "dfs") (Constant (CInt 0))) (Constant (CStr "age")).

(** A snippet that binds no result. *)
Definition snippet_over_30 : string := "dfs[0]['age'] > 30".

Definition tree_over_30 : node :=
  Module_ [Expr (Compare 1 age_column [Op.Gt] [Constant (CInt 30)])].

(** A snippet that counts the rows of a filtered table. *)
Definition snippet_under_18 : string :=
  "result = {'type': 'number', 'value': len(dfs[0][dfs[0]['age'] < 18])}".

Definition tree_under_18 : node :=
  Module_
    [Assign 1 [Name "result"]
       (Other
          [Constant (CStr "type"); Constant (CStr "value");
           Constant (CStr "number");
           Call (Name "len")
             [Subscript (Subscript (Name "dfs") (Constant (CInt 0)))
                (Compare 1 age_column [Op.Lt] [Constant (CInt 18)])]])].

(** A snippet that needs no dataset. *)
Definition snippet_one : string := "result = {'type': 'number', 'value': 1}".

Definition tree_one : node :=
  Module_
    [Assign 1 [Name "result"]
       (Other
          [Constant (CStr "type"); Constant (CStr "value");
           Constant (CStr "number"); Constant (CInt 1)])].

(** A snippet whose result is tagged as a table and carries a scalar. *)
Definition snippet_scalar_table : string :=
  "result = {'type': 'dataframe', 'value': 5}".

Definition tree_scalar_table : node :=
  Module_
    [Assign 1 [Name "result"]
       (Other
          [Constant (CStr "type"); Constant (CStr "value");
           Constant (CStr "dataframe"); Constant (CInt 5)])].

(** A text that is not a Python program. *)
Definition snippet_broken : string := "result = dfs[0][".

Definition ast_parse (code : string) : option node :=
  if String.eqb code snippet_over_30 then Some tree_over_30
  else if String.eqb code snippet_under_18 then Some tree_under_18
  else if String.eqb code snippet_one then Some tree_one
  else if String.eqb code snippet_scalar_table then Some tree_scalar_table
  else None.

Definition exec (code : string) (env : environment connector dataframe)
    (w : world) : outcome exn (option (result_t dataframe)) * world :=
  if String.eqb code snippet_over_30 then (Return None, w)
  else if String.eqb code snippet_under_18
  then (Return (Some {| type := "number"; value := VInt 0 |}), w)
  else if String.eqb code snippet_one
  then (Return (Some {| type := "number"; value := VInt 1 |}), w)
  else if String.eqb code snippet_scalar_table
  then (Return (Some {| type := "dataframe"; value := VInt 5 |}), w)
  else (Raise SyntaxError, w).

Definition loans_context (cfg : Config) (current : string)
    (hint : option string) : PipelineContext connector :=
  {| dfs := ["loans"];
     enforce_grouping := false;
     config := cfg;
     additional_dependencies := [];
     current_code_executed := current;
     output_type := hint;
     used_skills := [] |}.

Definition correcting (retries : Z) : Config :=
  {| max_retries := retries;
     use_error_correction_framework := true;
     direct_sql := false |}.

Definition not_correcting (retries : Z) : Config :=
  {| max_retries := retries;
     use_error_correction_framework := false;
     direct_sql := false |}.

(** A repair callback that always answers with [code']. *)
Definition answer (code' : string) (code : string) (e : exn) (w : world)
  : outcome exn string * world := (Return code', w).

Definition run (self : CodeExecution connector world) (input : string)
  : option (outcome exn (LogicUnitOutput dataframe serialized) * world
            * list (event connector dataframe)) :=
  execute ast_parse node_repr get_environment columns materialize exec
    validate_spec validate_result_spec serialize format_exc self input tt.

Definition run_attempt (self : CodeExecution connector world) (code : string)
  : outcome exn (result_t dataframe) * world * list (event connector dataframe) :=
  attempt ast_parse node_repr get_environment columns materialize exec
    validate_spec validate_result_spec self code tt.

Definition run_code (self : CodeExecution connector world) (code : string)
  : outcome exn (result_t dataframe) * world * list (event connector dataframe) :=
  execute_code ast_parse node_repr get_environment materialize exec self code tt.

(** Correction enabled, two retries, a callback that keeps answering with
    the snippet that binds no result. *)
Definition stubborn_stage : CodeExecution connector world :=
  {| on_failure := true;
     on_retry := Some (answer snippet_over_30);
     context := loans_context (correcting 2) snippet_over_30 None |}.

Lemma execute_exhausts_retry_budget_witness :
  exists e w' t,
    run stubborn_stage snippet_over_30 = Some (Raise e, w', t) /\
    sandbox_invocations t = 3 /\
    last_failure t = Some e /\
    exists code0 t0,
      code0 = snippet_over_30 /\
      run_attempt stubborn_stage code0 = (Raise e, w', t0).
Proof.
  assert (Hw : forall (code0 : string) (w0 : world) (e : exn) (w' : world)
                 (t0 : list (event connector dataframe)),
            attempt ast_parse node_repr get_environment columns materialize
              exec validate_spec validate_result_spec stubborn_stage code0 w0
              = (Raise e, w', t0) ->
            run_attempt stubborn_stage code0 = (Raise e, w', t0)).
  { intros code0 [] e w' t0 H. exact H. }
  destruct (execute_exhausts_retry_budget ast_parse node_repr get_environment
              columns materialize exec validate_spec validate_result_spec
              serialize format_exc stubborn_stage
              (answer snippet_over_30) (fun code _ => code = snippet_over_30)
              snippet_over_30 tt) as (e & w' & t & Hrun & Hn & Hl & Hfrom);
    [| | | | |
     exists e, w', t; split; [exact Hrun|]; split; [exact Hn|];
     split; [exact Hl|];
     destruct Hfrom as (code0 & w0 & t0 & Hc & Ha);
     exists code0, t0; split; [exact Hc | exact (Hw _ _ _ _ _ Ha)]].
  - reflexivity.
  - simpl. lia.
  - reflexivity.
  - reflexivity.
  - intros code w0 Hcode. rewrite Hcode. destruct w0.
    eexists _, _, _. split; [vm_compute; reflexivity|].
    eexists _, _. split; reflexivity.
Defined.

(** Correction disabled, three retries allowed. *)
Definition plain_stage : CodeExecution connector world :=
  {| on_failure := false;
     on_retry := Some (answer snippet_one);
     context := loans_context (not_correcting 3) snippet_over_30 None |}.

Lemma execute_fails_once_without_correction_witness :
  exists t,
    run plain_stage snippet_over_30
      = Some (Raise (NoResultFoundError "No result returned"), tt, t) /\
    sandbox_invocations t = 1 /\
    last_failure t = Some (NoResultFoundError "No result returned").
Proof.
  eapply (execute_fails_once_without_correction ast_parse node_repr
            get_environment columns materialize exec validate_spec
            validate_result_spec serialize format_exc
            plain_stage snippet_over_30 tt tt).
  - simpl. lia.
  - left. reflexivity.
  - vm_compute. reflexivity.
Defined.

Lemma required_dfs_scoping_witness :
  ~ all_datasets_idiom snippet_over_30 /\
  occurs (slot_label 0) snippet_over_30 /\
  nth_error (_required_dfs plain_stage snippet_over_30) 0 = Some (Some "loans"%string).
Proof.
  assert (Hno : ~ all_datasets_idiom snippet_over_30).
  { intros H. apply idiom_spec in H. vm_compute in H. discriminate. }
  assert (Hocc : occurs (slot_label 0) snippet_over_30).
  { exists EmptyString, "['age'] > 30"%string. reflexivity. }
  split; [exact Hno|]. split; [exact Hocc|].
  destruct (required_dfs_scoping ast_parse node_repr materialize
              plain_stage snippet_over_30) as [_ [Hpruned _]].
  destruct (Hpruned Hno) as [_ Hnth].
  destruct (Hnth 0 "loans"%string eq_refl) as [Hpresent _].
  exact (Hpresent Hocc).
Defined.

(** C6 as stated fails: the snippet has neither a loop over the
    collection nor a concatenation of it, and the computation returns the
    full list of datasets all the same, because the token of the only
    slot occurs in the text. *)
Lemma full_list_without_idiom :
  ~ all_datasets_idiom snippet_over_30 /\
  _required_dfs plain_stage snippet_over_30
    = map Some (dfs (context plain_stage)).
Proof.
  split; [|reflexivity].
  intros H. apply idiom_spec in H. vm_compute in H. discriminate.
Qed.

(** The broken text is what the stage analyses and runs; no correction. *)
Definition broken_stage : CodeExecution connector world :=
  {| on_failure := false;
     on_retry := None;
     context := loans_context (not_correcting 1) snippet_broken None |}.

(** The broken text is analysed and run; correction is enabled and the
    repair callback answers with the snippet that needs no dataset. *)
Definition repairing_stage : CodeExecution connector world :=
  {| on_failure := false;
     on_retry := Some (answer snippet_one);
     context := loans_context (correcting 1) snippet_broken None |}.


(** The namespace of a snippet that needs no dataset. *)
Definition no_table : environment connector dataframe :=
  [("dfs"%string, EDfs [None]); ("df"%string, EDf None)].


(** The result is tagged as a table and carries a scalar; no hint. *)
Definition mismatch_stage (hint : option string) : CodeExecution connector world :=
  {| on_failure := false;
     on_retry := Some (answer snippet_one);
     context := loans_context (correcting 1) snippet_scalar_table hint |}.

Definition scalar_table : result_t dataframe :=
  {| type := "dataframe"; value := VInt 5 |}.

Lemma value_mismatch_enters_retry_loop_witness :
  run_attempt (mismatch_stage None) snippet_scalar_table
    = (Raise (InvalidOutputValueMismatch
                "Value type <class 'int'> must match with type dataframe"),
       tt,
       [EvExecuteCode snippet_scalar_table;
        EvExec snippet_scalar_table no_table]).
Proof.
  refine (proj1
    (value_mismatch_enters_retry_loop ast_parse node_repr get_environment
       columns materialize exec validate_spec validate_result_spec serialize
       format_exc
       (mismatch_stage None) snippet_scalar_table tt tt scalar_table _ _ _ _ _)).
  - reflexivity.
  - vm_compute. reflexivity.
  - intros h Hh. discriminate.
  - reflexivity.
Defined.

(** C8 as stated fails: with the hint [dataframe], the same result, whose
    value is not consistent with its tag, makes the attempt raise
    [InvalidLLMOutputType], not [InvalidOutputValueMismatch]. *)
Lemma value_mismatch_hidden_by_hint :
  fst (fst (run_code (mismatch_stage (Some "dataframe"%string)) snippet_scalar_table))
    = Return scalar_table /\
  validate_result_spec scalar_table = false /\
  fst (fst (run_attempt (mismatch_stage (Some "dataframe"%string)) snippet_scalar_table))
    = Raise (InvalidLLMOutputType
               ["The result does not match the expected type 'dataframe'."%string]).
Proof. repeat split; vm_compute; reflexivity. Qed.

(** One retry, with a callback that answers with the snippet that filters
    on [age < 18]. *)
Definition retrying_stage : CodeExecution connector world :=
  {| on_failure := false;
     on_retry := Some (answer snippet_under_18);
     context := loans_context (correcting 1) snippet_over_30 None |}.

Definition over_30 : predicate := (VConst (CStr "age"), ">"%string, VConst (CInt 30)).
Definition under_18 : predicate := (VConst (CStr "age"), "<"%string, VConst (CInt 18)).

(** The namespace with the table of the loans loaded under [age > 30]. *)
Definition loaded_over_30 : environment connector dataframe :=
  [("dfs"%string, EDfs [Some [over_30]]);
   ("df"%string, EDf (Some [over_30]))].

(** C9 fails on the code: the first snippet filters on [age > 30] and
    binds no result; the repair callback answers with a snippet whose own
    filter is [age < 18]; in the second attempt the table is loaded under
    the filter of the first snippet, and the second snippet runs on it. *)
Theorem retry_applies_filters_of_first_snippet :
  _extract_filters ast_parse node_repr snippet_under_18
    = Return [("dfs[0]"%string, [under_18])] /\
  run retrying_stage snippet_over_30
    = Some
        (Return (answered {| type := "number"; value := VInt 0 |}), tt,
         [EvExecuteCode snippet_over_30;
          EvExtractFilters snippet_over_30;
          EvSetAdditionalFilters 0 "loans"%string [over_30];
          EvExecute 0 "loans"%string;
          EvExec snippet_over_30 loaded_over_30;
          EvLogFailure snippet_over_30 (NoResultFoundError "No result returned");
          EvLogRetry 1;
          EvOnRetry snippet_over_30 (NoResultFoundError "No result returned");
          EvExecuteCode snippet_under_18;
          EvExtractFilters snippet_over_30;
          EvSetAdditionalFilters 0 "loans"%string [over_30];
          EvExecute 0 "loans"%string;
          EvExec snippet_under_18 loaded_over_30]).
Proof. split; vm_compute; reflexivity. Qed.

End LoanExample.

(** ** Predicate extractor *)

Module ExtractorFacts.
Import PyStr PyAst CodeExecution.
Local Open Scope list_scope.

(** *** [ast.walk] visits every node *)

Fixpoint total_size (l : list node) : nat :=
  match l with
  | [] => 0
  | x :: r => size x + total_size r
  end.

Lemma total_size_app (l1 l2 : list node) :
  total_size (l1 ++ l2) = total_size l1 + total_size l2.
Proof. induction l1 as [|x l1 IH]; simpl; [reflexivity | rewrite IH; lia]. Qed.

Lemma size_children (n : node) : size n = S (total_size (iter_child_nodes n)).
Proof.
  assert (Hs : forall l,
    (fix sizes (l : list node) : nat :=
       match l with
       | [] => 0
       | x :: r => size x + sizes r
       end) l = total_size l).
  { induction l as [|x l IH]; simpl; [reflexivity | now rewrite IH]. }
  destruct n; simpl; rewrite ?Hs, ?total_size_app; simpl; lia.
Qed.

Lemma size_positive (n : node) : 0 < size n.
Proof. rewrite size_children. lia. Qed.

Lemma walk_queue_length (fuel : nat) (todo : list node) :
  total_size todo <= fuel ->
  List.length (walk_queue fuel todo) = total_size todo.
Proof.
  revert todo; induction fuel as [|fuel IH]; intros todo H.
  - destruct todo as [|n rest]; [reflexivity|].
    simpl in H. pose proof (size_positive n). lia.
  - destruct todo as [|n rest]; [reflexivity|].
    cbn [walk_queue List.length total_size].
    rewrite IH.
    + rewrite total_size_app, (size_children n). lia.
    + rewrite total_size_app. simpl in H. rewrite (size_children n) in H. lia.
Qed.

(** The fuel [walk] gives to the loop is enough: every node is yielded. *)
Lemma walk_length (tree : node) : List.length (walk tree) = size tree.
Proof.
  unfold walk. rewrite walk_queue_length; simpl; lia.
Qed.

(** More fuel does not change what the loop yields. *)
Lemma walk_queue_fuel (f1 f2 : nat) (todo : list node) :
  total_size todo <= f1 -> total_size todo <= f2 ->
  walk_queue f1 todo = walk_queue f2 todo.
Proof.
  revert f2 todo; induction f1 as [|f1 IH]; intros f2 todo H1 H2.
  - destruct todo as [|n rest]; [destruct f2; reflexivity|].
    simpl in H1. pose proof (size_positive n). lia.
  - destruct todo as [|n rest]; [destruct f2; reflexivity|].
    destruct f2 as [|f2].
    + simpl in H2. pose proof (size_positive n). lia.
    + cbn [walk_queue]. f_equal. simpl in H1, H2.
      rewrite (size_children n) in H1, H2.
      apply IH; rewrite total_size_app; lia.
Qed.

(** *** [ast.walk] yields the nodes of the tree, each once *)

Lemma preorder_children (n : node) :
  preorder n = n :: flat_map preorder (iter_child_nodes n).
Proof.
  assert (Hv : forall l,
    (fix visit_all (l : list node) : list node :=
       match l with
       | [] => []
       | x :: r => preorder x ++ visit_all r
       end) l = flat_map preorder l).
  { induction l as [|x l IH]; simpl; [reflexivity | now rewrite IH]. }
  destruct n; simpl; rewrite ?Hv, ?flat_map_app; simpl;
    rewrite ?app_nil_r; reflexivity.
Qed.

Lemma walk_queue_permutation (fuel : nat) (todo : list node) :
  total_size todo <= fuel ->
  Permutation (walk_queue fuel todo) (flat_map preorder todo).
Proof.
  revert todo; induction fuel as [|fuel IH]; intros todo H.
  - destruct todo as [|n rest]; [constructor|].
    simpl in H. pose proof (size_positive n). lia.
  - destruct todo as [|n rest]; [constructor|].
    cbn [walk_queue flat_map]. rewrite (preorder_children n).
    simpl. constructor.
    rewrite IH.
    + rewrite flat_map_app. apply Permutation_app_comm.
    + rewrite total_size_app. simpl in H. rewrite (size_children n) in H. lia.
Qed.

Lemma walk_permutation (tree : node) : Permutation (walk tree) (preorder tree).
Proof.
  unfold walk. rewrite walk_queue_permutation; simpl; [|lia].
  now rewrite app_nil_r.
Qed.

(** The pairs of one node. *)
Definition pairs_of (n : node) : nat :=
  match n with
  | Compare _ (Subscript _ _) ops comparators =>
      List.length (combine ops comparators)
  | _ => 0
  end.

Lemma pair_count_cons (n : node) (l : list node) :
  pair_count (n :: l) = pairs_of n + pair_count l.
Proof.
  destruct n as [b|ln tg v|v|ln lhs ops comparators|v s|f ar|v at_|id|c|ch];
    try reflexivity.
  destruct lhs; reflexivity.
Qed.

Lemma pair_count_permutation (l1 l2 : list node) :
  Permutation l1 l2 -> pair_count l1 = pair_count l2.
Proof.
  induction 1 as [|x l l' _ IH|x y l|l l' l'' _ IH1 _ IH2].
  - reflexivity.
  - rewrite !pair_count_cons, IH. reflexivity.
  - rewrite !pair_count_cons. lia.
  - congruence.
Qed.

(** The pairs [ast.walk] meets are the pairs of the snippet. *)
Lemma pair_count_walk (tree : node) :
  pair_count (walk tree) = pair_count (preorder tree).
Proof. apply pair_count_permutation, walk_permutation. Qed.

(** *** The sort of the assignments *)

Definition line_le (a b : assign) : Prop := (lineno a <= lineno b)%Z.

Lemma insert_by_lineno_in (a x : assign) (l : list assign) :
  In x (insert_by_lineno a l) <-> x = a \/ In x l.
Proof.
  induction l as [|b l IH]; simpl.
  - intuition.
  - destruct (lineno a <=? lineno b)%Z; simpl.
    + intuition.
    + rewrite IH. intuition.
Qed.

Lemma sorted_by_lineno_in (x : assign) (l : list assign) :
  In x (sorted_by_lineno l) <-> In x l.
Proof.
  induction l as [|a l IH]; simpl; [reflexivity|].
  rewrite insert_by_lineno_in, IH. intuition.
Qed.

Lemma insert_by_lineno_sorted (a : assign) (l : list assign) :
  StronglySorted line_le l -> StronglySorted line_le (insert_by_lineno a l).
Proof.
  induction l as [|b l IH]; intros Hs; simpl.
  - constructor; constructor.
  - inversion Hs as [|? ? Hl Hb]; subst.
    destruct (lineno a <=? lineno b)%Z eqn:E.
    + apply Z.leb_le in E. constructor; [exact Hs|].
      constructor; [exact E|].
      rewrite Forall_forall in *. intros x Hx. specialize (Hb x Hx).
      unfold line_le in *. lia.
    + apply Z.leb_gt in E. constructor; [apply IH; exact Hl|].
      rewrite Forall_forall in *. intros x Hx.
      apply insert_by_lineno_in in Hx. destruct Hx as [->|Hx].
      * unfold line_le. lia.
      * apply Hb; exact Hx.
Qed.

Lemma sorted_by_lineno_sorted (l : list assign) :
  StronglySorted line_le (sorted_by_lineno l).
Proof.
  induction l as [|a l IH]; simpl; [constructor|].
  apply insert_by_lineno_sorted; exact IH.
Qed.

Section Attribution.

Variable node_repr : node -> string.

Local Abbreviation label_of := (assignment_label node_repr).
Local Abbreviation slot_of := (bound_slot node_repr).
Local Abbreviation lookup := (_get_df_id_by_nearest_assignment node_repr).
Local Abbreviation nearest := (nearest_binding node_repr).

(** *** The nearest assignment *)

(** The [try] block sets [nearest_assignment] exactly for the assignments
    of the form [name = dfs[<i>]]; on the others it leaves it as it was or
    raises [AttributeError], which the loop skips. *)
Lemma assignment_label_spec (target_name : pyval) (a : assign) :
  targets a <> [] ->
  match slot_of target_name a with
  | Some label => label_of a target_name = Return (Some label)
  | None =>
      label_of a target_name = Return None \/
      label_of a target_name = Raise AttributeError
  end.
Proof.
  intros Ht. unfold bound_slot, assignment_label.
  destruct (targets a) as [|t0 more]; [contradiction|].
  destruct (PyAst.value a) as [b|ln tg v|v|ln l o c|v s|f ar|v at_|id|c|ch];
    try (destruct t0; cbn; auto; fail);
    destruct v; try (destruct t0; cbn; auto; fail);
    destruct t0; cbn; auto;
    repeat match goal with
           | |- context [String.eqb ?x ?y] => destruct (String.eqb x y); cbn; auto
           | |- context [str_eq_pyval ?x ?y] => destruct (str_eq_pyval x y); cbn; auto
           | |- context [attr_value ?x] => destruct (attr_value x); cbn; auto
           end.
Qed.

Lemma later_lines_filtered (ln : Z) (a : assign) (l : list assign) :
  (ln < lineno a)%Z ->
  Forall (line_le a) l ->
  filter (fun b => (lineno b <=? ln)%Z) l = [].
Proof.
  intros Ha Hl. induction l as [|b l IH]; [reflexivity|].
  inversion Hl as [|? ? Hb Hl']; subst. simpl.
  replace (lineno b <=? ln)%Z with false
    by (symmetry; apply Z.leb_gt; unfold line_le in Hb; lia).
  apply IH; exact Hl'.
Qed.

Lemma nearest_assignment_loop_spec (ln : Z) (target_name : pyval)
    (l : list assign) (acc : option string) :
  StronglySorted line_le l ->
  Forall (fun a => targets a <> []) l ->
  nearest_assignment_loop node_repr ln target_name l acc
    = Return
        (if existsb (fun a => (lineno a >? ln)%Z) l
         then last_some
                (map (slot_of target_name)
                   (filter (fun a => (lineno a <=? ln)%Z) l)) acc
         else None).
Proof.
  revert acc; induction l as [|a l IH]; intros acc Hs Ht; [reflexivity|].
  inversion Hs as [|? ? Hsl Hal]; subst.
  inversion Ht as [|? ? Hta Htl]; subst.
  cbn [nearest_assignment_loop existsb filter].
  destruct (lineno a >? ln)%Z eqn:Hgt.
  - rewrite Z.gtb_ltb in Hgt. apply Z.ltb_lt in Hgt.
    replace (lineno a <=? ln)%Z with false by (symmetry; apply Z.leb_gt; lia).
    rewrite (later_lines_filtered ln a l Hgt Hal). reflexivity.
  - rewrite Z.gtb_ltb in Hgt. apply Z.ltb_ge in Hgt.
    replace (lineno a <=? ln)%Z with true by (symmetry; apply Z.leb_le; lia).
    cbn [orb map].
    pose proof (assignment_label_spec target_name a Hta) as Hlab.
    destruct (slot_of target_name a) as [label|].
    + rewrite Hlab. rewrite (IH (Some label) Hsl Htl). reflexivity.
    + destruct Hlab as [Hlab|Hlab]; rewrite Hlab;
        rewrite (IH acc Hsl Htl); reflexivity.
Qed.

(** The lookup of the code against the rule of the claim: it finds the
    nearest assignment when some assignment lies on a later line, and
    nothing otherwise. *)
Lemma lookup_spec (ln : Z) (assignments : list assign) (target_name : pyval) :
  Forall (fun a => targets a <> []) assignments ->
  lookup ln assignments target_name
    = Return
        (if existsb (fun a => (lineno a >? ln)%Z) assignments
         then nearest ln target_name assignments
         else None).
Proof.
  intros Ht. unfold _get_df_id_by_nearest_assignment.
  rewrite nearest_assignment_loop_spec.
  - unfold nearest_binding.
    assert (He : existsb (fun a => (lineno a >? ln)%Z) (sorted_by_lineno assignments)
                 = existsb (fun a => (lineno a >? ln)%Z) assignments).
    { apply eq_true_iff_eq. rewrite !existsb_exists.
      split; intros [x [Hx Hg]]; exists x; split; auto;
        apply sorted_by_lineno_in; auto. }
    now rewrite He.
  - apply sorted_by_lineno_sorted.
  - rewrite Forall_forall in *. intros x Hx. apply Ht.
    now apply sorted_by_lineno_in.
Qed.

(** *** The dictionary of comparisons *)

Lemma dict_get_dd_append_same (k : string) (p : predicate) (d : comparisons_t) :
  dict_get k (dd_append k p d) = dict_get k d ++ [p].
Proof.
  induction d as [|[k0 l] d IH]; simpl.
  - now rewrite String.eqb_refl.
  - destruct (String.eqb k0 k) eqn:E; simpl; rewrite E; auto.
Qed.

Lemma dict_get_dd_append_other (k k' : string) (p : predicate) (d : comparisons_t) :
  k' <> k -> dict_get k' (dd_append k p d) = dict_get k' d.
Proof.
  intros Hne. induction d as [|[k0 l] d IH]; simpl.
  - apply String.eqb_neq in Hne. rewrite String.eqb_sym. now rewrite Hne.
  - destruct (String.eqb k0 k) eqn:E; simpl.
    + apply String.eqb_eq in E. subst k0.
      replace (String.eqb k k') with false; [reflexivity|].
      symmetry. apply String.eqb_neq. congruence.
    + destruct (String.eqb k0 k'); auto.
Qed.

(** Appending attributed predicates one after the other. *)
Definition group (e : list (string * predicate)) (acc : comparisons_t)
  : comparisons_t :=
  fold_left (fun d kp => dd_append (fst kp) (snd kp) d) e acc.

Lemma group_app (e1 e2 : list (string * predicate)) (acc : comparisons_t) :
  group (e1 ++ e2) acc = group e2 (group e1 acc).
Proof. unfold group. apply fold_left_app. Qed.

Lemma group_one_slot_get (d : string) (ps : list predicate) (acc : comparisons_t) :
  dict_get d (group (map (pair d) ps) acc) = dict_get d acc ++ ps /\
  forall k, k <> d ->
    dict_get k (group (map (pair d) ps) acc) = dict_get k acc.
Proof.
  revert acc; induction ps as [|p ps IH]; intros acc; simpl.
  - split; [now rewrite app_nil_r | reflexivity].
  - destruct (IH (dd_append d p acc)) as [H1 H2]. split.
    + unfold group in *. simpl. rewrite H1, dict_get_dd_append_same.
      now rewrite <- app_assoc.
    + intros k Hk. unfold group in *. simpl. rewrite (H2 k Hk).
      now apply dict_get_dd_append_other.
Qed.

(** A dictionary filled with predicates of one slot has one entry. *)
Lemma group_single_slot (d : string) (e : list (string * predicate))
    (l : list predicate) :
  Forall (fun kp => fst kp = d) e ->
  group e [(d, l)] = [(d, l ++ map snd e)].
Proof.
  revert l; induction e as [|[k p] e IH]; intros l Hall; simpl.
  - now rewrite app_nil_r.
  - inversion Hall as [|? ? Hk He]; subst. simpl in *.
    unfold group in *. simpl. rewrite String.eqb_refl.
    rewrite (IH (l ++ [p]) He). now rewrite <- app_assoc.
Qed.

Lemma group_single_slot_empty (d : string) (e : list (string * predicate)) :
  e <> [] ->
  Forall (fun kp => fst kp = d) e ->
  group e [] = [(d, map snd e)].
Proof.
  intros Hne Hall. destruct e as [|[k p] e]; [contradiction|].
  inversion Hall as [|? ? Hk He]; subst. simpl in *.
  unfold group. simpl. apply (group_single_slot k e [p] He).
Qed.

Local Abbreviation loop := (comparisons_loop node_repr).
Local Abbreviation emitted := (emitted_loop node_repr).

Lemma pair_predicates_length (left_str : pyval) (pairs : list (cmpop * node))
    (ps : list predicate) :
  pair_predicates left_str pairs = Return ps ->
  List.length ps = List.length pairs.
Proof.
  revert ps; induction pairs as [|[op rhs] pairs IH]; intros ps; simpl.
  - intros H. inversion H. reflexivity.
  - destruct (_tokenize_operand rhs) as [tokens|e]; simpl; [|discriminate].
    destruct (unpack tokens) as [ns|e]; simpl; [|discriminate].
    destruct (pair_predicates left_str pairs) as [more|e]; simpl; [|discriminate].
    intros H. inversion H. simpl. f_equal. now apply IH.
Qed.

(** The inner loop of the code appends the predicates of the comparison,
    in order, to the slot it is given. *)
Lemma append_pairs_spec (current_df : string) (left_str : pyval)
    (pairs : list (cmpop * node)) (comparisons : comparisons_t) :
  append_pairs current_df left_str pairs comparisons
    = bind (pair_predicates left_str pairs)
        (fun ps => Return (group (map (pair current_df) ps) comparisons)).
Proof.
  revert comparisons; induction pairs as [|[op rhs] pairs IH];
    intros comparisons; simpl; [reflexivity|].
  destruct (_tokenize_operand rhs) as [tokens|e]; simpl; [|reflexivity].
  destruct (unpack tokens) as [ns|e]; simpl; [|reflexivity].
  rewrite IH.
  destruct (pair_predicates left_str pairs) as [more|e]; reflexivity.
Qed.

(** The loop of the code fills the dictionary with the attributed
    predicates of the nodes, in the order of the nodes. *)
Lemma comparisons_loop_spec (assignments : list assign) (nodes : list node)
    (comparisons : comparisons_t) (current_df : string) :
  loop assignments nodes comparisons current_df
    = bind (emitted assignments nodes current_df)
        (fun e => Return (group e comparisons)).
Proof.
  revert comparisons current_df; induction nodes as [|n nodes IH];
    intros comparisons current_df; [reflexivity|].
  destruct n as [b|ln tg v|v|ln lhs ops comparators|v s|f ar|v at_|id|c|ch];
    try (cbn [comparisons_loop emitted_loop]; apply IH).
  destruct lhs as [b|ln' tg v|v|ln' l o c|v s|f ar|v at_|id|c|ch];
    try (cbn [comparisons_loop emitted_loop]; apply IH).
  cbn [comparisons_loop emitted_loop]. unfold handle_compare.
  destruct (_tokenize_operand (Subscript v s)) as [tokens|e];
    cbn [bind]; [|reflexivity].
  destruct (unpack tokens) as [ns|e]; cbn [bind]; [|reflexivity].
  destruct (lookup ln assignments (fst ns)) as [found|e]; cbn [bind]; [|reflexivity].
  rewrite append_pairs_spec.
  destruct (pair_predicates _ _) as [ps|e]; cbn [bind fst snd]; [|reflexivity].
  rewrite IH.
  destruct (emitted assignments nodes _) as [more|e]; cbn [bind]; [|reflexivity].
  now rewrite group_app.
Qed.

Lemma emitted_loop_length (assignments : list assign) (nodes : list node)
    (current_df : string) (e : list (string * predicate)) :
  emitted assignments nodes current_df = Return e ->
  List.length e = pair_count nodes.
Proof.
  revert current_df e; induction nodes as [|n nodes IH]; intros current_df e.
  - simpl. intros H. inversion H. reflexivity.
  - destruct n as [b|ln tg v|v|ln lhs ops comparators|v s|f ar|v at_|id|c|ch];
      try (cbn [emitted_loop pair_count]; apply IH).
    destruct lhs as [b|ln' tg v|v|ln' l o c|v s|f ar|v at_|id|c|ch];
      try (cbn [emitted_loop pair_count]; apply IH).
    cbn [emitted_loop pair_count].
    destruct (_tokenize_operand (Subscript v s)) as [tokens|x];
      cbn [bind]; [|discriminate].
    destruct (unpack tokens) as [ns|x]; cbn [bind]; [|discriminate].
    destruct (lookup ln assignments (fst ns)) as [found|x];
      cbn [bind]; [|discriminate].
    destruct (pair_predicates _ _) as [ps|x] eqn:Hps; cbn [bind]; [|discriminate].
    destruct (emitted assignments nodes _) as [more|x] eqn:Hmore;
      cbn [bind]; [|discriminate].
    intros H. inversion H.
    rewrite length_app, length_map.
    rewrite (pair_predicates_length _ _ _ Hps), (IH _ _ Hmore). reflexivity.
Qed.

(** Without their slots, the attributed predicates are the predicates of
    the nodes, one node after the other. *)
Lemma emitted_loop_predicates (assignments : list assign) (nodes : list node)
    (current_df : string) (e : list (string * predicate)) :
  emitted assignments nodes current_df = Return e ->
  map snd e = flat_map predicates_of_node nodes.
Proof.
  revert current_df e; induction nodes as [|n nodes IH]; intros current_df e.
  - simpl. intros H. inversion H. reflexivity.
  - destruct n as [b|ln tg v|v|ln lhs ops comparators|v s|f ar|v at_|id|c|ch];
      try (cbn [emitted_loop flat_map predicates_of_node app]; apply IH).
    destruct lhs as [b|ln' tg v|v|ln' l o c|v s|f ar|v at_|id|c|ch];
      try (cbn [emitted_loop flat_map predicates_of_node app]; apply IH).
    cbn [emitted_loop flat_map predicates_of_node].
    destruct (_tokenize_operand (Subscript v s)) as [tokens|x];
      cbn [bind]; [|discriminate].
    destruct tokens as [|name slices]; cbn [unpack bind fst snd]; [discriminate|].
    destruct (lookup ln assignments name) as [found|x];
      cbn [bind]; [|discriminate].
    destruct (pair_predicates _ _) as [ps|x]; cbn [bind]; [|discriminate].
    destruct (emitted assignments nodes _) as [more|x] eqn:Hmore;
      cbn [bind]; [|discriminate].
    intros H. inversion H.
    rewrite map_app, map_map. cbn [snd]. rewrite map_id.
    now rewrite (IH _ _ Hmore).
Qed.


(** The extraction starts at slot 0. *)
Remark extraction_starts_at_slot_0 (tree : node) :
  _extract_comparisons node_repr tree
    = loop (assignment_nodes tree) (walk tree) [] "dfs[0]"%string.
Proof. reflexivity. Qed.


End Attribution.

(** *** Concrete snippets *)

Definition node_text (n : node) : string := "<ast.AST object>".

(** [base['col']] *)
Definition column (base col : string) : node :=
  Subscript (Name base) (Constant (CStr col)).

(** The tree of
<<
x = dfs[1]
x['a'] > 1
z['b'] < 2
y = 0
>> *)
Definition carried_tree : node :=
  Module_
    [Assign 1 [Name "x"] (Subscript (Name "dfs") (Constant (CInt 1)));
     Expr (Compare 2 (column "x" "a") [Op.Gt] [Constant (CInt 1)]);
     Expr (Compare 3 (column "z" "b") [Op.Lt] [Constant (CInt 2)]);
     Assign 4 [Name "y"] (Constant (CInt 0))].

Definition a_above_1 : predicate := (VConst (CStr "a"), ">"%string, VConst (CInt 1)).
Definition b_below_2 : predicate := (VConst (CStr "b"), "<"%string, VConst (CInt 2)).



(** The tree of
<<
x = dfs[1]
x['a'] > 1
>>
No assignment lies after the comparison, the lookup of the code runs off
the end of its loop without a [return], and the predicate lands in slot 0
although [x] is bound to slot 1. *)
Definition last_line_tree : node :=
  Module_
    [Assign 1 [Name "x"] (Subscript (Name "dfs") (Constant (CInt 1)));
     Expr (Compare 2 (column "x" "a") [Op.Gt] [Constant (CInt 1)])].

Lemma lookup_without_later_assignment :
  nearest_binding node_text 2 (VConst (CStr "x")) (assignment_nodes last_line_tree)
    = Some "dfs[1]"%string /\
  _get_df_id_by_nearest_assignment node_text 2 (assignment_nodes last_line_tree)
    (VConst (CStr "x")) = Return None /\
  _extract_comparisons node_text last_line_tree
    = Return [("dfs[0]"%string, [a_above_1])].
Proof. repeat split; vm_compute; reflexivity. Qed.

(** The tree of
<<
r = f(df['a'] > 1)
df['b'] < 2
>> *)
Definition nested_tree : node :=
  Module_
    [Assign 1 [Name "r"]
       (Call (Name "f")
          [Compare 1 (column "df" "a") [Op.Gt] [Constant (CInt 1)]]);
     Expr (Compare 2 (column "df" "b") [Op.Lt] [Constant (CInt 2)])].


Definition parse_nested (code : string) : option node :=
  if String.eqb code "r = f(df['a'] > 1)
df['b'] < 2"
  then Some nested_tree else None.


End ExtractorFacts.

(** * Further parts of the sources *)

(** ** Intermediate values of the pipeline context
    ([pandasai/pipelines/pipeline_context.py]) *)

Module ContextStore.
Local Open Scope list_scope.

Section Store.

(** The values kept in the context: any Python object. *)
Variable V : Type.

(** A Python [dict] with string keys, in insertion order. *)
Definition dict : Type := list (string * V).

(** [d[key] = value] *)
Fixpoint dict_set (key : string) (v : V) (d : dict) : dict :=
  match d with
  | [] => [(key, v)]
  | (k0, v0) :: rest =>
      if String.eqb k0 key then (k0, v) :: rest
      else (k0, v0) :: dict_set key v rest
  end.

Fixpoint dict_lookup (key : string) (d : dict) : option V :=
  match d with
  | [] => None
  | (k0, v0) :: rest => if String.eqb k0 key then Some v0 else dict_lookup key rest
  end.

(** [d.update(values)] *)
Definition dict_update (d values : dict) : dict :=
  fold_left (fun acc kv => dict_set (fst kv) (snd kv) acc) values d.

(** Dictionaries are objects: the heap holds them, a reference is the
    index of a cell. *)
Definition heap : Type := list dict.

Definition read (h : heap) (a : nat) : dict := nth a h [].

Fixpoint write (h : heap) (a : nat) (d : dict) : heap :=
  match h, a with
  | [], _ => []
  | _ :: rest, O => d :: rest
  | x :: rest, S a' => x :: write rest a' d
  end.

(** A new object. *)
Definition alloc (h : heap) (d : dict) : heap * nat :=
  (h ++ [d], List.length h).

(** The two attributes of [PipelineContext] that hold the values:
    [_initial_values] is [None] or a reference. *)
Record context : Type := {
  intermediate_values : nat;
  _initial_values : option nat
}.

(** [x or {}]: the object [x] itself when it is a non-empty dictionary, a
    new empty dictionary when [x] is [None] or empty. *)
Definition or_new_dict (h : heap) (x : option nat) : heap * nat :=
  match x with
  | Some a =>
      match read h a with
      | [] => alloc h []
      | _ :: _ => (h, a)
      end
  | None => alloc h []
  end.

(** The part of [__init__] that sets the two attributes. *)
Definition init (h : heap) (initial_values : option nat) : heap * context :=
  let (h', a) := or_new_dict h initial_values in
  (h', {| intermediate_values := a; _initial_values := initial_values |}).

Definition reset_intermediate_values (h : heap) (c : context) : heap * context :=
  let (h', a) := or_new_dict h (_initial_values c) in
  (h', {| intermediate_values := a; _initial_values := _initial_values c |}).

Definition add (h : heap) (c : context) (key : string) (v : V) : heap :=
  write h (intermediate_values c)
    (dict_set key v (read h (intermediate_values c))).

Definition add_many (h : heap) (c : context) (values : dict) : heap :=
  write h (intermediate_values c)
    (dict_update (read h (intermediate_values c)) values).

(** [get(key, default)]; the source gives [default] the value [""]. *)
Definition get (h : heap) (c : context) (key : string) (default : V) : V :=
  match dict_lookup key (read h (intermediate_values c)) with
  | Some v => v
  | None => default
  end.

(** The last value given to [key] in a list of pairs. *)
Fixpoint last_value (key : string) (values : dict) (found : option V) : option V :=
  match values with
  | [] => found
  | (k0, v0) :: rest =>
      last_value key rest (if String.eqb k0 key then Some v0 else found)
  end.

End Store.

Arguments dict_set {V} key v d.
Arguments dict_lookup {V} key d.
Arguments dict_update {V} d values.
Arguments read {V} h a.
Arguments write {V} h a d.
Arguments alloc {V} h d.
Arguments or_new_dict {V} h x.
Arguments init {V} h initial_values.
Arguments reset_intermediate_values {V} h c.
Arguments add {V} h c key v.
Arguments add_many {V} h c values.
Arguments get {V} h c key default.
Arguments last_value {V} key values found.

Section StoreFacts.

Context {V : Type}.

Lemma dict_lookup_set_same (key : string) (v : V) (d : dict V) :
  dict_lookup key (dict_set key v d) = Some v.
Proof.
  induction d as [|[k0 v0] d IH]; simpl.
  - now rewrite String.eqb_refl.
  - destruct (String.eqb k0 key) eqn:E; simpl; rewrite E; auto.
Qed.

Lemma dict_lookup_set_other (key key' : string) (v : V) (d : dict V) :
  key' <> key ->
  dict_lookup key' (dict_set key v d) = dict_lookup key' d.
Proof.
  intros Hne. induction d as [|[k0 v0] d IH]; simpl.
  - replace (String.eqb key key') with false; [reflexivity|].
    symmetry. apply String.eqb_neq. congruence.
  - destruct (String.eqb k0 key) eqn:E; simpl.
    + apply String.eqb_eq in E. subst k0.
      replace (String.eqb key key') with false; [reflexivity|].
      symmetry. apply String.eqb_neq. congruence.
    + destruct (String.eqb k0 key'); auto.
Qed.

Lemma read_write_same (h : heap V) (a : nat) (d : dict V) :
  a < List.length h -> read (write h a d) a = d.
Proof.
  revert a; induction h as [|x h IH]; intros a Ha; simpl in Ha; [lia|].
  destruct a as [|a]; [reflexivity|]. unfold read in *. simpl.
  apply IH. lia.
Qed.

Lemma read_write_other (h : heap V) (a b : nat) (d : dict V) :
  a <> b -> read (write h a d) b = read h b.
Proof.
  revert a b; induction h as [|x h IH]; intros a b Hne.
  - destruct a; reflexivity.
  - destruct a as [|a], b as [|b]; try reflexivity; try congruence.
    unfold read in *. simpl. apply IH. congruence.
Qed.

Lemma write_length (h : heap V) (a : nat) (d : dict V) :
  List.length (write h a d) = List.length h.
Proof.
  revert a; induction h as [|x h IH]; intros a; [destruct a; reflexivity|].
  destruct a; simpl; [reflexivity | now rewrite IH].
Qed.

Lemma write_write (h : heap V) (a : nat) (d1 d2 : dict V) :
  write (write h a d1) a d2 = write h a d2.
Proof.
  revert a; induction h as [|x h IH]; intros a; [destruct a; reflexivity|].
  destruct a as [|a]; simpl; [reflexivity | now rewrite IH].
Qed.

Lemma write_read (h : heap V) (a : nat) : write h a (read h a) = h.
Proof.
  revert a; induction h as [|x h IH]; intros a; [destruct a; reflexivity|].
  destruct a as [|a]; simpl; [reflexivity|]. f_equal. apply IH.
Qed.

Lemma read_alloc_new (h : heap V) (d : dict V) :
  read (fst (alloc h d)) (snd (alloc h d)) = d.
Proof.
  unfold alloc, read. simpl. rewrite app_nth2; [|lia].
  now rewrite Nat.sub_diag.
Qed.

Lemma read_alloc_old (h : heap V) (d : dict V) (a : nat) :
  a < List.length h -> read (fst (alloc h d)) a = read h a.
Proof.
  intros Ha. unfold alloc, read. simpl. now rewrite app_nth1.
Qed.

(** [get] after [add]: the key just added yields its value, whatever the
    default; every other key yields what it yielded before. *)
Theorem get_after_add (h : heap V) (c : context) (key : string) (v : V) :
  intermediate_values c < List.length h ->
  (forall default, get (add h c key v) c key default = v) /\
  (forall key' default, key' <> key ->
     get (add h c key v) c key' default = get h c key' default).
Proof.
  intros Hc. split.
  - intros default. unfold get, add. rewrite read_write_same by exact Hc.
    now rewrite dict_lookup_set_same.
  - intros key' default Hne. unfold get, add.
    rewrite read_write_same by exact Hc.
    now rewrite dict_lookup_set_other.
Qed.

Lemma dict_lookup_update (key : string) (values d : dict V) :
  dict_lookup key (dict_update d values)
    = last_value key values (dict_lookup key d).
Proof.
  unfold dict_update. revert d; induction values as [|[k0 v0] values IH];
    intros d; simpl; [reflexivity|].
  rewrite IH. destruct (String.eqb k0 key) eqn:E.
  - apply String.eqb_eq in E. subst k0. now rewrite dict_lookup_set_same.
  - rewrite dict_lookup_set_other; [reflexivity|].
    apply String.eqb_neq in E. congruence.
Qed.

(** [add_many] is [add] for each pair in turn, and afterwards a key yields
    the last value the pairs give it, or what it yielded before when no
    pair names it. *)
Theorem add_many_as_adds (h : heap V) (c : context) (values : dict V) :
  intermediate_values c < List.length h ->
  add_many h c values
    = fold_left (fun h' kv => add h' c (fst kv) (snd kv)) values h /\
  forall key default,
    get (add_many h c values) c key default
      = match last_value key values None with
        | Some v => v
        | None => get h c key default
        end.
Proof.
  intros Hc. split.
  - revert h Hc; induction values as [|[k0 v0] values IH]; intros h Hc.
    + unfold add_many, dict_update. simpl. apply write_read.
    + simpl. rewrite <- IH.
      * unfold add_many, add, dict_update. simpl.
        rewrite read_write_same by exact Hc. now rewrite write_write.
      * unfold add. now rewrite write_length.
  - intros key default. unfold get, add_many.
    rewrite read_write_same by exact Hc. rewrite dict_lookup_update.
    assert (Hl : forall (values' : dict V) (found : option V),
              last_value key values' found
              = match last_value key values' None with
                | Some v => Some v
                | None => found
                end).
    { induction values' as [|[k1 v1] values' IHv]; intros found; simpl;
        [reflexivity|].
      destruct (String.eqb k1 key); [|apply IHv].
      rewrite (IHv (Some v1)). destruct (last_value key values' None); reflexivity. }
    rewrite Hl. destruct (last_value key values None); reflexivity.
Qed.

(** [reset_intermediate_values] after [add].  When the context was made
    with a non-empty dictionary of initial values, the values are that
    very dictionary: the addition has changed it, and the reset, which
    takes it again, keeps the addition.  When the context was made with
    [None] or an empty dictionary, the reset takes a new empty dictionary
    and the addition is gone. *)
Theorem reset_after_add (h : heap V) (initial_values : option nat)
    (key : string) (v : V) :
  (forall a, initial_values = Some a -> a < List.length h) ->
  let (h1, c1) := init h initial_values in
  let h2 := add h1 c1 key v in
  let (h3, c3) := reset_intermediate_values h2 c1 in
  (forall a, initial_values = Some a -> read h a <> [] ->
     (forall default, get h3 c3 key default = v) /\
     dict_lookup key (read h3 a) = Some v) /\
  (initial_values = None \/
   (exists a, initial_values = Some a /\ read h a = []) ->
   forall default, get h3 c3 key default = default).
Proof.
  intros Hvalid. unfold init, reset_intermediate_values, or_new_dict.
  destruct initial_values as [a|].
  - specialize (Hvalid a eq_refl).
    destruct (read h a) as [|p d] eqn:Hr.
    + (* an empty dictionary: a new one is taken *)
      cbn [alloc _initial_values intermediate_values]. unfold add.
      cbn [intermediate_values].
      assert (Hlen : List.length (h ++ [[]]) = S (List.length h))
        by (rewrite length_app; simpl; lia).
      rewrite (read_write_other (h ++ [[]]) (List.length h) a) by lia.
      assert (Hold : read (h ++ [[]]) a = []).
      { unfold read. rewrite app_nth1 by lia. exact Hr. }
      rewrite Hold. cbn [alloc]. split.
      * intros a' Ha' Hne. inversion Ha'; subst a'. contradiction.
      * intros _ default. unfold get. cbn [intermediate_values].
        unfold read. rewrite app_nth2; rewrite write_length; [|lia].
        rewrite Nat.sub_diag. reflexivity.
    + (* a non-empty dictionary: the object itself *)
      cbn [_initial_values intermediate_values]. unfold add.
      cbn [intermediate_values].
      rewrite (read_write_same h a _ Hvalid). rewrite Hr.
      assert (Hne : dict_set key v (p :: d) <> []).
      { destruct p as [k0 v0]. simpl. destruct (String.eqb k0 key); discriminate. }
      destruct (dict_set key v (p :: d)) as [|p' d'] eqn:Hs; [contradiction|].
      split.
      * intros a' Ha' _. inversion Ha'; subst a'. split.
        -- intros default. unfold get. cbn [intermediate_values].
           rewrite (read_write_same h a _ Hvalid), <- Hs.
           now rewrite dict_lookup_set_same.
        -- rewrite (read_write_same h a _ Hvalid), <- Hs.
           apply dict_lookup_set_same.
      * intros [Hn | [a' [Ha' He]]]; [discriminate|].
        inversion Ha'; subst a'. congruence.
  - cbn [alloc _initial_values intermediate_values]. unfold add.
    cbn [intermediate_values]. cbn [alloc]. split.
    + intros a Ha. discriminate.
    + intros _ default. unfold get. cbn [intermediate_values].
      unfold read. rewrite app_nth2; rewrite write_length; [|lia].
      rewrite Nat.sub_diag. reflexivity.
Qed.

End StoreFacts.

End ContextStore.

(** ** Cache keys ([pandasai/helpers/pgcache.py]) *)

Module PgCacheKeys.
Import PyStr PgCache.
Local Open Scope list_scope.

(** Number of occurrences of a character. *)
Fixpoint count_char (c : ascii) (s : string) : nat :=
  match s with
  | EmptyString => 0
  | String x s' => (if Ascii.eqb x c then 1 else 0) + count_char c s'
  end.

(** The text holds no ["~"]. *)
Definition no_tilde (s : string) : Prop := count_char "~" s = 0.

(** What [get] returns for the three parts of a key. *)
Definition lookup (db : table) (p0 p1 question : string) : option string :=
  match find (selected p0 p1 (replace query_prefix EmptyString question)) db with
  | None => None
  | Some r => code_executed r
  end.

Lemma split_not_nil (sep : ascii) (s : string) : split sep s <> [].
Proof.
  destruct s as [|c s]; simpl; [discriminate|].
  destruct (Ascii.eqb c sep); [discriminate|].
  destruct (split sep s); discriminate.
Qed.

Lemma split_app_sep (sep : ascii) (a b : string) :
  split sep (a ++ String sep b)%string = split sep a ++ split sep b.
Proof.
  induction a as [|c a IH]; simpl.
  - now rewrite Ascii.eqb_refl.
  - destruct (Ascii.eqb c sep); [now rewrite IH|].
    rewrite IH. pose proof (split_not_nil sep a) as Hne.
    destruct (split sep a) as [|x l]; [contradiction | reflexivity].
Qed.

Lemma split_no_sep (sep : ascii) (s : string) :
  count_char sep s = 0 -> split sep s = [s].
Proof.
  induction s as [|c s IH]; simpl; [reflexivity|].
  destruct (Ascii.eqb c sep); [discriminate|]. simpl. intros H.
  now rewrite (IH H).
Qed.

Lemma split_length (sep : ascii) (s : string) :
  List.length (split sep s) = S (count_char sep s).
Proof.
  induction s as [|c s IH]; simpl; [reflexivity|].
  destruct (Ascii.eqb c sep); simpl; [now rewrite IH|].
  pose proof (split_not_nil sep s) as Hne.
  destruct (split sep s) as [|x l]; [contradiction|]. simpl in *. exact IH.
Qed.

Lemma count_char_app (c : ascii) (a b : string) :
  count_char c (a ++ b)%string = count_char c a + count_char c b.
Proof. induction a as [|x a IH]; simpl; [reflexivity | rewrite IH; lia]. Qed.

Lemma get_column_hash_from (hashes : list string) (start : string) :
  fold_left (fun column_hash h => (column_hash ++ h)%string) hashes start
    = (start ++ get_column_hash hashes)%string.
Proof.
  unfold get_column_hash. revert start; induction hashes as [|h hashes IH];
    intros start; simpl.
  - now rewrite PyStrFacts.append_nil_r.
  - rewrite IH, (IH h). now rewrite PyStrFacts.append_assoc.
Qed.

Lemma get_column_hash_no_tilde (hashes : list string) :
  Forall no_tilde hashes -> no_tilde (get_column_hash hashes).
Proof.
  induction 1 as [|h hashes Hh _ IH]; [reflexivity|].
  unfold get_column_hash. simpl. rewrite get_column_hash_from.
  unfold no_tilde in *. now rewrite count_char_app, Hh, IH.
Qed.

Lemma get_of_parts (db : table) (key p0 p1 p2 : string) (rest : list string) :
  split "~" key = p0 :: p1 :: p2 :: rest ->
  get db key = Return (lookup db p0 p1 p2).
Proof.
  intros H. unfold get, lookup. rewrite H. simpl.
  destruct (find _ db); reflexivity.
Qed.

(** [get] on a key made by [get_cache_key]: when the data source and the
    column hashes hold no ["~"], the lookup is for that data source, the
    concatenated hashes and the question up to its first ["~"]; it never
    fails for want of parts. *)
Theorem get_of_cache_key (db : table) (data_source : string)
    (column_hashes : list string) (last_message : string) :
  no_tilde data_source ->
  Forall no_tilde column_hashes ->
  get db (get_cache_key data_source column_hashes last_message)
    = Return (lookup db data_source (get_column_hash column_hashes)
                (hd EmptyString (split "~" last_message))).
Proof.
  intros Hd Hh. unfold get_cache_key.
  pose proof (split_not_nil "~" last_message) as Hne.
  destruct (split "~" last_message) as [|q0 qs] eqn:Hq; [contradiction|].
  apply (get_of_parts db _ data_source (get_column_hash column_hashes) q0 qs).
  change (data_source ++ "~" ++ get_column_hash column_hashes ++ "~" ++ last_message)%string
    with (data_source ++ String "~" (get_column_hash column_hashes ++ String "~" last_message))%string.
  rewrite !split_app_sep, Hq.
  rewrite (split_no_sep "~" data_source Hd).
  rewrite (split_no_sep "~" _ (get_column_hash_no_tilde column_hashes Hh)).
  reflexivity.
Qed.

(** [get] reads the first three parts of a key only: whatever follows a
    third ["~"] makes no difference. *)
Theorem get_ignores_further_parts (db : table) (key extra : string) :
  3 <= List.length (split "~" key) ->
  get db (key ++ "~" ++ extra)%string = get db key.
Proof.
  intros H.
  destruct (split "~" key) as [|p0 [|p1 [|p2 rest]]] eqn:Hk; simpl in H; try lia.
  rewrite (get_of_parts db key p0 p1 p2 rest Hk).
  apply (get_of_parts db _ p0 p1 p2 (rest ++ split "~" extra)).
  change (key ++ "~" ++ extra)%string with (key ++ String "~" extra)%string.
  now rewrite split_app_sep, Hk.
Qed.

(** [get] raises [IndexError] exactly on the keys with fewer than two
    ["~"]. *)
Theorem get_index_error (db : table) (key : string) :
  get db key = Raise IndexError <-> count_char "~" key < 2.
Proof.
  pose proof (split_length "~" key) as Hl. unfold get.
  destruct (split "~" key) as [|p0 [|p1 [|p2 rest]]]; simpl in *.
  - lia.
  - split; [intros _; lia | reflexivity].
  - split; [intros _; lia | reflexivity].
  - destruct (find _ db); split; try discriminate; lia.
Qed.

(** The key keeps the column hashes only as one concatenated text: moving
    the border between two hashes gives the same key. *)
Theorem cache_key_joins_hashes (data_source last_message a b c : string)
    (before after : list string) :
  get_cache_key data_source (before ++ [(a ++ b)%string; c] ++ after) last_message
    = get_cache_key data_source (before ++ [a; (b ++ c)%string] ++ after) last_message.
Proof.
  unfold get_cache_key. do 3 f_equal.
  unfold get_column_hash. rewrite !fold_left_app. simpl.
  now rewrite !PyStrFacts.append_assoc.
Qed.

Lemma get_of_cache_key_witness :
  get PgCacheFacts.one_row (get_cache_key "loans" ["h"; "1"] "how many loans~x")
    = Return (Some "result = 1"%string).
Proof.
  rewrite (get_of_cache_key PgCacheFacts.one_row "loans" ["h"; "1"]%string
             "how many loans~x").
  - reflexivity.
  - reflexivity.
  - repeat constructor.
Defined.

Lemma get_ignores_further_parts_witness :
  get PgCacheFacts.one_row "loans~h1~how many loans~and more"
    = Return (Some "result = 1"%string).
Proof.
  refine (eq_trans
            (get_ignores_further_parts PgCacheFacts.one_row
               "loans~h1~how many loans" "and more" _) _).
  - simpl. lia.
  - reflexivity.
Defined.

End PgCacheKeys.

Module ContextStoreExamples.
Import ContextStore.
Local Open Scope list_scope.

(** A heap with one dictionary, the initial values of a context. *)
Definition one_dict : heap string := [[("last_prompt_id", "7")]]%string.

Definition plain_context : context :=
  {| intermediate_values := 0; _initial_values := Some 0 |}.

Lemma get_after_add_witness :
  get (add one_dict plain_context "output_type" "number") plain_context
    "output_type" "" = "number"%string.
Proof.
  refine (proj1 (get_after_add one_dict plain_context "output_type"
                   "number"%string _) EmptyString).
  simpl. lia.
Defined.

Lemma add_many_as_adds_witness :
  get (add_many one_dict plain_context
         [("output_type", "number"); ("output_type", "plot")]%string)
    plain_context "output_type" "" = "plot"%string.
Proof.
  refine (eq_trans
            (proj2 (add_many_as_adds one_dict plain_context
                      [("output_type", "number"); ("output_type", "plot")]%string _)
               "output_type"%string EmptyString) _).
  - simpl. lia.
  - reflexivity.
Defined.

Lemma reset_after_add_witness :
  let (h1, c1) := init one_dict (Some 0) in
  let h2 := add h1 c1 "output_type" "number"%string in
  let (h3, c3) := reset_intermediate_values h2 c1 in
  get h3 c3 "output_type" "" = "number"%string /\
  dict_lookup "output_type" (read h3 0) = Some "number"%string.
Proof.
  pose proof (reset_after_add one_dict (Some 0) "output_type" "number"%string) as H.
  assert (Hvalid : forall a, Some 0 = Some a -> a < List.length one_dict).
  { intros a Ha. inversion Ha. simpl. lia. }
  specialize (H Hvalid). cbv in H |- *.
  destruct H as [H _]. destruct (H 0 eq_refl) as [Hget Hdict]; [discriminate|].
  split; [exact (Hget EmptyString) | exact Hdict].
Defined.

End ContextStoreExamples.

(** ** More of the agent ([pandasai/agent/base.py]) *)

Module AgentMore.
Import PyStr PyStrFacts Agent AgentFacts.
Local Open Scope list_scope.

(** *** [generate_code] *)

(** Calls of the pipeline by [generate_code]. *)
Inductive call : Type :=
| RunGenerateCode (query : string) (output_type : option string).

(** [BaseAgent.generate_code]; [run_generate_code] is the method of the
    pipeline it calls.  The value is what the method returns or one of the
    messages of the agent, with the calls of the pipeline; the log lines
    and the prompt identifier are left out. *)
Definition generate_code {response : Type} (a : agent response)
    (run_generate_code : pipeline_t response)
    (query : string) (output_type : option string)
  : outcome exn (chat_value response) * list call :=
  match pipeline a with
  | None => (Return (Message (no_pipeline_message)), [])
  | Some _ =>
      match run_generate_code query output_type with
      | Return r => (Return (Response r), [RunGenerateCode query output_type])
      | Raise e =>
          (Return (Message (failure_message e)),
           [RunGenerateCode query output_type])
      end
  end.

(** *** [call_llm_with_prompt] *)

Inductive llm_exn : Type :=
| InvalidLLMOutputType (msg : string)
| LLMError (msg : string).

Record llm_config : Type := {
  max_retries : Z;
  use_error_correction_framework : bool
}.

Section LLM.

(** The state of the language model service, and prompts. *)
Variable world : Type.
Variable prompt : Type.

(** [self.context.config.llm.call(prompt)] *)
Variable llm_call : prompt -> world -> outcome llm_exn string * world.

(** [prompt.validate(result)] *)
Variable validate : prompt -> string -> bool.

(** The body of the [try] block. *)
Definition call_once (p : prompt) (w : world) : outcome llm_exn string * world :=
  match llm_call p w with
  | (Return result, w1) =>
      if validate p result then (Return result, w1)
      else (Raise (InvalidLLMOutputType "Response validation failed!"), w1)
  | (Raise e, w1) => (Raise e, w1)
  end.

(** The [while] loop; one unit of [fuel] for each turn.  The last
    component counts the calls of the model.  [Return None] is the loop
    left without a [return]. *)
Fixpoint call_loop (cfg : llm_config) (fuel : nat) (retry_count : Z)
    (p : prompt) (w : world)
  : option (outcome llm_exn (option string) * world * nat) :=
  match fuel with
  | O => None
  | S fuel' =>
      if (retry_count <? max_retries cfg)%Z then
        match call_once p w with
        | (Return result, w1) => Some (Return (Some result), w1, 1)
        | (Raise e, w1) =>
            if negb (use_error_correction_framework cfg)
               || (retry_count >=? max_retries cfg - 1)%Z
            then Some (Raise e, w1, 1)
            else
              match call_loop cfg fuel' (retry_count + 1) p w1 with
              | None => None
              | Some (r, w2, n) => Some (r, w2, S n)
              end
        end
      else Some (Return None, w, 0)
  end.

Definition call_llm_with_prompt (cfg : llm_config) (p : prompt) (w : world)
  : option (outcome llm_exn (option string) * world * nat) :=
  call_loop cfg (S (Z.to_nat (max_retries cfg))) 0 p w.

End LLM.

Arguments call_once {world prompt} llm_call validate p w.
Arguments call_loop {world prompt} llm_call validate cfg fuel retry_count p w.
Arguments call_llm_with_prompt {world prompt} llm_call validate cfg p w.

(** *** Training *)

Inductive train_exn : Type :=
| MissingVectorStoreError (msg : string)
| ValueError (msg : string)
| TypeError.

(** Calls of the vector store. *)
Inductive store_call : Type :=
| AddDocs (docs : list string)
| AddQuestionAnswer (queries codes : list string)
    (ids metadatas : option (list string)).

(** Truth value of an optional list: [None] and the empty list are
    false. *)
Definition truthy (l : option (list string)) : bool :=
  match l with
  | Some (_ :: _) => true
  | _ => false
  end.

Definition list_of (l : option (list string)) : list string :=
  match l with
  | Some x => x
  | None => []
  end.

Definition no_store_message : string :=
  "No vector store provided. Please provide a vector store to train the agent.".

Definition both_message : string :=
  "If either queries or codes are provided, both must be provided.".

Definition ids_message : string :=
  "If ids are provided, the number of ids must match the number of queries.".

Definition metadatas_message : string :=
  "If metadatas are provided, the number of metadatas must match the number of queries.".

(** [(queries and not codes) or (not queries and codes)] *)
Definition only_one (queries codes : option (list string)) : bool :=
  (truthy queries && negb (truthy codes))
  || (negb (truthy queries) && truthy codes).

(** [x is not None and len(x) != len(against)]: the check of a list of
    identifiers or metadata against the list it goes with; [len(None)]
    raises [TypeError]. *)
Definition length_check (x against : option (list string)) (msg : string)
  : outcome train_exn unit :=
  match x with
  | None => Return tt
  | Some l =>
      match against with
      | None => Raise TypeError
      | Some o =>
          if Nat.eqb (List.length l) (List.length o) then Return tt
          else Raise (ValueError msg)
      end
  end.

(** [BaseAgent.train]; [has_store] tells whether the agent has a vector
    store.  The calls of the store are listed in order. *)
Definition train (has_store : bool) (queries codes docs : option (list string))
  : outcome train_exn unit * list store_call :=
  if negb has_store then (Raise (MissingVectorStoreError no_store_message), [])
  else if only_one queries codes then (Raise (ValueError both_message), [])
  else
    (Return tt,
     match docs with
     | Some d => [AddDocs d]
     | None => []
     end ++
     if truthy queries && truthy codes
     then [AddQuestionAnswer (list_of queries) (list_of codes) None None]
     else []).

(** [BaseAgent.trainQueries] *)
Definition trainQueries (has_store : bool)
    (queries codes ids metadatas : option (list string))
  : outcome train_exn unit * list store_call :=
  if negb has_store then (Raise (MissingVectorStoreError no_store_message), [])
  else if only_one queries codes then (Raise (ValueError both_message), [])
  else
    match length_check ids queries ids_message with
    | Raise e => (Raise e, [])
    | Return _ =>
        match length_check metadatas queries metadatas_message with
        | Raise e => (Raise e, [])
        | Return _ =>
            (Return tt,
             if truthy queries && truthy codes
             then [AddQuestionAnswer (list_of queries) (list_of codes)
                     ids metadatas]
             else [])
        end
    end.

(** [BaseAgent.trainDocs] *)
Definition trainDocs (has_store : bool) (docs ids metadatas : option (list string))
  : outcome train_exn unit * list store_call :=
  if negb has_store then (Raise (MissingVectorStoreError no_store_message), [])
  else
    match length_check ids docs ids_message with
    | Raise e => (Raise e, [])
    | Return _ =>
        match length_check metadatas docs metadatas_message with
        | Raise e => (Raise e, [])
        | Return _ =>
            (Return tt,
             match docs with
             | Some d => [AddDocs d]
             | None => []
             end)
        end
    end.

End AgentMore.

Module AgentMoreFacts.
Import PyStr PyStrFacts Pandas Agent AgentFacts AgentMore.
Local Open Scope list_scope.

(** *** The screen *)

Lemma occurs_trans (a b c : string) : occurs a b -> occurs b c -> occurs a c.
Proof.
  intros [p1 [q1 H1]] [p2 [q2 H2]]. subst.
  exists (p2 ++ p1)%string, (q1 ++ q2)%string.
  now rewrite !append_assoc.
Qed.

(** A query that contains a flagged text is flagged: nothing put before or
    after a denylist entry gets it past the keyword check. *)
Theorem check_malicious_monotone (inner before after : string) :
  check_malicious_keywords_in_query inner = true ->
  check_malicious_keywords_in_query (before ++ inner ++ after)%string = true.
Proof.
  rewrite !check_malicious_spec. intros [m [Hin Hocc]].
  exists m. split; [exact Hin|].
  apply (occurs_trans m inner); [exact Hocc|].
  exists before, after. reflexivity.
Qed.

Lemma check_malicious_monotone_witness :
  check_malicious_keywords_in_query ("please " ++ "import os" ++ " now")%string
    = true.
Proof.
  apply (check_malicious_monotone "import os" "please " " now").
  reflexivity.
Defined.


(** Integer labels: the scan looks for the column ["0"], which is not
    there. *)
Definition numbered_agent : agent unit :=
  {| pipeline := Some (fun _ _ => Return tt);
     security := None;
     dfs := [[(LObj "0", "int64"); (LObj "1", "int64")]];
     llm_type := "openai" |}.


(** [generate_code] has no screen: a query that [chat] rejects without
    calling the pipeline is handed to the pipeline by [generate_code]. *)
Theorem generate_code_is_not_screened {R : Type} (a : agent R)
    (run run_generate_code : pipeline_t R)
    (prompt_id query : string) (enforce_grouping : bool)
    (output_type : option string) :
  pipeline a = Some run ->
  rejected a query ->
  pipeline_runs (snd (chat a prompt_id query enforce_grouping output_type)) = 0 /\
  snd (generate_code a run_generate_code query output_type)
    = [RunGenerateCode query output_type].
Proof.
  intros Hp Hrej. split.
  - unfold chat. rewrite Hp.
    destruct (chat_body_rejects a run prompt_id query enforce_grouping
                output_type Hrej) as (e & t & Hb & Ht & _).
    rewrite Hb. exact Ht.
  - unfold generate_code. rewrite Hp.
    destruct (run_generate_code query output_type); reflexivity.
Qed.

Lemma generate_code_is_not_screened_witness :
  pipeline_runs (snd (chat plain_agent "id-1" "import os" false None)) = 0 /\
  snd (generate_code plain_agent (fun _ _ => Return tt) "import os" None)
    = [RunGenerateCode "import os" None].
Proof.
  apply (generate_code_is_not_screened plain_agent (fun _ _ => Return tt)).
  - reflexivity.
  - left. exists " os"%string. split.
    + simpl. auto.
    + exists "import"%string, EmptyString. reflexivity.
Defined.

(** *** Calls of the language model *)

Section LLMFacts.

Context {world prompt : Type}.
Variable llm_call : prompt -> world -> outcome llm_exn string * world.
Variable validate : prompt -> string -> bool.

Local Abbreviation once := (call_once llm_call validate).
Local Abbreviation loop := (call_loop llm_call validate).
Local Abbreviation call_llm := (call_llm_with_prompt llm_call validate).

Lemma call_once_validated (p : prompt) (w w1 : world) (r : string) :
  once p w = (Return r, w1) -> validate p r = true.
Proof.
  unfold call_once. destruct (llm_call p w) as [[result|e] w'].
  - destruct (validate p result) eqn:Hv; [|discriminate].
    intros H. inversion H; subst. exact Hv.
  - discriminate.
Qed.

Lemma call_loop_bounded (cfg : llm_config) (fuel : nat) (rc : Z)
    (p : prompt) (w : world) :
  Z.to_nat (max_retries cfg - rc) < fuel ->
  exists o w' n,
    loop cfg fuel rc p w = Some (o, w', n) /\
    n <= Z.to_nat (max_retries cfg - rc) /\
    (forall r, o = Return (Some r) -> validate p r = true) /\
    (o = Return None <-> (max_retries cfg <= rc)%Z) /\
    ((max_retries cfg <= rc)%Z -> n = 0 /\ w' = w).
Proof.
  revert rc w; induction fuel as [|fuel IH]; intros rc w Hf; [lia|].
  cbn [call_loop].
  destruct (rc <? max_retries cfg)%Z eqn:Hlt.
  - apply Z.ltb_lt in Hlt.
    destruct (once p w) as [[result|e] w1] eqn:Ho.
    + exists (Return (Some result)), w1, 1. split; [reflexivity|].
      split; [lia|]. split.
      * intros r Hr. inversion Hr; subst.
        apply (call_once_validated p w w1 r Ho).
      * split; [split; [discriminate | lia] | lia].
    + destruct (negb (use_error_correction_framework cfg)
                || (rc >=? max_retries cfg - 1)%Z) eqn:Hstop.
      * exists (Raise e), w1, 1. split; [reflexivity|].
        split; [lia|]. split; [discriminate|].
        split; [split; [discriminate | lia] | lia].
      * apply orb_false_iff in Hstop. destruct Hstop as [_ Hge].
        rewrite Z.geb_leb in Hge. apply Z.leb_gt in Hge.
        destruct (IH (rc + 1)%Z w1) as (o & w' & n & Hl & Hn & Hv & Hnone & _);
          [lia|].
        rewrite Hl. exists o, w', (S n). split; [reflexivity|].
        split; [lia|]. split; [exact Hv|].
        split; [split; [intros Ho'; apply Hnone in Ho'; lia | lia] | lia].
  - apply Z.ltb_ge in Hlt.
    exists (Return None), w, 0. split; [reflexivity|].
    split; [lia|]. split; [discriminate|].
    split; [split; [intros _; exact Hlt | reflexivity] | auto].
Qed.

(** [call_llm_with_prompt] always comes to an end; it calls the model at
    most [max_retries] times; a text it returns has passed
    [prompt.validate]; and it returns [None], without calling the model
    at all, exactly when [max_retries] is not positive. *)
Theorem call_llm_bounded_and_validated (cfg : llm_config) (p : prompt)
    (w : world) :
  exists o w' n,
    call_llm cfg p w = Some (o, w', n) /\
    n <= Z.to_nat (max_retries cfg) /\
    (forall r, o = Return (Some r) -> validate p r = true) /\
    (o = Return None <-> (max_retries cfg <= 0)%Z) /\
    ((max_retries cfg <= 0)%Z -> n = 0 /\ w' = w).
Proof.
  unfold call_llm_with_prompt.
  destruct (call_loop_bounded cfg (S (Z.to_nat (max_retries cfg))) 0 p w)
    as (o & w' & n & Hl & Hn & Hv & Hnone & Hzero).
  - rewrite Z.sub_0_r. lia.
  - exists o, w', n. rewrite Z.sub_0_r in Hn. auto.
Qed.

Lemma call_loop_exhausts (cfg : llm_config) (p : prompt)
    (P : world -> Prop) :
  use_error_correction_framework cfg = true ->
  (forall w0, P w0 -> exists e w1, once p w0 = (Raise e, w1) /\ P w1) ->
  forall (n : nat) (rc : Z) (w : world) (fuel : nat),
    (0 <= rc < max_retries cfg)%Z ->
    Z.to_nat (max_retries cfg - rc) = S n ->
    S n < fuel ->
    P w ->
    exists e w',
      loop cfg fuel rc p w = Some (Raise e, w', S n) /\
      exists w0, P w0 /\ once p w0 = (Raise e, w').
Proof.
  intros Hecf Hfail. induction n as [|n IH]; intros rc w fuel Hrc Hn Hf HP;
    (destruct fuel as [|fuel]; [lia|]); cbn [call_loop];
    (replace (rc <? max_retries cfg)%Z with true
       by (symmetry; apply Z.ltb_lt; lia));
    destruct (Hfail w HP) as (e & w1 & Ho & HP1); rewrite Ho, Hecf;
    simpl negb; rewrite orb_false_l, Z.geb_leb.
  - replace (max_retries cfg - 1 <=? rc)%Z with true
      by (symmetry; apply Z.leb_le; lia).
    exists e, w1. split; [reflexivity|]. exists w. auto.
  - replace (max_retries cfg - 1 <=? rc)%Z with false
      by (symmetry; apply Z.leb_gt; lia).
    destruct (IH (rc + 1)%Z w1 fuel) as (e2 & w2 & Hl & Hlast);
      [lia | lia | lia | exact HP1 |].
    rewrite Hl. exists e2, w2. split; [reflexivity | exact Hlast].
Qed.

(** With error correction enabled and a positive [max_retries = k], when
    every call of the model fails or returns a text that does not pass the
    validation, the model is called exactly [k] times, one time fewer
    than the code execution stage attempts a snippet under the same
    setting, and the failure of the last call is raised.  [P] holds of the
    states the calls go through. *)
Theorem call_llm_exhausts_budget (cfg : llm_config) (p : prompt)
    (P : world -> Prop) (w : world) :
  use_error_correction_framework cfg = true ->
  (0 < max_retries cfg)%Z ->
  P w ->
  (forall w0, P w0 -> exists e w1, once p w0 = (Raise e, w1) /\ P w1) ->
  exists e w',
    call_llm cfg p w = Some (Raise e, w', Z.to_nat (max_retries cfg)) /\
    exists w0, P w0 /\ once p w0 = (Raise e, w').
Proof.
  intros Hecf Hk HP Hfail. unfold call_llm_with_prompt.
  destruct (call_loop_exhausts cfg p P Hecf Hfail
              (Z.to_nat (max_retries cfg) - 1) 0%Z w
              (S (Z.to_nat (max_retries cfg))))
    as (e & w' & Hl & Hlast).
  - lia.
  - lia.
  - lia.
  - exact HP.
  - exists e, w'. split; [|exact Hlast].
    rewrite Hl. repeat f_equal. lia.
Qed.

End LLMFacts.

(** A model that never answers. *)
Definition silent_model (p : unit) (w : nat) : outcome llm_exn string * nat :=
  (Raise (LLMError "timeout"), S w).

Lemma call_llm_exhausts_budget_witness :
  exists e w',
    call_llm_with_prompt silent_model (fun _ _ => true)
      {| max_retries := 3; use_error_correction_framework := true |} tt 0
      = Some (Raise e, w', 3) /\
    exists w0, True /\
      call_once silent_model (fun _ _ => true) tt w0 = (Raise e, w').
Proof.
  apply (call_llm_exhausts_budget silent_model (fun _ _ => true)
           {| max_retries := 3; use_error_correction_framework := true |}
           tt (fun _ => True) 0).
  - reflexivity.
  - simpl. lia.
  - exact I.
  - intros w0 _. eexists _, _. split; [reflexivity | exact I].
Defined.

(** *** Training *)

(** The length of an optional list agrees with [n] when the list is
    given. *)
Definition as_many (x : option (list string)) (n : nat) : Prop :=
  forall l, x = Some l -> List.length l = n.

Lemma length_check_ok (x : option (list string)) (qs : list string)
    (msg : string) :
  length_check x (Some qs) msg = Return tt <-> as_many x (List.length qs).
Proof.
  unfold length_check, as_many. destruct x as [l|].
  - destruct (Nat.eqb (List.length l) (List.length qs)) eqn:E.
    + apply Nat.eqb_eq in E. split; [|reflexivity].
      intros _ l' H. now inversion H; subst.
    + apply Nat.eqb_neq in E. split; [discriminate|].
      intros H. exfalso. apply E. now apply H.
  - split; [intros _ l H; discriminate | reflexivity].
Qed.

(** What [trainQueries] hands to the vector store, and exactly when.  A
    pair of lists of queries and codes reaches the store if and only if
    the agent has a store, both lists are given and non-empty, and the
    identifiers and the metadata, when given, are as many as the queries;
    they are handed over as given, with the identifiers and the metadata.
    Nothing in the condition mentions the number of codes: it is compared
    with nothing. *)
Theorem trainQueries_stores_checked_lists (has_store : bool)
    (queries codes ids metadatas : option (list string))
    (qs cs : list string) (ids' metadatas' : option (list string)) :
  In (AddQuestionAnswer qs cs ids' metadatas')
     (snd (trainQueries has_store queries codes ids metadatas)) <->
  has_store = true /\
  queries = Some qs /\ codes = Some cs /\ ids' = ids /\ metadatas' = metadatas /\
  qs <> [] /\ cs <> [] /\
  as_many ids (List.length qs) /\
  as_many metadatas (List.length qs).
Proof.
  split.
  - unfold trainQueries.
    destruct has_store; [|simpl; contradiction]. cbn [negb].
    destruct (only_one queries codes); [simpl; contradiction|].
    destruct queries as [[|q qs0]|];
      try (destruct (length_check ids _ ids_message) as [[]|e];
           [destruct (length_check metadatas _ metadatas_message) as [[]|e']|];
           simpl; contradiction).
    destruct (length_check ids (Some (q :: qs0)) ids_message) as [[]|e] eqn:Hi;
      [|simpl; contradiction].
    destruct (length_check metadatas (Some (q :: qs0)) metadatas_message)
      as [[]|e] eqn:Hm; [|simpl; contradiction].
    cbn [snd truthy andb].
    destruct codes as [[|c cs0]|]; simpl; try contradiction.
    intros [H|[]]. inversion H; subst.
    apply length_check_ok in Hi. apply length_check_ok in Hm.
    repeat split; try discriminate; assumption.
  - intros (Hs & Hq & Hc & Hi' & Hm' & Hqs & Hcs & Hi & Hm). subst.
    unfold trainQueries. cbn [negb].
    destruct qs as [|q qs0]; [contradiction|].
    destruct cs as [|c cs0]; [contradiction|].
    cbn [only_one truthy negb andb orb].
    rewrite (proj2 (length_check_ok ids (q :: qs0) ids_message) Hi).
    rewrite (proj2 (length_check_ok metadatas (q :: qs0) metadatas_message) Hm).
    simpl. left. reflexivity.
Qed.

(** One query with two codes reaches the store. *)
Lemma trainQueries_stores_checked_lists_witness :
  In (AddQuestionAnswer ["how many"%string]
        ["result = 1"%string; "result = 2"%string] (Some ["q1"%string]) None)
     (snd (trainQueries true (Some ["how many"%string])
             (Some ["result = 1"%string; "result = 2"%string])
             (Some ["q1"%string]) None)).
Proof.
  apply (proj2 (trainQueries_stores_checked_lists true
                  (Some ["how many"%string])
                  (Some ["result = 1"%string; "result = 2"%string])
                  (Some ["q1"%string]) None
                  ["how many"%string]
                  ["result = 1"%string; "result = 2"%string]
                  (Some ["q1"%string]) None)).
  repeat split; try discriminate;
    try (intros l H; inversion H; reflexivity).
Defined.

(** [trainDocs] checks the identifiers and the metadata and then drops
    them: when it returns, the vector store has received what it receives
    without them, the documents alone. *)
Theorem trainDocs_drops_ids_and_metadatas (has_store : bool)
    (docs ids metadatas : option (list string)) :
  fst (trainDocs has_store docs ids metadatas) = Return tt ->
  snd (trainDocs has_store docs ids metadatas)
    = snd (trainDocs has_store docs None None) /\
  snd (trainDocs has_store docs ids metadatas)
    = match docs with
      | Some d => [AddDocs d]
      | None => []
      end.
Proof.
  unfold trainDocs. destruct (negb has_store); [discriminate|].
  destruct (length_check ids docs ids_message) as [[]|e]; [|discriminate].
  destruct (length_check metadatas docs metadatas_message) as [[]|e];
    [|discriminate].
  intros _. split; reflexivity.
Qed.

Lemma trainDocs_drops_ids_and_metadatas_witness :
  snd (trainDocs true (Some ["doc"%string]) (Some ["id-1"%string]) None)
    = [AddDocs ["doc"%string]].
Proof.
  exact (proj2 (trainDocs_drops_ids_and_metadatas true (Some ["doc"%string])
                  (Some ["id-1"%string]) None eq_refl)).
Defined.

(** Identifiers or metadata given without the list they go with make
    [trainQueries] and [trainDocs] raise [TypeError], from [len(None)],
    and not the [ValueError] of their length checks; nothing is
    stored. *)
Theorem ids_without_list_raise_type_error
    (ids metadatas : option (list string)) :
  ids <> None \/ metadatas <> None ->
  trainQueries true None None ids metadatas = (Raise TypeError, []) /\
  trainDocs true None ids metadatas = (Raise TypeError, []).
Proof.
  intros H. unfold trainQueries, trainDocs. simpl.
  destruct ids as [i|]; simpl; [split; reflexivity|].
  destruct metadatas as [m|]; simpl; [split; reflexivity|].
  destruct H; contradiction.
Qed.

Lemma ids_without_list_raise_type_error_witness :
  trainQueries true None None (Some []) None = (Raise TypeError, []) /\
  trainDocs true None (Some []) None = (Raise TypeError, []).
Proof.
  apply (ids_without_list_raise_type_error (Some []) None).
  left. discriminate.
Defined.

End AgentMoreFacts.

(** ** More of the code execution stage *)

Module StageMore.
Import PyStr PyStrFacts Pandas PyAst CodeExecution StageFacts.
Local Open Scope list_scope.

Section More.

Context {connector dataframe world serialized : Type}.
Variable ast_parse : string -> option node.
Variable node_repr : node -> string.
Variable get_environment :
  list string -> outcome exn (environment connector dataframe).
Variable columns : connector -> frame.
Variable materialize :
  connector -> list predicate -> world -> outcome exn dataframe * world.
Variable exec :
  string -> environment connector dataframe -> world ->
  outcome exn (option (result_t dataframe)) * world.
Variable validate : string -> result_t dataframe -> bool * list string.
Variable validate_result : result_t dataframe -> bool.
Variable serialize :
  option (result_t dataframe) -> world -> outcome exn serialized * world.
Variable format_exc : exn -> string.

Local Abbreviation stage := (CodeExecution connector world).
Local Abbreviation trace := (list (event connector dataframe)).
Local Abbreviation get_originals := (_get_originals ast_parse node_repr materialize).
Local Abbreviation loop_originals := (originals_loop ast_parse node_repr materialize).
Local Abbreviation run_code :=
  (execute_code ast_parse node_repr get_environment materialize exec).
Local Abbreviation run_attempt :=
  (attempt ast_parse node_repr get_environment columns materialize exec
     validate validate_result).
Local Abbreviation report :=
  (report_failure (dataframe := dataframe) format_exc).
Local Abbreviation retry_run_code :=
  (_retry_run_code (dataframe := dataframe)).
Local Abbreviation run_loop :=
  (execute_loop ast_parse node_repr get_environment columns materialize exec
     validate validate_result format_exc).
Local Abbreviation run_execute :=
  (execute ast_parse node_repr get_environment columns materialize exec
     validate validate_result serialize format_exc).
Local Abbreviation finished := (finish (connector := connector) serialize).

(** The filters the stage sets on the connector of slot [index]. *)
Definition filters_of (self : stage) (index : nat) : list predicate :=
  match _extract_filters ast_parse node_repr
          (current_code_executed (context self)) with
  | Return extracted => dict_get (slot_label index) extracted
  | Raise _ => []
  end.

(** *** Required datasets *)

Lemma required_dfs_length (self : stage) (code : string) :
  List.length (_required_dfs self code) = List.length (dfs (context self)).
Proof.
  destruct (py_in "for df in dfs" code || py_in "pd.concat(dfs" code) eqn:Hi.
  - unfold _required_dfs. rewrite Hi. apply length_map.
  - rewrite (required_dfs_no_idiom self code Hi). apply required_loop_length.
Qed.

(** Whatever the snippet is, the list of required datasets has one entry
    for each dataset of the context, and an entry that is not the null
    placeholder is the dataset of that very position. *)
Theorem required_dfs_shape (self : stage) (code : string) :
  List.length (_required_dfs self code) = List.length (dfs (context self)) /\
  forall i df,
    nth_error (_required_dfs self code) i = Some (Some df) ->
    nth_error (dfs (context self)) i = Some df.
Proof.
  destruct (py_in "for df in dfs" code || py_in "pd.concat(dfs" code) eqn:Hi.
  - unfold _required_dfs. rewrite Hi. split; [apply length_map|].
    intros i df H. rewrite nth_error_map in H.
    destruct (nth_error (dfs (context self)) i); simpl in H;
      [inversion H; reflexivity | discriminate].
  - pose proof (required_dfs_no_idiom self code Hi) as Hr.
    rewrite Hr. split; [apply required_loop_length|].
    intros i df H.
    destruct (nth_error (dfs (context self)) i) as [d|] eqn:Hn.
    + rewrite (required_loop_nth code _ 0 i d Hn) in H.
      match type of H with
      | Some (if ?b then _ else _) = _ => destruct b
      end; [inversion H; reflexivity | discriminate].
    + apply nth_error_None in Hn.
      assert (Hsome : nth_error (required_loop code 0 (dfs (context self))) i <> None)
        by congruence.
      apply nth_error_Some in Hsome. rewrite required_loop_length in Hsome. lia.
Qed.

(** *** Materialization *)

(** One turn of the loop of [_get_originals] on a required dataset. *)
Lemma originals_loop_some (self : stage) (index : nat) (df : connector)
    (rest : list (option connector)) (w : world) :
  loop_originals self index (Some df :: rest) w
    = let code := current_code_executed (context self) in
      match _extract_filters ast_parse node_repr code with
      | Raise e => (Raise e, w, [EvExtractFilters code])
      | Return extracted =>
          let filters := dict_get (slot_label index) extracted in
          let events :=
            [EvExtractFilters code; EvSetAdditionalFilters index df filters;
             EvExecute index df] in
          match materialize df filters w with
          | (Raise e, w1) => (Raise e, w1, events)
          | (Return d, w1) =>
              match loop_originals self (S index) rest w1 with
              | (Return r, w2, t) => (Return (Some d :: r), w2, events ++ t)
              | (Raise e, w2, t) => (Raise e, w2, events ++ t)
              end
          end
      end.
Proof.
  cbn [originals_loop]. unfold bindM at 1. unfold emit at 1.
  unfold bindM at 1. unfold lift at 1.
  destruct (_extract_filters ast_parse node_repr _) as [extracted|e];
    [|reflexivity].
  unfold bindM at 1. unfold emit at 1.
  unfold bindM at 1. unfold emit at 1.
  unfold bindM at 1.
  destruct (materialize df _ w) as [[d|e] w1]; [|reflexivity].
  unfold bindM at 1.
  destruct (loop_originals self (S index) rest w1) as [[[r|e] w2] t];
    cbn; rewrite ?app_nil_r; reflexivity.
Qed.

Lemma originals_loop_none (self : stage) (index : nat)
    (rest : list (option connector)) (w : world) :
  loop_originals self index (None :: rest) w
    = match loop_originals self (S index) rest w with
      | (Return r, w2, t) => (Return (None :: r), w2, t)
      | (Raise e, w2, t) => (Raise e, w2, t)
      end.
Proof.
  cbn [originals_loop]. unfold bindM.
  destruct (loop_originals self (S index) rest w) as [[[r|e] w2] t];
    cbn; rewrite ?app_nil_r; reflexivity.
Qed.

Lemma originals_loop_shape (self : stage) (l : list (option connector))
    (index : nat) (w w' : world) (r : list (option dataframe)) (t : trace) :
  loop_originals self index l w = (Return r, w', t) ->
  List.length r = List.length l /\
  (forall i, nth_error l i = Some None -> nth_error r i = Some None) /\
  (forall i df, nth_error l i = Some (Some df) ->
     (exists d, nth_error r i = Some (Some d)) /\
     In (EvSetAdditionalFilters (index + i) df (filters_of self (index + i))) t /\
     In (EvExecute (index + i) df) t).
Proof.
  revert index w w' r t; induction l as [|[df|] l IH]; intros index w w' r t H.
  - cbn in H. inversion H; subst. split; [reflexivity|].
    split; intros i; destruct i; discriminate.
  - rewrite originals_loop_some in H. cbv zeta in H. unfold filters_of.
    destruct (_extract_filters ast_parse node_repr _) as [extracted|e] eqn:Hx;
      [|discriminate].
    destruct (materialize df _ w) as [[d|e] w1]; [|discriminate].
    destruct (loop_originals self (S index) l w1) as [[[r1|e] w2] t1] eqn:Hl;
      [|discriminate].
    inversion H; subst. destruct (IH _ _ _ _ _ Hl) as [Hlen [Hnone Hsome]].
    split; [simpl; now rewrite Hlen|]. split.
    + intros i Hi. destruct i as [|i]; [discriminate|]. simpl in *. auto.
    + intros i df' Hi. destruct i as [|i]; simpl in Hi.
      * inversion Hi; subst. rewrite Nat.add_0_r. split; [exists d; reflexivity|].
        split; simpl; auto.
      * destruct (Hsome i df' Hi) as [Hd [Hf He]].
        replace (index + S i) with (S index + i) by lia.
        split; [exact Hd|]. unfold filters_of in Hf. rewrite Hx in Hf.
        split; simpl; do 3 right; assumption.
  - rewrite originals_loop_none in H.
    destruct (loop_originals self (S index) l w) as [[[r1|e] w2] t1] eqn:Hl;
      [|discriminate].
    inversion H; subst. destruct (IH _ _ _ _ _ Hl) as [Hlen [Hnone Hsome]].
    split; [simpl; now rewrite Hlen|]. split.
    + intros i Hi. destruct i as [|i]; [reflexivity|]. simpl in *. auto.
    + intros i df' Hi. destruct i as [|i]; [discriminate|]. simpl in Hi.
      destruct (Hsome i df' Hi) as [Hd [Hf He]].
      replace (index + S i) with (S index + i) by lia. auto.
Qed.

(** When [_get_originals] returns, its list has the length of the list it
    was given, the null placeholders are where they were, and every
    required dataset has been given the filters of its slot, executed and
    replaced by a table. *)
Theorem get_originals_shape (self : stage) (l : list (option connector))
    (w w' : world) (r : list (option dataframe)) (t : trace) :
  get_originals self l w = (Return r, w', t) ->
  List.length r = List.length l /\
  (forall i, nth_error l i = Some None -> nth_error r i = Some None) /\
  (forall i df, nth_error l i = Some (Some df) ->
     (exists d, nth_error r i = Some (Some d)) /\
     In (EvSetAdditionalFilters i df (filters_of self i)) t /\
     In (EvExecute i df) t).
Proof.
  intros H. apply (originals_loop_shape self l 0 w w' r t H).
Qed.

(** *** What [exec] is given *)

Lemma env_get_set_same (key : string) (v : env_value connector dataframe)
    (env : environment connector dataframe) :
  env_get key (env_set key v env) = Some v.
Proof.
  induction env as [|[k0 v0] env IH]; simpl.
  - now rewrite String.eqb_refl.
  - destruct (String.eqb k0 key) eqn:E; simpl; rewrite E; auto.
Qed.

Lemma env_get_set_other (key key' : string) (v : env_value connector dataframe)
    (env : environment connector dataframe) :
  key' <> key -> env_get key' (env_set key v env) = env_get key' env.
Proof.
  intros Hne. induction env as [|[k0 v0] env IH]; simpl.
  - replace (String.eqb key key') with false; [reflexivity|].
    symmetry. apply String.eqb_neq. congruence.
  - destruct (String.eqb k0 key) eqn:E; simpl.
    + apply String.eqb_eq in E. subst k0.
      replace (String.eqb key key') with false; [reflexivity|].
      symmetry. apply String.eqb_neq. congruence.
    + destruct (String.eqb k0 key'); auto.
Qed.

(** A used skill is bound to its name, whatever the name was bound to. *)
Lemma add_skills_in (name : string) (used : list string)
    (env : environment connector dataframe) :
  In name used -> env_get name (add_skills used env) = Some (ESkill name).
Proof.
  unfold add_skills. revert env.
  induction used as [|s0 used IH]; intros env Hin; [contradiction|].
  cbn [fold_left]. destruct (in_dec string_dec name used) as [Hlater|Hnot].
  - apply IH. exact Hlater.
  - destruct Hin as [->|Hin]; [|contradiction].
    clear IH. revert env.
    assert (Hkeep : forall env : environment connector dataframe,
              env_get name env = Some (ESkill name) ->
              env_get name
                (fold_left (fun env0 f => env_set f (ESkill f) env0) used env)
              = Some (ESkill name)).
    { induction used as [|s1 used IH]; intros env He; [exact He|].
      cbn [fold_left]. apply IH.
      - intros H. apply Hnot. right. exact H.
      - rewrite env_get_set_other; [exact He|].
        intros Heq. apply Hnot. left. now symmetry. }
    intros env. apply Hkeep. apply env_get_set_same.
Qed.

(** The other names are left as they are. *)
Lemma add_skills_out (name : string) (used : list string)
    (env : environment connector dataframe) :
  ~ In name used -> env_get name (add_skills used env) = env_get name env.
Proof.
  unfold add_skills. revert env.
  induction used as [|s0 used IH]; intros env Hnot; [reflexivity|].
  cbn [fold_left]. rewrite IH.
  - apply env_get_set_other. intros Heq. apply Hnot. left. now symmetry.
  - intros H. apply Hnot. right. exact H.
Qed.

(** The direct query hook: the first dataset when [direct_sql] is set. *)
Definition sql_hook (self : stage) (env : environment connector dataframe)
  : outcome exn (environment connector dataframe) :=
  if direct_sql (config (context self))
  then match dfs (context self) with
       | [] => Raise IndexError
       | df0 :: _ =>
           Return (env_set "execute_sql_query" (EExecuteSqlQuery df0) env)
       end
  else Return env.

(** The namespace [execute_code] hands to [exec], from the base namespace
    and the tables. *)
Definition environment_of (self : stage)
    (env : environment connector dataframe)
  : environment connector dataframe :=
  add_skills (used_skills (context self)) env.

(** [execute_code], step by step. *)
Lemma execute_code_steps (self : stage) (code : string) (w : world) :
  run_code self code w
    = match get_environment (additional_dependencies (context self)) with
      | Raise e => (Raise e, w, [EvExecuteCode code])
      | Return base =>
          match get_originals self (_required_dfs self code) w with
          | (Raise e, w1, t1) => (Raise e, w1, EvExecuteCode code :: t1)
          | (Return originals, w1, t1) =>
              match sql_hook self (with_tables originals base) with
              | Raise e => (Raise e, w1, EvExecuteCode code :: t1)
              | Return env0 =>
                  let environment := environment_of self env0 in
                  let t := EvExecuteCode code :: t1 ++ [EvExec code environment] in
                  match exec code environment w1 with
                  | (Raise e, w2) => (Raise e, w2, t)
                  | (Return None, w2) =>
                      (Raise (NoResultFoundError "No result returned"), w2, t)
                  | (Return (Some result), w2) => (Return result, w2, t)
                  end
              end
          end
      end.
Proof.
  unfold execute_code. unfold bindM at 1. unfold emit at 1.
  unfold bindM at 1. unfold lift at 1.
  destruct (get_environment (additional_dependencies (context self)))
    as [base|e0]; [|reflexivity].
  unfold bindM at 1.
  destruct (get_originals self (_required_dfs self code) w)
    as [[[originals|e] w1] t1]; [|reflexivity].
  unfold bindM at 1. unfold sql_hook, environment_of.
  destruct (direct_sql (config (context self))).
  - destruct (dfs (context self)) as [|df0 rest].
    + unfold raise. cbn. now rewrite app_nil_r.
    + unfold ret at 1. unfold bindM at 1. unfold emit at 1.
      unfold bindM at 1.
      destruct (exec code _ w1) as [[[result|]|e] w2]; cbn;
        rewrite ?app_nil_r; reflexivity.
  - unfold ret at 1. unfold bindM at 1. unfold emit at 1.
    unfold bindM at 1.
    destruct (exec code _ w1) as [[[result|]|e] w2]; cbn;
      rewrite ?app_nil_r; reflexivity.
Qed.


(** With [direct_sql] set and no dataset in the context, [execute_code]
    never evaluates the snippet, whatever the snippet is: it raises the
    error of [get_environment] when the base namespace cannot be built,
    and otherwise [IndexError], from the first dataset that is not
    there. *)
Theorem direct_sql_without_dataset (self : stage) (code : string) (w : world) :
  direct_sql (config (context self)) = true ->
  dfs (context self) = [] ->
  run_code self code w
    = (match get_environment (additional_dependencies (context self)) with
       | Return _ => Raise IndexError
       | Raise e => Raise e
       end, w, [EvExecuteCode code]).
Proof.
  intros Hd He. rewrite execute_code_steps.
  destruct (get_environment (additional_dependencies (context self)))
    as [base|e0]; [|reflexivity].
  assert (Hreq : _required_dfs self code = []).
  { unfold _required_dfs. rewrite He. simpl.
    destruct (py_in "for df in dfs" code || py_in "pd.concat(dfs" code);
      reflexivity. }
  rewrite Hreq. unfold sql_hook. rewrite Hd, He. reflexivity.
Qed.

(** *** What the loop returns and how often it calls *)

Lemma attempt_validated (self : stage) (code : string) (w w1 : world)
    (r : result_t dataframe) (t : trace) :
  run_attempt self code w = (Return r, w1, t) ->
  validate_result r = true /\
  forall h, output_type (context self) = Some h ->
    h <> EmptyString -> fst (validate h r) = true.
Proof.
  unfold attempt.
  destruct (enforce_grouping (context self) && negb (py_in ".groupby" code)).
  { unfold bindM, emit, lift, raise.
    destruct (grouping_message columns self code); discriminate. }
  unfold bindM at 1.
  destruct (run_code self code w) as [[[result|e] w2] t2]; [|discriminate].
  unfold bindM at 1.
  destruct (output_type (context self)) as [h|] eqn:Ho.
  - destruct (String.eqb h "") eqn:Hh.
    + unfold ret at 1.
      destruct (validate_result result) eqn:Hv; [|discriminate].
      intros H. inversion H; subst. split; [exact Hv|].
      intros h' Hh' Hne. inversion Hh'; subst h'.
      apply String.eqb_eq in Hh. contradiction.
    + destruct (validate h result) as [ok errs] eqn:Hval.
      destruct ok; [|discriminate]. unfold ret at 1.
      destruct (validate_result result) eqn:Hv; [|discriminate].
      intros H. inversion H; subst. split; [exact Hv|].
      intros h' Hh' _. inversion Hh'; subst h'. now rewrite Hval.
  - unfold ret at 1.
    destruct (validate_result result) eqn:Hv; [|discriminate].
    intros H. inversion H; subst. split; [exact Hv|]. discriminate.
Qed.

Lemma execute_loop_validated (self : stage) (fuel : nat) (rc : Z)
    (code : string) (w w' : world) (r : result_t dataframe) (t : trace) :
  run_loop self fuel rc code w = Some (Return (Some r), w', t) ->
  validate_result r = true /\
  forall h, output_type (context self) = Some h ->
    h <> EmptyString -> fst (validate h r) = true.
Proof.
  revert rc code w t; induction fuel as [|fuel IH]; intros rc code w t;
    [discriminate|].
  cbn [execute_loop].
  destruct (rc <=? max_retries (config (context self)))%Z; [|discriminate].
  destruct (run_attempt self code w) as [[[result|e] w1] t1] eqn:Ha.
  - intros H. inversion H; subst.
    apply (attempt_validated self code w w' r t Ha).
  - destruct (negb _ || _); [discriminate|].
    destruct (retry_run_code self code e w1) as [[[code'|e'] w2] t4];
      [|discriminate].
    destruct (run_loop self fuel (rc + 1) code' w2) as [[[o w3] t5]|] eqn:Hl;
      [|discriminate].
    intros H. inversion H; subst. apply (IH _ _ _ _ Hl).
Qed.

(** A result the stage returns has passed both checks of the validator,
    at whichever attempt it was produced: its value is consistent with its
    type tag and, when an output type is asked for, it has that type. *)
Theorem execute_returns_validated_result (self : stage) (input : string)
    (w w' : world) (out : LogicUnitOutput dataframe serialized)
    (r : result_t dataframe) (t : trace) :
  run_execute self input w = Some (Return out, w', t) ->
  output out = Some r ->
  validate_result r = true /\
  forall h, output_type (context self) = Some h ->
    h <> EmptyString -> fst (validate h r) = true.
Proof.
  unfold execute, finish.
  destruct (run_loop self _ 0 input w) as [[[[result|e] w1] t1]|] eqn:Hl;
    try discriminate.
  destruct (serialize result w1) as [[v|e] w2]; [|discriminate].
  intros H Hout. inversion H; subst. cbn in Hout. subst result.
  apply (execute_loop_validated self _ _ _ _ _ _ _ Hl).
Qed.

(** Counting the events of one kind. *)
Definition count (p : event connector dataframe -> bool) (t : trace) : nat :=
  List.length (filter p t).

Definition is_failure (ev : event connector dataframe) : bool :=
  match ev with EvLogFailure _ _ => true | _ => false end.

Definition is_notification (ev : event connector dataframe) : bool :=
  match ev with EvOnFailure _ _ => true | _ => false end.

Definition is_repair (ev : event connector dataframe) : bool :=
  match ev with EvOnRetry _ _ => true | _ => false end.

Lemma count_app (p : event connector dataframe -> bool) (t1 t2 : trace) :
  count p (t1 ++ t2) = count p t1 + count p t2.
Proof. unfold count. now rewrite filter_app, length_app. Qed.

Lemma count_none (p : event connector dataframe -> bool) (t : trace) :
  Forall (fun ev => p ev = false) t -> count p t = 0.
Proof.
  unfold count. induction 1 as [|ev t Hev _ IH]; simpl; [reflexivity|].
  now rewrite Hev.
Qed.

(** The events of an attempt are those of the sandbox. *)
Definition blind_to_attempts (p : event connector dataframe -> bool) : Prop :=
  (forall c, p (EvGroupingCheckFailed c) = false) /\
  (forall c, p (EvExecuteCode c) = false) /\
  (forall c, p (EvExtractFilters c) = false) /\
  (forall i d f, p (EvSetAdditionalFilters i d f) = false) /\
  (forall i d, p (EvExecute i d) = false) /\
  (forall c e, p (EvExec c e) = false).

Lemma originals_loop_avoids (p : event connector dataframe -> bool)
    (self : stage) (l : list (option connector)) (index : nat) :
  (forall c, p (EvExtractFilters c) = false) ->
  (forall i d f, p (EvSetAdditionalFilters i d f) = false) ->
  (forall i d, p (EvExecute i d) = false) ->
  avoids p (loop_originals self index l).
Proof.
  intros H3 H4 H5.
  revert index; induction l as [|[d|] l IH]; intros index; cbn [originals_loop].
  - apply avoids_ret.
  - repeat (apply avoids_bind; [|intros ?]);
      try apply avoids_ret; try apply avoids_lift; try apply avoids_call;
      try (apply avoids_emit; auto); apply IH.
  - apply avoids_bind; [apply IH | intros ?; apply avoids_ret].
Qed.

(** An attempt on [code] leaves no event of a kind that is neither one of
    the materialization nor one of the evaluation of [code]. *)
Lemma attempt_avoids (p : event connector dataframe -> bool)
    (self : stage) (code : string) :
  (forall c, p (EvExtractFilters c) = false) ->
  (forall i d f, p (EvSetAdditionalFilters i d f) = false) ->
  (forall i d, p (EvExecute i d) = false) ->
  p (EvGroupingCheckFailed code) = false ->
  p (EvExecuteCode code) = false ->
  (forall env, p (EvExec code env) = false) ->
  avoids p (run_attempt self code).
Proof.
  intros H3 H4 H5 H1 H2 H6.
  unfold attempt.
  destruct (enforce_grouping (context self) && negb (py_in ".groupby" code)).
  - apply avoids_bind; [apply avoids_emit; auto | intros _].
    apply avoids_bind; [apply avoids_lift | intros exc; apply avoids_raise].
  - apply avoids_bind.
    + unfold execute_code, _get_originals.
      repeat (apply avoids_bind; [|intros ?]);
        try apply avoids_ret; try apply avoids_raise; try apply avoids_call;
        try apply avoids_lift; try (apply avoids_emit; auto).
      * apply originals_loop_avoids; assumption.
      * destruct (direct_sql _); [destruct (dfs _)|];
          try apply avoids_ret; apply avoids_raise.
      * match goal with
        | |- avoids _ (match ?b with _ => _ end) =>
            destruct b; [apply avoids_ret | apply avoids_raise]
        end.
    + intros result. apply avoids_bind.
      * destruct (output_type (context self)) as [h|]; [|apply avoids_ret].
        destruct (String.eqb h ""); [apply avoids_ret|].
        destruct (validate h result) as [ok errs].
        destruct ok; [apply avoids_ret | apply avoids_raise].
      * intros _. destruct (validate_result result);
          [apply avoids_ret | apply avoids_raise].
Qed.

Lemma attempt_count_none (p : event connector dataframe -> bool)
    (self : stage) (code : string) (w : world) :
  blind_to_attempts p -> count p (snd (run_attempt self code w)) = 0.
Proof.
  intros (H1 & H2 & H3 & H4 & H5 & H6).
  apply count_none.
  apply (attempt_avoids p self code); auto.
Qed.

Lemma blind_failure : blind_to_attempts is_failure.
Proof. repeat split. Qed.

Lemma blind_notification : blind_to_attempts is_notification.
Proof. repeat split. Qed.

Lemma blind_repair : blind_to_attempts is_repair.
Proof. repeat split. Qed.

Lemma report_counts (self : stage) (code : string) (e : exn) :
  sandbox_invocations (report self code e) = 0 /\
  count is_failure (report self code e) = 1 /\
  count is_repair (report self code e) = 0 /\
  count is_notification (report self code e)
    = (if on_failure self then 1 else 0).
Proof.
  unfold report_failure. destruct (on_failure self); repeat split.
Qed.

Lemma retry_counts (self : stage) (code : string) (e : exn) (w : world) :
  sandbox_invocations (snd (retry_run_code self code e w)) = 0 /\
  count is_failure (snd (retry_run_code self code e w)) = 0 /\
  count is_notification (snd (retry_run_code self code e w)) = 0 /\
  count is_repair (snd (retry_run_code self code e w)) <= 1 /\
  (forall code', fst (fst (retry_run_code self code e w)) = Return code' ->
     count is_repair (snd (retry_run_code self code e w)) = 1).
Proof.
  unfold _retry_run_code. destruct (on_retry self) as [cb|].
  - unfold bindM, emit. destruct (cb code e w) as [[code'|e'] w1]; cbn;
      repeat split; auto.
  - cbn. repeat split; auto. intros code' H. discriminate.
Qed.

Lemma execute_loop_accounting (self : stage) (fuel : nat) (rc : Z)
    (code : string) (w w' : world)
    (o : outcome exn (option (result_t dataframe))) (t : trace) :
  (0 <= rc)%Z ->
  run_loop self fuel rc code w = Some (o, w', t) ->
  sandbox_invocations t <= Z.to_nat (max_retries (config (context self)) + 1 - rc) /\
  count is_repair t <= Z.to_nat (max_retries (config (context self)) - rc) /\
  count is_repair t <= count is_failure t /\
  count is_failure t <= sandbox_invocations t /\
  count is_notification t
    = (if on_failure self then count is_failure t else 0) /\
  (forall r, o = Return (Some r) ->
     sandbox_invocations t = S (count is_failure t) /\
     count is_repair t = count is_failure t) /\
  (forall e, o = Raise e ->
     count is_failure t = sandbox_invocations t /\ 1 <= sandbox_invocations t) /\
  (o = Return None ->
     t = [] /\ (max_retries (config (context self)) < rc)%Z).
Proof.
  revert rc code w w' o t; induction fuel as [|fuel IH];
    intros rc code w w' o t Hrc; [discriminate|].
  cbn [execute_loop].
  destruct (rc <=? max_retries (config (context self)))%Z eqn:Hle.
  - apply Z.leb_le in Hle.
    pose proof (attempt_invocations ast_parse node_repr get_environment
                  columns materialize exec validate validate_result
                  self code w) as Hinv.
    pose proof (attempt_count_none is_failure self code w blind_failure) as Hf.
    pose proof (attempt_count_none is_notification self code w blind_notification)
      as Hn.
    pose proof (attempt_count_none is_repair self code w blind_repair) as Hr.
    destruct (run_attempt self code w) as [[[result|e] w1] t1]; cbn [snd] in *.
    + intros H. inversion H; subst.
      rewrite Hinv, Hf, Hn, Hr.
      repeat split; try lia; try discriminate;
        try (destruct (on_failure self); reflexivity).
    + destruct (report_counts self code e) as (Hri & Hrf & Hrr & Hrn).
      destruct (negb (use_error_correction_framework (config (context self)))
                || (rc >=? max_retries (config (context self)))%Z) eqn:Hstop.
      * intros H. inversion H; subst.
        rewrite !sandbox_invocations_app, !count_app.
        rewrite Hinv, Hf, Hn, Hr, Hri, Hrf, Hrr, Hrn.
        repeat split; try lia; try discriminate;
          try (destruct (on_failure self); reflexivity).
      * apply orb_false_iff in Hstop. destruct Hstop as [_ Hge].
        rewrite Z.geb_leb in Hge. apply Z.leb_gt in Hge.
        destruct (retry_counts self code e w1) as (Hti & Htf & Htn & Htr & Htr1).
        destruct (retry_run_code self code e w1) as [[[code'|e'] w2] t4];
          cbn [fst snd] in *.
        -- destruct (run_loop self fuel (rc + 1) code' w2) as [[[o3 w3] t5]|] eqn:Hl;
             [|discriminate].
           intros H. inversion H; subst.
           destruct (IH (rc + 1)%Z code' w2 w' o t5 ltac:(lia) Hl)
             as (I1 & I2 & I3 & I4 & I5 & I6 & I7 & I8).
           specialize (Htr1 code' eq_refl).
           rewrite !sandbox_invocations_app, !count_app.
           rewrite Hinv, Hf, Hn, Hr, Hri, Hrf, Hrr, Hrn, Hti, Htf, Htn, Htr1.
           cbn [sandbox_invocations count filter is_sandbox_invocation
                  is_failure is_notification is_repair List.length].
           split; [lia|]. split; [lia|]. split; [lia|]. split; [lia|].
           split; [destruct (on_failure self); lia|].
           split; [intros r Hr'; destruct (I6 r Hr'); lia|].
           split; [intros e0 He0; destruct (I7 e0 He0); lia|].
           intros Ho. destruct (I8 Ho) as [_ Hlt]. lia.
        -- intros H. inversion H; subst.
           rewrite !sandbox_invocations_app, !count_app.
           rewrite Hinv, Hf, Hn, Hr, Hri, Hrf, Hrr, Hrn, Hti, Htf, Htn.
           cbn [sandbox_invocations count filter is_sandbox_invocation
                  is_failure is_notification is_repair List.length].
           repeat split; try lia; try discriminate;
             try (destruct (on_failure self); lia).
  - apply Z.leb_gt in Hle. intros H. inversion H; subst. cbn.
    repeat split; try lia; try discriminate;
      try (destruct (on_failure self); reflexivity).
Qed.

(** Every run of the stage comes to an end after at most
    [max_retries + 1] calls of the sandbox and at most [max_retries] calls
    of the repair callback; with a negative [max_retries] it makes
    none. *)
Theorem execute_call_bounds (self : stage) (input : string) (w : world) :
  exists o w' t,
    run_execute self input w = Some (o, w', t) /\
    sandbox_invocations t
      <= Z.to_nat (max_retries (config (context self)) + 1) /\
    count is_repair t <= Z.to_nat (max_retries (config (context self))).
Proof.
  unfold execute.
  destruct (execute_loop_total ast_parse node_repr get_environment columns
              materialize exec validate validate_result format_exc self
              (S (Z.to_nat (max_retries (config (context self)) + 1))) 0
              input w) as [[[o1 w1] t] Hl]; [lia|].
  rewrite Hl.
  destruct (finish_trace serialize o1 w1 t) as (o & w' & Hf).
  exists o, w', t. split; [exact Hf|].
  destruct (execute_loop_accounting self _ 0 input w w1 o1 t ltac:(lia) Hl)
    as (I1 & I2 & _).
  rewrite Z.sub_0_r in *. auto.
Qed.

(** The bookkeeping of a run.  The notification hook, when supplied, is
    called once for each failed attempt, and never otherwise.  A run that
    returns a result has failed one time fewer than it has called the
    sandbox, and has called the repair callback once for each failure; a
    run that returns no result has made no attempt, with a negative
    [max_retries].  A run that raises has either failed at every call of
    the sandbox, of which there is at least one, or its loop has come to
    its end and the serializer has raised on the result of the loop. *)
Theorem execute_bookkeeping (self : stage) (input : string) (w : world) :
  exists o w' t,
    run_execute self input w = Some (o, w', t) /\
    count is_notification t
      = (if on_failure self then count is_failure t else 0) /\
    count is_repair t <= count is_failure t /\
    (forall out r, o = Return out -> output out = Some r ->
       sandbox_invocations t = S (count is_failure t) /\
       count is_repair t = count is_failure t) /\
    (forall out, o = Return out -> output out = None ->
       t = [] /\ (max_retries (config (context self)) < 0)%Z) /\
    (forall e, o = Raise e ->
       (count is_failure t = sandbox_invocations t /\
        1 <= sandbox_invocations t) \/
       (exists result w1,
          serialize result w1 = (Raise e, w') /\
          (forall r, result = Some r ->
             sandbox_invocations t = S (count is_failure t)) /\
          (result = None -> t = []))).
Proof.
  unfold execute.
  destruct (execute_loop_total ast_parse node_repr get_environment columns
              materialize exec validate validate_result format_exc self
              (S (Z.to_nat (max_retries (config (context self)) + 1))) 0
              input w) as [[[o1 w1] t] Hl]; [lia|].
  rewrite Hl.
  destruct (execute_loop_accounting self _ 0 input w w1 o1 t ltac:(lia) Hl)
    as (_ & _ & I3 & _ & I5 & I6 & I7 & I8).
  unfold finish. destruct o1 as [result|e1].
  - destruct (serialize result w1) as [[v|e] w2] eqn:Hs.
    + eexists _, w2, t. split; [reflexivity|].
      split; [exact I5|]. split; [exact I3|]. split; [|split].
      * intros out r Ho Hout. inversion Ho; subst out. cbn in Hout.
        subst result. apply (I6 r eq_refl).
      * intros out Ho Hout. inversion Ho; subst out. cbn in Hout.
        subst result. apply (I8 eq_refl).
      * intros e Ho. discriminate.
    + exists (Raise e), w2, t. split; [reflexivity|].
      split; [exact I5|]. split; [exact I3|]. split; [|split].
      * intros out r Ho. discriminate.
      * intros out Ho. discriminate.
      * intros e' Ho. inversion Ho; subst e'. right.
        exists result, w1. split; [exact Hs|]. split.
        -- intros r Hr. subst result. apply (I6 r eq_refl).
        -- intros Hr. subst result. apply (I8 eq_refl).
  - exists (Raise e1), w1, t. split; [reflexivity|].
    split; [exact I5|]. split; [exact I3|]. split; [|split].
    + intros out r Ho. discriminate.
    + intros out Ho. discriminate.
    + intros e Ho. inversion Ho; subst e. left. apply (I7 e1 eq_refl).
Qed.

(** *** The grouping check *)

(** Events the grouping check rules out and events an attempt never
    leaves: the evaluation of a snippet without [.groupby], and the log of
    a failure. *)
Definition offends_grouping (ev : event connector dataframe) : bool :=
  match ev with
  | EvExecuteCode c => negb (py_in ".groupby" c)
  | EvExec c _ => negb (py_in ".groupby" c)
  | EvLogFailure _ _ => true
  | _ => false
  end.

(** What the grouping check raises: [Exception] with its message, or the
    error of building the message. *)
Definition grouping_failure (self : stage) (code : string) : exn :=
  match grouping_message columns self code with
  | Return exc => Exception exc
  | Raise e => e
  end.

(** What the stage does under the grouping check: it runs and evaluates
    only snippets that contain [.groupby], and the failure it logs for a
    snippet that does not is the one of the check. *)
Definition respects_grouping (self : stage) (ev : event connector dataframe)
  : Prop :=
  match ev with
  | EvExecuteCode c => py_in ".groupby" c = true
  | EvExec c _ => py_in ".groupby" c = true
  | EvLogFailure c e =>
      py_in ".groupby" c = false -> e = grouping_failure self c
  | _ => True
  end.

Lemma attempt_grouping (self : stage) (code : string) (w : world) :
  enforce_grouping (context self) = true ->
  Forall (respects_grouping self) (snd (run_attempt self code w)) /\
  (forall e, fst (fst (run_attempt self code w)) = Raise e ->
     py_in ".groupby" code = false ->
     e = grouping_failure self code).
Proof.
  intros Hen. destruct (py_in ".groupby" code) eqn:Hg.
  - split; [|intros e _ H; discriminate].
    assert (Ha : avoids offends_grouping (run_attempt self code)).
    { apply attempt_avoids; try reflexivity; intros; cbn; now rewrite Hg. }
    eapply Forall_impl; [|apply (Ha w)].
    intros ev Hev. destruct ev; cbn in *; try exact I;
      try discriminate; now apply negb_false_iff.
  - unfold attempt, grouping_failure. rewrite Hen, Hg. cbn [negb andb].
    unfold bindM, emit, lift, raise.
    destruct (grouping_message columns self code) as [exc|e0]; cbn; split;
      try (repeat constructor); intros e He _; now inversion He.
Qed.

Lemma execute_loop_grouping (self : stage) (fuel : nat) (rc : Z)
    (code : string) (w w' : world)
    (o : outcome exn (option (result_t dataframe))) (t : trace) :
  enforce_grouping (context self) = true ->
  run_loop self fuel rc code w = Some (o, w', t) ->
  Forall (respects_grouping self) t.
Proof.
  intros Hen. revert rc code w w' o t; induction fuel as [|fuel IH];
    intros rc code w w' o t; [discriminate|].
  cbn [execute_loop].
  destruct (rc <=? max_retries (config (context self)))%Z;
    [|intros H; inversion H; constructor].
  destruct (attempt_grouping self code w Hen) as [Ht1 He1].
  destruct (run_attempt self code w) as [[[result|e] w1] t1]; cbn [fst snd] in *.
  - intros H. inversion H; subst. exact Ht1.
  - assert (Hrep : Forall (respects_grouping self) (report self code e)).
    { unfold report_failure. constructor.
      - cbn. intros Hg. now apply He1.
      - destruct (on_failure self); repeat constructor. }
    destruct (negb _ || _).
    + intros H. inversion H; subst. apply Forall_app. split; assumption.
    + assert (Hretry : Forall (respects_grouping self)
                         (snd (retry_run_code self code e w1))).
      { unfold _retry_run_code. destruct (on_retry self) as [cb|].
        - unfold bindM, emit. destruct (cb code e w1) as [[c'|e'] w2]; cbn;
            repeat constructor.
        - cbn. constructor. }
      destruct (retry_run_code self code e w1) as [[[code'|e'] w2] t4];
        cbn [snd] in Hretry.
      * destruct (run_loop self fuel (rc + 1) code' w2) as [[[o3 w3] t5]|] eqn:Hl;
          [|discriminate].
        intros H. inversion H; subst.
        repeat (apply Forall_app; split); try assumption.
        -- repeat constructor.
        -- apply (IH _ _ _ _ _ _ Hl).
      * intros H. inversion H; subst.
        repeat (apply Forall_app; split); try assumption.
        repeat constructor.
Qed.

(** With [enforce_grouping] set, every snippet the stage evaluates, the
    input as well as each answer of the repair callback, contains
    [.groupby]; and every failure that is logged for a snippet without it
    is what the check raises: [Exception] with the message of the check
    or, when a column label stops the check, the error of that label. *)
Theorem grouping_check_guards_every_attempt (self : stage) (input : string)
    (w w' : world) (o : outcome exn (LogicUnitOutput dataframe serialized))
    (t : trace) :
  enforce_grouping (context self) = true ->
  run_execute self input w = Some (o, w', t) ->
  (forall c env, In (EvExec c env) t -> py_in ".groupby" c = true) /\
  (forall c e, In (EvLogFailure c e) t ->
     py_in ".groupby" c = false ->
     match grouping_message columns self c with
     | Return exc => e = Exception exc
     | Raise e' => e = e'
     end).
Proof.
  intros Hen Hrun. unfold execute in Hrun.
  destruct (run_loop self _ 0 input w) as [[[o1 w1] t1]|] eqn:Hl;
    [|discriminate].
  pose proof (execute_loop_grouping self _ _ _ _ _ _ _ Hen Hl) as Hall.
  destruct (finish_trace serialize o1 w1 t1) as (o' & w2 & Hf).
  rewrite Hf in Hrun. inversion Hrun; subst.
  rewrite Forall_forall in Hall. split.
  - intros c env Hin. apply (Hall _ Hin).
  - intros c e Hin Hg. pose proof (Hall _ Hin Hg) as He.
    unfold grouping_failure in He.
    destruct (grouping_message columns self c); exact He.
Qed.

Lemma joined_app (l1 l2 : list string) :
  fold_right String.append "" (l1 ++ l2)
    = (fold_right String.append "" l1 ++ fold_right String.append "" l2)%string.
Proof.
  induction l1 as [|x l1 IH]; cbn [fold_right app]; [reflexivity|].
  now rewrite IH, append_assoc.
Qed.

(** The columns of a table that the message of the grouping check names:
    the columns of type [object] whose label is a string whose quoted
    text occurs in the snippet. *)
Definition named_in (code : string) (f : list (label * string)) : list string :=
  flat_map
    (fun c =>
       match fst c with
       | LStr col =>
           if String.eqb (snd c) "object"
              && py_in ("'" ++ col ++ "'")%string code
           then [col] else []
       | LObj _ => []
       end)
    f.

Definition named_columns (self : stage) (code : string) : list string :=
  flat_map (fun df => named_in code (columns df)) (dfs (context self)).

Definition quoted (names : list string) : string :=
  fold_right String.append "" (map (fun name => "'" ++ name ++ "', ")%string names).

Lemma label_eqb_refl (l : label) : label_eqb l l = true.
Proof. destruct l; simpl; apply String.eqb_refl. Qed.

(** The dtype the check reads for a column of the table is the dtype of
    that column, and the selection always finds a column. *)
Lemma dtype_of_column (f : frame) (c : label * string) :
  In c f ->
  dtype_of f (fst c) <> NoColumn /\
  forall d, dtype_of f (fst c) = Dtype d -> d = snd c.
Proof.
  intros Hin. unfold dtype_of.
  assert (Hc : In c (filter (fun c0 => label_eqb (fst c0) (fst c)) f)).
  { apply filter_In. split; [exact Hin | apply label_eqb_refl]. }
  destruct (filter (fun c0 => label_eqb (fst c0) (fst c)) f) as [|c1 [|c2 l]].
  - contradiction.
  - split; [discriminate|]. intros d H. inversion H.
    destruct Hc as [->|[]]. reflexivity.
  - split; discriminate.
Qed.

Lemma grouping_columns_spec (code : string) (f : frame)
    (cols : list (label * string)) (exc : string) :
  incl cols f ->
  match grouping_columns code f cols exc with
  | Return msg => msg = (exc ++ quoted (named_in code cols))%string
  | Raise e => e = AttributeError \/ e = TypeError
  end.
Proof.
  revert exc; induction cols as [|c cols IH]; intros exc Hincl.
  - cbn. now rewrite append_nil_r.
  - assert (Hc : In c f) by (apply Hincl; left; reflexivity).
    assert (Hrest : incl cols f) by (intros x Hx; apply Hincl; right; exact Hx).
    destruct (dtype_of_column f c Hc) as [Hsome Hd].
    cbn [grouping_columns named_in flat_map].
    destruct (dtype_of f (fst c)) as [d| |] eqn:Hdt.
    + rewrite <- (Hd d eq_refl).
      destruct (String.eqb d "object") eqn:Hobj.
      * destruct (fst c) as [col|text]; [|right; reflexivity].
        specialize (IH (if py_in ("'" ++ col ++ "'")%string code
                        then (exc ++ "'" ++ col ++ "', ")%string else exc)
                      Hrest).
        destruct (grouping_columns code f cols _) as [msg|e]; [|exact IH].
        rewrite IH. unfold quoted, named_in. cbn [andb].
        destruct (py_in ("'" ++ col ++ "'")%string code);
          cbn [app map fold_right]; rewrite ?append_assoc; reflexivity.
      * specialize (IH exc Hrest).
        destruct (grouping_columns code f cols exc) as [msg|e]; [|exact IH].
        rewrite IH. unfold named_in. cbn [andb].
        destruct (fst c); reflexivity.
    + contradiction.
    + left. reflexivity.
Qed.

Lemma grouping_datasets_spec (code : string) (l : list connector)
    (exc : string) :
  match grouping_datasets columns code l exc with
  | Return msg =>
      msg = (exc ++ quoted (flat_map (fun df => named_in code (columns df)) l))%string
  | Raise e => e = AttributeError \/ e = TypeError
  end.
Proof.
  revert exc; induction l as [|df l IH]; intros exc.
  - cbn. now rewrite append_nil_r.
  - cbn [grouping_datasets flat_map].
    pose proof (grouping_columns_spec code (columns df) (columns df) exc
                  (incl_refl _)) as Hc.
    destruct (grouping_columns code (columns df) (columns df) exc)
      as [exc1|e]; cbn [bind]; [|exact Hc].
    specialize (IH exc1).
    destruct (grouping_datasets columns code l exc1) as [msg|e]; [|exact IH].
    rewrite IH, Hc. unfold quoted.
    now rewrite map_app, joined_app, append_assoc.
Qed.

(** When the grouping check builds its message, the message is the fixed
    sentence followed by the quoted names of the columns of type [object]
    whose quoted name occurs in the snippet, each followed by a comma and
    a blank, in the order of the datasets and of their columns; a column
    that several datasets have is named once for each of them.  When it
    does not, the error is [AttributeError], from a label that several
    columns of a table share, or [TypeError], from a label of a column
    of type [object] that is not a string. *)
Theorem grouping_message_names_object_columns (self : stage) (code : string) :
  (forall msg, grouping_message columns self code = Return msg ->
     msg = ("groupby() statement is missing. Group the data by " ++
            quoted (named_columns self code))%string) /\
  (forall e, grouping_message columns self code = Raise e ->
     e = AttributeError \/ e = TypeError).
Proof.
  unfold grouping_message, named_columns.
  pose proof (grouping_datasets_spec code (dfs (context self))
                "groupby() statement is missing. Group the data by ") as H.
  destruct (grouping_datasets columns code (dfs (context self)) _) as [m|e0].
  - split; [|discriminate].
    intros msg Hm. assert (Heq : m = msg) by congruence.
    rewrite <- Heq. exact H.
  - split; [discriminate|].
    intros e He. assert (Heq : e0 = e) by congruence.
    rewrite <- Heq. exact H.
Qed.

End More.

End StageMore.

(** *** The stage on the loans *)

Module StageMoreExamples.
Import PyStr PyStrFacts Pandas PyAst CodeExecution StageFacts LoanExample StageMore.
Local Open Scope list_scope.

(** The table of the loans under the filter [age > 30], beside a slot that
    is not required. *)
Definition loans_loaded : list (event connector dataframe) :=
  [EvExtractFilters snippet_over_30;
   EvSetAdditionalFilters 0 "loans"%string [over_30];
   EvExecute 0 "loans"%string].

Lemma get_originals_shape_witness :
  List.length [Some [over_30]; None] = 2 /\
  (forall i, nth_error [Some "loans"%string; None] i = Some None ->
     nth_error [Some [over_30]; None] i = Some None) /\
  (forall i df, nth_error [Some "loans"%string; None] i = Some (Some df) ->
     (exists d, nth_error [Some [over_30]; None] i = Some (Some d)) /\
     In (EvSetAdditionalFilters i df
           (filters_of ast_parse node_repr retrying_stage i)) loans_loaded /\
     In (EvExecute i df) loans_loaded).
Proof.
  apply (get_originals_shape ast_parse node_repr materialize retrying_stage
           [Some "loans"%string; None] tt tt [Some [over_30]; None] loans_loaded).
  vm_compute. reflexivity.
Defined.

(** One dataset, direct queries, and a skill that is called [df]. *)
Definition skilled_stage : CodeExecution connector world :=
  {| on_failure := false;
     on_retry := None;
     context :=
       {| dfs := ["loans"%string];
          enforce_grouping := false;
          config := {| max_retries := 0;
                       use_error_correction_framework := false;
                       direct_sql := true |};
          additional_dependencies := [];
          current_code_executed := snippet_over_30;
          output_type := None;
          used_skills := ["df"%string] |} |}.

(** What the snippet sees then: the skill under [df], not the table. *)
Definition skilled_environment : environment connector dataframe :=
  [("dfs"%string, EDfs [Some [over_30]]);
   ("df"%string, ESkill "df");
   ("execute_sql_query"%string, EExecuteSqlQuery "loans"%string)].


(** Direct queries, and no dataset. *)
Definition no_dataset_stage : CodeExecution connector world :=
  {| on_failure := false;
     on_retry := None;
     context :=
       {| dfs := [];
          enforce_grouping := false;
          config := {| max_retries := 0;
                       use_error_correction_framework := false;
                       direct_sql := true |};
          additional_dependencies := [];
          current_code_executed := snippet_one;
          output_type := None;
          used_skills := [] |} |}.

Lemma direct_sql_without_dataset_witness :
  run_code no_dataset_stage snippet_one
    = (Raise IndexError, tt, [EvExecuteCode snippet_one]).
Proof.
  apply (direct_sql_without_dataset ast_parse node_repr get_environment
           materialize exec no_dataset_stage snippet_one tt); reflexivity.
Defined.

(** A snippet that groups the loans, one that does not, and a sandbox
    that knows the first. *)
Definition snippet_by_status : string :=
  "result = {'type': 'number', 'value': dfs[0].groupby('loan_status').size().max()}".

Definition snippet_paid_off : string :=
  "result = {'type': 'number', 'value': len(dfs[0][dfs[0]['loan_status'] == 'PAIDOFF'])}".

Definition exec_grouped (code : string) (env : environment connector dataframe)
    (w : world) : outcome exn (option (result_t dataframe)) * world :=
  if String.eqb code snippet_by_status
  then (Return (Some {| type := "number"; value := VInt 3 |}), w)
  else exec code env w.

(** The grouping check is on, a number is asked for, and the repair
    callback answers with the snippet that groups. *)
Definition grouping_stage : CodeExecution connector world :=
  {| on_failure := true;
     on_retry := Some (answer snippet_by_status);
     context :=
       {| dfs := ["loans"%string];
          enforce_grouping := true;
          config := correcting 2;
          additional_dependencies := [];
          current_code_executed := snippet_over_30;
          output_type := Some "number"%string;
          used_skills := [] |} |}.

Definition missing_groupby : exn :=
  Exception "groupby() statement is missing. Group the data by 'loan_status', ".

Definition grouping_trace : list (event connector dataframe) :=
  [EvGroupingCheckFailed snippet_paid_off;
   EvLogFailure snippet_paid_off missing_groupby;
   EvOnFailure snippet_paid_off "Traceback (most recent call last)";
   EvLogRetry 1;
   EvOnRetry snippet_paid_off missing_groupby;
   EvExecuteCode snippet_by_status;
   EvExtractFilters snippet_over_30;
   EvSetAdditionalFilters 0 "loans"%string [over_30];
   EvExecute 0 "loans"%string;
   EvExec snippet_by_status loaded_over_30].

Definition three : result_t dataframe := {| type := "number"; value := VInt 3 |}.

Lemma execute_returns_validated_result_witness :
  validate_result_spec three = true /\
  forall h, output_type (context grouping_stage) = Some h ->
    h <> EmptyString -> fst (validate_spec h three) = true.
Proof.
  apply (execute_returns_validated_result ast_parse node_repr get_environment
           columns materialize exec_grouped validate_spec validate_result_spec
           serialize format_exc grouping_stage snippet_paid_off tt tt
           (answered three) three grouping_trace).
  - vm_compute. reflexivity.
  - reflexivity.
Defined.

Lemma grouping_check_guards_every_attempt_witness :
  (forall c env, In (EvExec c env) grouping_trace -> py_in ".groupby" c = true) /\
  (forall c e, In (EvLogFailure c e) grouping_trace ->
     py_in ".groupby" c = false ->
     match grouping_message columns grouping_stage c with
     | Return exc => e = Exception exc
     | Raise e' => e = e'
     end).
Proof.
  apply (grouping_check_guards_every_attempt ast_parse node_repr
           get_environment columns materialize exec_grouped validate_spec
           validate_result_spec serialize format_exc grouping_stage
           snippet_paid_off tt tt (Return (answered three)) grouping_trace).
  - reflexivity.
  - vm_compute. reflexivity.
Defined.

End StageMoreExamples.

(** ** More on the extraction of filters *)

Module ExtractorMore.
Import PyStr PyAst CodeExecution ExtractorFacts.
Local Open Scope list_scope.

(** [base[c1][c2]...[cn]] *)
Definition subscript_chain (base : node) (indices : list constant) : node :=
  fold_left (fun operand c => Subscript operand (Constant c)) indices base.

Lemma tokenize_chain (base : node) (indices : list constant)
    (tokens : list pyval) :
  _tokenize_operand base = Return tokens ->
  _tokenize_operand (subscript_chain base indices)
    = Return (tokens ++ map VConst indices).
Proof.
  unfold subscript_chain.
  revert base tokens; induction indices as [|c indices IH];
    intros base tokens Hbase; cbn [fold_left map].
  - now rewrite app_nil_r.
  - rewrite (IH (Subscript base (Constant c)) (tokens ++ [VConst c])).
    + now rewrite <- app_assoc.
    + cbn. rewrite Hbase. reflexivity.
Qed.

(** The tokens of a name under any number of constant subscripts are the
    name followed by the subscripts, the innermost first; the example of
    the docstring, [foo[2][1][0]], is the case of three subscripts. *)
Theorem tokenize_subscript_chain (id : string) (indices : list constant) :
  _tokenize_operand (subscript_chain (Name id) indices)
    = Return (VConst (CStr id) :: map VConst indices).
Proof. apply (tokenize_chain (Name id) indices [VConst (CStr id)]). reflexivity. Qed.

(** Operands that give no first token: the generator raises, or it yields
    nothing and the unpacking of its tokens raises. *)
Definition has_no_token (operand_node : node) : bool :=
  match _tokenize_operand operand_node with
  | Return (_ :: _) => false
  | _ => true
  end.

Lemma append_pairs_fails (current_df : string) (left_str : pyval)
    (pairs : list (cmpop * node)) (comparisons : comparisons_t)
    (op : cmpop) (rhs : node) :
  In (op, rhs) pairs ->
  has_no_token rhs = true ->
  exists e, append_pairs current_df left_str pairs comparisons = Raise e.
Proof.
  revert comparisons; induction pairs as [|[op' rhs'] pairs IH];
    intros comparisons Hin Hbad; [contradiction|].
  cbn [append_pairs]. destruct Hin as [Heq|Hin].
  - inversion Heq; subst. unfold has_no_token in Hbad.
    destruct (_tokenize_operand rhs) as [[|name slices]|e]; cbn;
      try discriminate; eexists; reflexivity.
  - destruct (_tokenize_operand rhs') as [[|name slices]|e]; cbn;
      try (eexists; reflexivity).
    apply IH; assumption.
Qed.

Section Degradation.

Variable ast_parse : string -> option node.
Variable node_repr : node -> string.

Lemma comparisons_loop_fails (assignments : list assign) (nodes : list node)
    (comparisons : comparisons_t) (current_df : string)
    (ln : Z) (v s : node) (ops : list cmpop) (comparators : list node)
    (op : cmpop) (rhs : node) :
  In (Compare ln (Subscript v s) ops comparators) nodes ->
  In (op, rhs) (combine ops comparators) ->
  has_no_token rhs = true ->
  exists e,
    comparisons_loop node_repr assignments nodes comparisons current_df = Raise e.
Proof.
  intros Hin Hpair Hbad.
  revert comparisons current_df; induction nodes as [|n nodes IH];
    intros comparisons current_df; [contradiction|].
  assert (Hhere :
    forall comparisons current_df,
    exists e,
      handle_compare node_repr assignments ln (Subscript v s) ops comparators
        comparisons current_df = Raise e).
  { intros c0 d0. unfold handle_compare.
    destruct (_tokenize_operand (Subscript v s)) as [tokens|e];
      cbn [bind]; [|eexists; reflexivity].
    destruct (unpack tokens) as [ns|e]; cbn [bind]; [|eexists; reflexivity].
    destruct (_get_df_id_by_nearest_assignment node_repr ln assignments (fst ns))
      as [found|e]; cbn [bind]; [|eexists; reflexivity].
    destruct (append_pairs_fails
                (match found with Some d => d | None => d0 end)
                (last_token (fst ns) (snd ns)) (combine ops comparators) c0
                op rhs Hpair Hbad) as [e He].
    rewrite He. eexists; reflexivity. }
  destruct Hin as [Heq|Hin].
  - subst n. cbn [comparisons_loop].
    destruct (Hhere comparisons current_df) as [e He]. rewrite He.
    eexists; reflexivity.
  - specialize (IH Hin).
    destruct n as [b|ln' tg v'|v'|ln' lhs ops' cs'|v' s'|f ar|v' at_|id|c|ch];
      try (cbn [comparisons_loop]; apply IH).
    destruct lhs as [b|ln2 tg v2|v2|ln2 l2 o2 c2|v2 s2|f ar|v2 at_|id|c|ch];
      try (cbn [comparisons_loop]; apply IH).
    cbn [comparisons_loop].
    destruct (handle_compare node_repr assignments ln' (Subscript v2 s2) ops' cs'
                comparisons current_df) as [st|e]; cbn [bind].
    + apply IH.
    + eexists; reflexivity.
Qed.

(** One right operand that gives no token, in one comparison whose left
    operand is a subscript, anywhere in the snippet, makes
    [_extract_filters] return the empty dictionary: the filters of every
    other comparison of the snippet are dropped with it, and no error is
    raised. *)
Theorem untokenizable_operand_drops_all_filters (code : string) (tree : node)
    (ln : Z) (v s : node) (ops : list cmpop) (comparators : list node)
    (op : cmpop) (rhs : node) :
  ast_parse code = Some tree ->
  In (Compare ln (Subscript v s) ops comparators) (walk tree) ->
  In (op, rhs) (combine ops comparators) ->
  has_no_token rhs = true ->
  _extract_filters ast_parse node_repr code = Return [].
Proof.
  intros Hparse Hin Hpair Hbad. unfold _extract_filters. rewrite Hparse.
  unfold _extract_comparisons.
  destruct (comparisons_loop_fails (assignment_nodes tree) (walk tree) []
              "dfs[0]" ln v s ops comparators op rhs Hin Hpair Hbad) as [e He].
  now rewrite He.
Qed.

(** [_get_df_id_by_nearest_assignment] answers only when it meets an
    assignment on a later line: when every assignment lies at or before
    the current line the loop runs to its end, the function has no
    [return] there, and the answer is [None] whatever the assignments
    bind. *)
Theorem nearest_assignment_needs_later_line (current_lineno : Z)
    (assignments : list assign) (target_name : pyval) :
  Forall (fun a => targets a <> []) assignments ->
  Forall (fun a => (lineno a <= current_lineno)%Z) assignments ->
  _get_df_id_by_nearest_assignment node_repr current_lineno assignments
    target_name = Return None.
Proof.
  intros Ht Hle. rewrite (lookup_spec node_repr _ _ _ Ht).
  replace (existsb (fun a => (lineno a >? current_lineno)%Z) assignments)
    with false; [reflexivity|].
  symmetry. apply not_true_is_false. intros Hex.
  apply existsb_exists in Hex. destruct Hex as [a [Hin Hgt]].
  rewrite Forall_forall in Hle. specialize (Hle a Hin).
  rewrite Z.gtb_ltb in Hgt. apply Z.ltb_lt in Hgt. lia.
Qed.

End Degradation.

(** [foo[2][1][0]] *)
Lemma tokenize_subscript_chain_witness :
  _tokenize_operand
    (Subscript
       (Subscript (Subscript (Name "foo") (Constant (CInt 2))) (Constant (CInt 1)))
       (Constant (CInt 0)))
    = Return [VConst (CStr "foo"); VConst (CInt 2); VConst (CInt 1); VConst (CInt 0)].
Proof. exact (tokenize_subscript_chain "foo" [CInt 2; CInt 1; CInt 0]). Defined.

(** [dfs[0][(dfs[0]['age'] > 30) & (dfs[0]['income'] < limit + 1)]] *)
Definition two_comparisons : node :=
  Module_
    [Expr
       (Subscript (Subscript (Name "dfs") (Constant (CInt 0)))
          (Other
             [Compare 1
                (Subscript (Subscript (Name "dfs") (Constant (CInt 0)))
                   (Constant (CStr "age")))
                [Op.Gt] [Constant (CInt 30)];
              Compare 1
                (Subscript (Subscript (Name "dfs") (Constant (CInt 0)))
                   (Constant (CStr "income")))
                [Op.Lt] [Other [Name "limit"; Constant (CInt 1)]]]))].

Definition parse_two_comparisons (code : string) : option node :=
  Some two_comparisons.

Definition plain_repr (n : node) : string := "<ast.AST object>".

Lemma untokenizable_operand_drops_all_filters_witness :
  _extract_filters parse_two_comparisons plain_repr "" = Return [].
Proof.
  apply (untokenizable_operand_drops_all_filters parse_two_comparisons
           plain_repr "" two_comparisons 1
           (Subscript (Name "dfs") (Constant (CInt 0)))
           (Constant (CStr "income")) [Op.Lt]
           [Other [Name "limit"; Constant (CInt 1)]]
           Op.Lt (Other [Name "limit"; Constant (CInt 1)])).
  - reflexivity.
  - vm_compute. do 8 right. left. reflexivity.
  - left. reflexivity.
  - reflexivity.
Defined.

(** [df = dfs[1]] on line 1, seen from a comparison on line 2. *)
Definition binding_on_line_1 : assign :=
  {| lineno := 1;
     targets := [Name "df"];
     PyAst.value := Subscript (Name "dfs") (Constant (CInt 1)) |}.

Lemma nearest_assignment_needs_later_line_witness :
  _get_df_id_by_nearest_assignment plain_repr 2 [binding_on_line_1]
    (VConst (CStr "df")) = Return None.
Proof.
  apply (nearest_assignment_needs_later_line plain_repr 2 [binding_on_line_1]
           (VConst (CStr "df"))).
  - constructor; [discriminate | constructor].
  - constructor; [simpl; lia | constructor].
Defined.

End ExtractorMore.

(** ** The nearest call ([_get_nearest_func_call]) *)

Module NearestCall.
Import PyAst.
Local Open Scope list_scope.

(** An [ast.Call] node as it is handed over: its line and its [func]. *)
Record call_node : Type := {
  call_lineno : Z;
  func : node;
  args : list node
}.

(** [call.func.attr]; [None] when [func] has no such attribute. *)
Definition attr_attr (n : node) : option string :=
  match n with
  | Attribute _ attr => Some attr
  | _ => None
  end.

(** The loop of [_get_nearest_func_call] over [reversed(calls)]; an
    [AttributeError] of the comparison goes on with the next call. *)
Fixpoint nearest_call_loop (current_lineno : Z) (func_name : string)
    (calls : list call_node) : option call_node :=
  match calls with
  | [] => None
  | call :: rest =>
      if (call_lineno call <? current_lineno)%Z then
        match attr_attr (func call) with
        | Some attr =>
            if String.eqb attr func_name then Some call
            else nearest_call_loop current_lineno func_name rest
        | None => nearest_call_loop current_lineno func_name rest
        end
      else nearest_call_loop current_lineno func_name rest
  end.

Definition _get_nearest_func_call (current_lineno : Z) (calls : list call_node)
    (func_name : string) : option call_node :=
  nearest_call_loop current_lineno func_name (rev calls).

(** A call of the method [func_name] on a line before [current_lineno]. *)
Definition is_earlier_call_of (current_lineno : Z) (func_name : string)
    (call : call_node) : bool :=
  (call_lineno call <? current_lineno)%Z &&
  match func call with
  | Attribute _ attr => String.eqb attr func_name
  | _ => false
  end.

Lemma nearest_call_loop_spec (current_lineno : Z) (func_name : string)
    (calls : list call_node) :
  match nearest_call_loop current_lineno func_name calls with
  | Some call =>
      exists skipped later,
        calls = skipped ++ call :: later /\
        is_earlier_call_of current_lineno func_name call = true /\
        Forall (fun c => is_earlier_call_of current_lineno func_name c = false)
          skipped
  | None =>
      Forall (fun c => is_earlier_call_of current_lineno func_name c = false) calls
  end.
Proof.
  induction calls as [|call rest IH]; cbn [nearest_call_loop]; [constructor|].
  assert (Hskip :
    is_earlier_call_of current_lineno func_name call = false ->
    match nearest_call_loop current_lineno func_name rest with
    | Some call0 =>
        exists skipped later,
          call :: rest = skipped ++ call0 :: later /\
          is_earlier_call_of current_lineno func_name call0 = true /\
          Forall (fun c => is_earlier_call_of current_lineno func_name c = false)
            skipped
    | None =>
        Forall (fun c => is_earlier_call_of current_lineno func_name c = false)
          (call :: rest)
    end).
  { intros Hno.
    destruct (nearest_call_loop current_lineno func_name rest) as [call0|].
    - destruct IH as (skipped & later & Heq & Hm & Hall).
      exists (call :: skipped), later. rewrite Heq. repeat split; auto.
    - constructor; assumption. }
  unfold is_earlier_call_of in Hskip |- *.
  destruct (call_lineno call <? current_lineno)%Z eqn:Hlt; [|apply Hskip; reflexivity].
  destruct (func call) as [b|ln tg v|v|ln l o c|v s|f ar|v attr|id|c|ch] eqn:Hf;
    cbn [attr_attr]; try (apply Hskip; reflexivity).
  destruct (String.eqb attr func_name) eqn:Heq; [|apply Hskip; reflexivity].
  exists [], rest. repeat split.
  - unfold is_earlier_call_of. rewrite Hlt, Hf. exact Heq.
  - constructor.
Qed.

(** [_get_nearest_func_call] returns the last call of the list, in the
    order of the list, that lies on a line strictly before the current one
    and whose [func] is an attribute named [func_name]; calls on the
    current line and calls of plain functions are passed over; it returns
    [None] exactly when the list has no such call.  The list is taken as
    it comes: it is not sorted by line. *)
Theorem nearest_func_call_is_last_match (current_lineno : Z)
    (calls : list call_node) (func_name : string) :
  match _get_nearest_func_call current_lineno calls func_name with
  | Some call =>
      exists before after,
        calls = before ++ call :: after /\
        is_earlier_call_of current_lineno func_name call = true /\
        Forall (fun c => is_earlier_call_of current_lineno func_name c = false)
          after
  | None =>
      Forall (fun c => is_earlier_call_of current_lineno func_name c = false) calls
  end.
Proof.
  unfold _get_nearest_func_call.
  pose proof (nearest_call_loop_spec current_lineno func_name (rev calls)) as H.
  destruct (nearest_call_loop current_lineno func_name (rev calls)) as [call|].
  - destruct H as (skipped & later & Heq & Hm & Hall).
    exists (rev later), (rev skipped).
    split; [|split; [exact Hm | now apply Forall_rev]].
    rewrite <- (rev_involutive calls), Heq, rev_app_distr. cbn [rev].
    now rewrite <- app_assoc.
  - rewrite <- (rev_involutive calls). now apply Forall_rev.
Qed.

End NearestCall.
